(** * render-isos: the conditional / range request engine of [src/index.ts]

    A shallow embedding of the Worker's [fetch] handler and of its helpers
    ([getRangeHeader], [retryAsync], ...), followed by the properties the
    specification states about them.

    Conventions of the embedding.
    - JavaScript numbers that hold sizes, offsets, counters, status codes and
      millisecond timestamps are [Z]; [NaN] results of [Date.parse] are
      [None].
    - Strings are [string] (sequences of 8-bit code units, as header values
      are); byte streams are [list byte].
    - [undefined] and [null] are both [None] where the source never tells
      them apart (the [file] variable is only compared after an assignment
      from a bucket call, never while still [undefined]).
    - Host services that are not part of the repository are taken as
      parameters: the date parser, the date printer and the [range-parser]
      package ([Platform]); the R2 bucket is a field of [Env] as in the
      source, and answers each call as a function of the number of calls
      served so far, so that it can fail transiently and change between
      calls.
    - [FixedLengthStream] is the identity stream of the Workers runtime
      that errors when the number of bytes written to it differs from the
      declared length; it neither truncates nor pads.
    - [new Response(body, init)] is written as a record; the constructor
      throws a [TypeError] on a header value that holds a NUL, a line feed
      or a carriage return, and [constructible] is the check it makes.
      The statements about a response that carries the object key in its
      [content-disposition] header on the fallback path assume it.
    - Effects (bucket calls, timers, console, cache) are threaded through a
      [World]; [return] and [throw] are completions of a small monad. *)

From Stdlib Require Import ZArith List String Ascii Bool Lia.
From Stdlib Require Import Strings.Byte DecimalString.
Import ListNotations.

Local Open Scope string_scope.
Local Open Scope list_scope.
Local Open Scope Z_scope.

(** ** JavaScript values *)

(** [Number.prototype.toString] on an integer, and [`${n}`]. *)
Definition toString (n : Z) : string := NilZero.string_of_int (Z.to_int n).

(** Truthiness of a string ([if (s)]): non-empty. *)
Definition truthy_string (s : string) : bool :=
  match s with EmptyString => false | String _ _ => true end.

(** Truthiness of [string | null | undefined]. *)
Definition truthy (s : option string) : bool :=
  match s with Some s => truthy_string s | None => false end.

(** Truthiness of a number that may be [NaN]: neither [NaN] nor [0]. *)
Definition truthy_number (n : option Z) : bool :=
  match n with Some n => negb (n =? 0) | None => false end.

(** [a || b] on an optional string: [b] when [a] is undefined or empty. *)
Definition or_else (a : option string) (b : string) : string :=
  match a with
  | Some (String c s) => String c s
  | _ => b
  end.

(** [a ?? b]. *)
Definition nullish {A} (a : option A) (b : A) : A :=
  match a with Some a => a | None => b end.

(** White space removed by [String.prototype.trim], among 8-bit code units:
    TAB, LF, VT, FF, CR, SP and NBSP. *)
Definition is_white_space (c : ascii) : bool :=
  let n := nat_of_ascii c in
  ((9 <=? n) && (n <=? 13) || (n =? 32) || (n =? 160))%nat.

Fixpoint trimStart (s : string) : string :=
  match s with
  | EmptyString => EmptyString
  | String c s' => if is_white_space c then trimStart s' else s
  end.

Fixpoint trimEnd (s : string) : string :=
  match s with
  | EmptyString => EmptyString
  | String c s' =>
      match trimEnd s' with
      | EmptyString => if is_white_space c then EmptyString else String c EmptyString
      | r => String c r
      end
  end.

Definition trim (s : string) : string := trimEnd (trimStart s).

(** The character class of the regular expression in [getHeaderEtag]: the
    apostrophe and the double quote. *)
Definition is_quote (c : ascii) : bool :=
  let n := nat_of_ascii c in ((n =? 34) || (n =? 39))%nat.

(** One match of the first alternative: a quote at the start. *)
Definition strip_leading_quote (s : string) : string :=
  match s with
  | String c s' => if is_quote c then s' else s
  | EmptyString => EmptyString
  end.

(** One match of the second alternative: a quote at the end. *)
Fixpoint strip_trailing_quote (s : string) : string :=
  match s with
  | EmptyString => EmptyString
  | String c EmptyString => if is_quote c then EmptyString else s
  | String c s' => String c (strip_trailing_quote s')
  end.

(** [s.replace(re, empty)] with the global two-alternative expression of
    [getHeaderEtag]: it removes a quote at position 0, then a quote at the
    last position of what follows. *)
Definition replace_surrounding_quotes (s : string) : string :=
  strip_trailing_quote (strip_leading_quote s).

(** [s.startsWith(p)]. *)
Definition startsWith (s p : string) : bool := String.prefix p s.

(** [s.slice(1)]. *)
Definition slice1 (s : string) : string :=
  match s with EmptyString => EmptyString | String _ s' => s' end.

(** [arr.join(sep)]. *)
Definition join (sep : string) (l : list string) : string := String.concat sep l.

(** ** The data model *)

(** [type ParsedRange = { offset; length } | { suffix }]. *)
Inductive ParsedRange : Type :=
| OffsetLength (offset length : Z)
| Suffix (suffix : Z).

(** What [range-parser] returns: [-1], [-2], or an array of ranges carrying
    a [type] property. *)
Record Range : Type := { start : Z; range_end : Z }.

Inductive ParseResult : Type :=
| ResultMinus1
| ResultMinus2
| ResultRanges (type : string) (ranges : list Range).

(** [R2HTTPMetadata], every field optional. *)
Record R2HTTPMetadata : Type := {
  contentType : option string;
  contentLanguage : option string;
  contentDisposition : option string;
  contentEncoding : option string;
  cacheControl : option string;
  cacheExpiry : option Z
}.

(** [R2Object]: the metadata of a stored object; [uploaded] in milliseconds. *)
Record R2Object : Type := {
  key : string;
  size : Z;
  etag : string;
  httpEtag : string;
  uploaded : Z;
  httpMetadata : option R2HTTPMetadata
}.

(** The same metadata for another size. *)
Definition with_size (o : R2Object) (n : Z) : R2Object :=
  {| key := key o; size := n; etag := etag o; httpEtag := httpEtag o;
     uploaded := uploaded o; httpMetadata := httpMetadata o |}.

(** [R2Object | R2ObjectBody]: a result of the bucket with or without the
    [body] property. *)
Inductive R2File : Type :=
| FileObject (object : R2Object)
| FileObjectBody (object : R2Object) (body : list byte).

Definition object_of (file : R2File) : R2Object :=
  match file with FileObject o => o | FileObjectBody o _ => o end.

(** [R2Conditional], the [onlyIf] option of [get]. *)
Record R2Conditional : Type := {
  etagMatches : option string;
  etagDoesNotMatch : option string;
  uploadedBefore : option Z;
  uploadedAfter : option Z
}.

(** Values thrown: a rejection of the bucket, or the [Error] built after the
    loop of [retryAsync]. *)
Inductive Exn : Type :=
| R2Error (message : string)
| ErrorUnreachable.

(** How a promise settles. *)
Inductive Settled (A : Type) : Type :=
| Fulfilled (value : A)
| Rejected (reason : Exn).
Arguments Fulfilled {A} value.
Arguments Rejected {A} reason.

(** [R2Bucket]: [head], [get] without [onlyIf] (an [R2ObjectBody] or [null])
    and [get] with [onlyIf] (which may answer an [R2Object] without body).
    The first argument is the number of calls the bucket has served. *)
Record R2Bucket : Type := {
  head : nat -> string -> Settled (option R2Object);
  get : nat -> string -> option ParsedRange ->
        Settled (option (R2Object * list byte));
  get_onlyIf : nat -> string -> R2Conditional -> option ParsedRange ->
        Settled (option R2File)
}.

(** [interface Env], the fields the handler reads. *)
Record Env : Type := {
  R2_BUCKET : R2Bucket;
  ALLOWED_ORIGINS : option string;
  CACHE_CONTROL : option string;
  NOTFOUND_FILE : option string;
  LOGGING : option bool;
  R2_RETRIES : option Z;
  DATE_SUFFIX : option Z
}.

(** The parsed [request.url]. *)
Record URL : Type := {
  href : string;
  pathname : string;
  searchParams : list (string * string)
}.

(** [Headers]: names in lower case, one entry per name. *)
Definition Headers : Type := list (string * string).

Fixpoint headers_get (h : Headers) (name : string) : option string :=
  match h with
  | [] => None
  | (n, v) :: h' => if String.eqb n name then Some v else headers_get h' name
  end.

Record Request : Type := {
  method : string;
  url : URL;
  headers : Headers
}.

(** What the readable side of a stream gives its consumer: all its bytes,
    up to a regular end, or an error before that end (whatever it let
    through first). *)
Inductive Stream : Type :=
| Delivered (bytes : list byte)
| Errored.

(** A response body: a string given to the constructor, or a stream. *)
Inductive Body : Type :=
| BodyText (text : string)
| BodyStream (stream : Stream).

Record Response : Type := {
  body : option Body;
  status : Z;
  response_headers : Headers
}.

(** [response.ok]. *)
Definition ok (r : Response) : bool := (200 <=? status r) && (status r <=? 299).

(** ** Host services *)

Class Platform : Type := {
  (** [Date.parse]; [None] is [NaN]. *)
  Date_parse : string -> option Z;
  Date_parse_empty : Date_parse EmptyString = None;
  (** [Date.prototype.toUTCString] of a time value. *)
  toUTCString : Z -> string;
  (** [parseRange(size, header)] of the [range-parser] package. *)
  parseRange : Z -> string -> ParseResult
}.

(** The readable side of [new FixedLengthStream(n)] when the given bytes
    are piped into its writable side: an identity stream, which errors
    when the number of bytes written is not [n]. *)
Definition FixedLengthStream (n : Z) (bytes : list byte) : Stream :=
  if Z.of_nat (List.length bytes) =? n then Delivered bytes else Errored.

(** The check [new Response] makes on each header value: no NUL, line
    feed or carriage return (the constructor throws a [TypeError]
    otherwise). *)
Definition valid_header_char (c : ascii) : bool :=
  let n := Z.of_nat (nat_of_ascii c) in
  negb ((n =? 0) || (n =? 10) || (n =? 13)).

Fixpoint valid_header_value (s : string) : bool :=
  match s with
  | EmptyString => true
  | String c s' => valid_header_char c && valid_header_value s'
  end.

Definition constructible (h : Headers) : bool :=
  forallb (fun nv => valid_header_value (snd nv)) h.

(** ** Range helpers *)

Definition rangeHasLength (object : ParsedRange) : bool :=
  match object with OffsetLength _ _ => true | Suffix _ => false end.

Definition hasBody (object : R2File) : bool :=
  match object with FileObjectBody _ _ => true | FileObject _ => false end.

Definition hasSuffix (range : ParsedRange) : bool :=
  match range with Suffix _ => true | OffsetLength _ _ => false end.

Definition getRangeHeader (range : ParsedRange) (fileSize : Z) : string :=
  ("bytes " ++
   toString (match range with
             | Suffix suffix => fileSize - suffix
             | OffsetLength offset _ => offset
             end) ++ "-" ++
   toString (match range with
             | Suffix _ => fileSize - 1
             | OffsetLength offset length => offset + length - 1
             end) ++ "/" ++ toString fileSize)%string.

(** ** Effects *)

(** What the handler does to the outside, in order. *)
Inductive Event : Type :=
| R2Head (name : string)
| R2Get (name : string) (onlyIf : option R2Conditional) (range : option ParsedRange)
| SetTimeout (delay : Z)
| ConsoleError (message : string) (err : Exn)
| ConsoleWarn (message : string) (arg : string)
| CacheMatch (request : Request)
| CachePut (request : Request) (response : Response).

(** Modelled from the spec: the edge cache collaborator [caches.default],
    whose implementation is not part of the repository: a store of responses
    keyed by the request, [match] answering the entry last [put] under the
    same request. *)
Definition Cache : Type := list (Request * Response).

Record World : Type := {
  clock : nat;            (* calls the bucket has served *)
  cache : Cache;          (* caches.default *)
  trace : list Event
}.

(** How the evaluation of a statement ends: with a value, by [return] of the
    enclosing [fetch], or by [throw]. [OutOfFuel] is the model's own: the
    loop of [retryAsync] ran longer than the fuel it was given. *)
Inductive Completion (A : Type) : Type :=
| Normal (value : A)
| Return (response : Response)
| Throw (reason : Exn)
| OutOfFuel.
Arguments Normal {A} value.
Arguments Return {A} response.
Arguments Throw {A} reason.
Arguments OutOfFuel {A}.

Definition M (A : Type) : Type := World -> Completion A * World.

Definition ret {A} (a : A) : M A := fun w => (Normal a, w).

Definition bind {A B} (m : M A) (f : A -> M B) : M B :=
  fun w =>
    match m w with
    | (Normal a, w') => f a w'
    | (Return r, w') => (Return r, w')
    | (Throw e, w') => (Throw e, w')
    | (OutOfFuel, w') => (OutOfFuel, w')
    end.

Definition return_ {A} (r : Response) : M A := fun w => (Return r, w).
Definition throw {A} (e : Exn) : M A := fun w => (Throw e, w).

Declare Scope js_scope.
Delimit Scope js_scope with js.
Notation "x <- m ;; k" := (bind m (fun x => k))
  (at level 61, m at next level, right associativity) : js_scope.
Notation "m ;; k" := (bind m (fun _ => k))
  (at level 61, right associativity) : js_scope.
Local Open Scope js_scope.

Definition emit (e : Event) : M unit :=
  fun w => (Normal tt, {| clock := clock w; cache := cache w; trace := trace w ++ [e] |}).

Definition when (b : bool) (m : M unit) : M unit := if b then m else ret tt.

(** The world after the bucket has served one more call. *)
Definition served (e : Event) (w : World) : World :=
  {| clock := S (clock w); cache := cache w; trace := trace w ++ [e] |}.

Definition settle {A} (p : Settled A) (w : World) : Completion A * World :=
  match p with
  | Fulfilled v => (Normal v, w)
  | Rejected e => (Throw e, w)
  end.

(** [env.R2_BUCKET.head(name)]. *)
Definition r2_head (env : Env) (name : string) : M (option R2File) :=
  fun w =>
    settle
      (match head (R2_BUCKET env) (clock w) name with
       | Fulfilled o => Fulfilled (option_map FileObject o)
       | Rejected e => Rejected e
       end)
      (served (R2Head name) w).

(** [env.R2_BUCKET.get(name, { range })]. *)
Definition r2_get (env : Env) (name : string) (range : option ParsedRange)
  : M (option R2File) :=
  fun w =>
    settle
      (match get (R2_BUCKET env) (clock w) name range with
       | Fulfilled o => Fulfilled (option_map (fun ob => FileObjectBody (fst ob) (snd ob)) o)
       | Rejected e => Rejected e
       end)
      (served (R2Get name None range) w).

(** [env.R2_BUCKET.get(name, { onlyIf, range })]. *)
Definition r2_get_onlyIf (env : Env) (name : string) (onlyIf : R2Conditional)
  (range : option ParsedRange) : M (option R2File) :=
  fun w =>
    settle (get_onlyIf (R2_BUCKET env) (clock w) name onlyIf range)
           (served (R2Get name (Some onlyIf) range) w).

(** [await new Promise((resolve) => setTimeout(resolve, delay))]. *)
Definition sleep (delay : Z) : M unit := emit (SetTimeout delay).

Definition Request_eq_dec (a b : Request) : {a = b} + {a <> b}.
Proof.
  repeat decide equality; apply string_dec.
Defined.

Fixpoint cache_lookup (c : Cache) (request : Request) : option Response :=
  match c with
  | [] => None
  | (q, r) :: c' => if Request_eq_dec q request then Some r else cache_lookup c' request
  end.

(** [await cache.match(request)]. *)
Definition cache_match (request : Request) : M (option Response) :=
  fun w =>
    (Normal (cache_lookup (cache w) request),
     {| clock := clock w; cache := cache w; trace := trace w ++ [CacheMatch request] |}).

(** [ctx.waitUntil(cache.put(request, response.clone()))]: the write is
    started here and the host keeps it alive; it is taken as done when the
    next request is served. *)
Definition cache_put (request : Request) (response : Response) : M unit :=
  fun w =>
    (Normal tt,
     {| clock := clock w;
        cache := (request, response) :: cache w;
        trace := trace w ++ [CachePut request response] |}).

(** ** retryAsync *)

Definition logging (env : Env) : bool :=
  match LOGGING env with Some b => b | None => false end.

(** [env.R2_RETRIES || 0]. *)
Definition maxAttempts_of (env : Env) : Z :=
  match R2_RETRIES env with Some n => n | None => 0 end.

(** The delay before the retry that follows failure number [attempts]. *)
Definition backoff (attempts : Z) : Z := Z.min (1000 * 2 ^ (attempts - 1)) 30000.

(** The [while] loop of [retryAsync], from the state [attempts]; one unit of
    fuel per iteration. *)
Fixpoint retry_loop {T} (fuel : nat) (env : Env) (fn : M T)
  (maxAttempts attempts : Z) : M T :=
  match fuel with
  | O => fun w => (OutOfFuel, w)
  | S fuel' =>
      if (maxAttempts =? -1) || (attempts <=? maxAttempts) then
        fun w =>
          match fn w with
          | (Throw err, w1) =>
              let attempts := attempts + 1 in
              (when (logging env)
                 (emit (ConsoleError ("Attempt " ++ toString attempts ++ " failed:")%string err)) ;;
               if attempts <=? maxAttempts then
                 sleep (backoff attempts) ;;
                 retry_loop fuel' env fn maxAttempts attempts
               else
                 throw err) w1
          | completed => completed
          end
      else
        throw ErrorUnreachable
  end.

(** Iterations the loop can make under a budget: it goes round again only
    while [attempts <= maxAttempts]. *)
Definition retry_fuel (maxAttempts : Z) : nat := S (Z.to_nat maxAttempts).

Definition retryAsync {T} (env : Env) (fn : M T) : M T :=
  let maxAttempts := maxAttempts_of env in
  retry_loop (retry_fuel maxAttempts) env fn maxAttempts 0.

(** The world after the [catch] block has logged failure [attempts]. *)
Definition logged (env : Env) (attempts : Z) (err : Exn) (w : World) : World :=
  snd (when (logging env)
         (emit (ConsoleError ("Attempt " ++ toString attempts ++ " failed:")%string err)) w).

(** The world after a timer of [delay] milliseconds. *)
Definition slept (delay : Z) (w : World) : World := snd (sleep delay w).

(** [fn] is one call to the bucket, recorded as [e]: it advances the clock
    and adds [e] to the trace, whatever the bucket answers. *)
Definition bucket_call {T} (fn : M T) (e : Event) : Prop :=
  forall w, snd (fn w) = served e w /\
            ((exists v, fst (fn w) = Normal v) \/ (exists err, fst (fn w) = Throw err)).

(** ** The handler *)

Definition dquote : string := String "034"%char EmptyString.

Definition allowedMethods : list string := ["GET"; "HEAD"; "OPTIONS"].
Definition keyringFilename : string := "secureblue-keyring.gpg".
Definition isoDownloadPath : string := "/download".
Definition checksumDownloadPath : string := "/downloadSHA256SUM".

(** [allowedMethods.indexOf(m) === -1] is [negb (includes allowedMethods m)]. *)
Definition includes (l : list string) (s : string) : bool :=
  existsb (String.eqb s) l.

(** [new Response(text, { status })]. [response_headers] holds the headers
    the handler gives to the constructor. *)
Definition text_response (text : string) (st : Z) : Response :=
  {| body := Some (BodyText text); status := st; response_headers := [] |}.

(** [env.CACHE_CONTROL !== "no-store"]. *)
Definition isCachingEnabled (env : Env) : bool :=
  match CACHE_CONTROL env with
  | Some s => negb (String.eqb s "no-store")
  | None => true
  end.

(** [!response || !(response.ok || response.status == 304)]. *)
Definition cache_miss (response : option Response) : bool :=
  match response with
  | None => true
  | Some r => negb (ok r || (status r =? 304))
  end.

(** [`${env.DATE_SUFFIX}`]. *)
Definition date_suffix_text (env : Env) : string :=
  match DATE_SUFFIX env with Some n => toString n | None => "undefined" end.

(** Lines 103-128: the object key of the request ([inr]), or the response
    returned at once ([inl]). *)
Definition object_key (env : Env) (u : URL) : Response + string :=
  if String.eqb (pathname u) isoDownloadPath
     || String.eqb (pathname u) checksumDownloadPath then
    match headers_get (searchParams u) "de", headers_get (searchParams u) "nvidia" with
    | Some (String _ _ as de), Some (String _ _ as nvidia) =>
        let key := ("secureblue-" ++ de ++ "-" ++ nvidia ++ "-hardened-" ++
                    date_suffix_text env ++ ".iso")%string in
        inr (if String.eqb (pathname u) checksumDownloadPath
             then (key ++ "-CHECKSUM")%string else key)
    | _, _ => inl (text_response "Missing parameters" 400)
    end
  else if String.eqb (slice1 (pathname u)) keyringFilename then
    inr keyringFilename
  else
    inl (text_response "Not Found" 404).

Definition resolve_key (env : Env) (u : URL) : M string :=
  match object_key env u with
  | inl response => return_ response
  | inr key => ret key
  end.

(** Lines 148-154: the encoding of the single range the parser found. *)
Definition encode_range (fileSize : Z) (firstRange : Range) : ParsedRange :=
  if fileSize =? range_end firstRange + 1
  then Suffix (fileSize - start firstRange)
  else OffsetLength (start firstRange)
                    (range_end firstRange - start firstRange + 1).

(** [header?.trim().replace(...)]. *)
Definition getHeaderEtag (header : option string) : option string :=
  option_map (fun h => replace_surrounding_quotes (trim h)) header.

(** Lines 266-286: the headers of the assembled response. *)
Definition build_headers `{Platform} (env : Env) (key : string) (file : R2Object)
  (range : option ParsedRange) (notFound : bool) (contentLength : Z) : Headers :=
  let md {A} (f : R2HTTPMetadata -> option A) : option A :=
    match httpMetadata file with Some m => f m | None => None end in
  [ ("accept-ranges", "bytes");
    ("access-control-allow-origin", or_else (ALLOWED_ORIGINS env) EmptyString);
    ("etag", if notFound then EmptyString else httpEtag file);
    ("cache-control",
      nullish (md cacheControl)
              (if notFound then EmptyString
               else or_else (CACHE_CONTROL env) EmptyString));
    ("expires", nullish (option_map toUTCString (md cacheExpiry)) EmptyString);
    ("last-modified", if notFound then EmptyString else toUTCString (uploaded file));
    ("content-encoding", nullish (md contentEncoding) EmptyString);
    ("content-type", nullish (md contentType) "application/octet-stream");
    ("content-language", nullish (md contentLanguage) EmptyString);
    ("content-disposition",
      ("attachment; filename=" ++ dquote ++ key ++ dquote)%string);
    ("content-range",
      match range with
      | Some r => if notFound then EmptyString else getRangeHeader r (size file)
      | None => EmptyString
      end);
    ("content-length", toString contentLength) ].

(** A function call: a [return] anywhere in the body is its value. *)
Definition call {A} (body : M A) (as_value : Response -> A) : M A :=
  fun w =>
    match body w with
    | (Return r, w') => (Normal (as_value r), w')
    | other => other
    end.

Section Handler.
Context `{Platform}.
Variables (request : Request) (env : Env).

(** Lines 133-159: the bucket is asked for the size and the [Range] header
    is parsed against it. *)
Definition range_stage (objectName : string)
  : M (option R2File * option ParsedRange) :=
  if String.eqb (method request) "GET" then
    match headers_get (headers request) "range" with
    | Some (String _ _ as rangeHeader) =>
        file <- retryAsync env (r2_head env objectName) ;;
        match file with
        | None => return_ (text_response "File Not Found" 404)
        | Some f =>
            match parseRange (size (object_of f)) rangeHeader with
            | ResultRanges type [firstRange] =>
                if String.eqb type "bytes" then
                  ret (file, Some (encode_range (size (object_of f)) firstRange))
                else return_ (text_response "Range Not Satisfiable" 416)
            | _ => return_ (text_response "Range Not Satisfiable" 416)
            end
        end
    | _ => ret (None, None)
    end
  else ret (None, None).

Definition ifMatch : option string :=
  getHeaderEtag (headers_get (headers request) "if-match").
Definition ifNoneMatch : option string :=
  getHeaderEtag (headers_get (headers request) "if-none-match").
Definition ifModifiedSince : option Z :=
  Date_parse (or_else (headers_get (headers request) "if-modified-since") EmptyString).
Definition ifUnmodifiedSince : option Z :=
  Date_parse (or_else (headers_get (headers request) "if-unmodified-since") EmptyString).
Definition ifRange : option string := headers_get (headers request) "if-range".

(** Lines 176-185: [If-Range] may clear the range. *)
Definition if_range_stage (file : option R2File) (range : option ParsedRange)
  : option ParsedRange :=
  match range, ifRange, file with
  | Some r, Some (String _ _ as v), Some f =>
      let maybeDate := Date_parse v in
      if match maybeDate with
         | None => true
         | Some d => uploaded (object_of f) <? d
         end
      then
        if startsWith v "W/" || negb (String.eqb v (httpEtag (object_of f)))
        then None else Some r
      else Some r
  | _, _, _ => range
  end.

(** Lines 190-195: the [onlyIf] of the first conditional [get]. *)
Definition if_match_condition : R2Conditional :=
  {| etagMatches := ifMatch;
     etagDoesNotMatch := None;
     uploadedBefore :=
       if truthy_number ifUnmodifiedSince then ifUnmodifiedSince else None;
     uploadedAfter := None |}.

(** Lines 187-203. *)
Definition if_match_stage (objectName : string) (range : option ParsedRange)
  (file : option R2File) : M (option R2File) :=
  if truthy ifMatch || truthy_number ifUnmodifiedSince then
    file <- retryAsync env (r2_get_onlyIf env objectName if_match_condition range) ;;
    match file with
    | Some (FileObject _) => return_ (text_response "Precondition Failed" 412)
    | _ => ret file
    end
  else ret file.

(** Lines 210 and 217: the [onlyIf] of the second conditional [get]. *)
Definition etagDoesNotMatch_condition : R2Conditional :=
  {| etagMatches := None; etagDoesNotMatch := ifNoneMatch;
     uploadedBefore := None; uploadedAfter := None |}.
Definition uploadedAfter_condition : R2Conditional :=
  {| etagMatches := None; etagDoesNotMatch := None;
     uploadedBefore := None; uploadedAfter := ifModifiedSince |}.

(** The [onlyIf] of the call lines 207-221 make: the tag alone when
    [If-None-Match] is usable, else the date. *)
Definition if_none_match_condition : R2Conditional :=
  if truthy ifNoneMatch
  then etagDoesNotMatch_condition
  else uploadedAfter_condition.

(** Lines 205-225. *)
Definition if_none_match_stage (objectName : string) (range : option ParsedRange)
  (file : option R2File) : M (option R2File) :=
  if truthy ifNoneMatch || truthy_number ifModifiedSince then
    file <-
      (if truthy ifNoneMatch then
         retryAsync env (r2_get_onlyIf env objectName etagDoesNotMatch_condition range)
       else if truthy_number ifModifiedSince then
         retryAsync env (r2_get_onlyIf env objectName uploadedAfter_condition range)
       else ret file) ;;
    match file with
    | Some (FileObject _) =>
        return_ {| body := None; status := 304; response_headers := [] |}
    | _ => ret file
    end
  else ret file.

(** Lines 227-232. *)
Definition final_fetch (objectName : string) (range : option ParsedRange)
  (file : option R2File) : M (option R2File) :=
  if String.eqb (method request) "HEAD" then
    retryAsync env (r2_head env objectName)
  else
    match file with
    | Some (FileObjectBody _ _) => ret file
    | _ => retryAsync env (r2_get env objectName range)
    end.

(** Lines 240-243: the fetch of the not-found fallback. *)
Definition fallback_fetch (objectName : string) : M (option R2File) :=
  if String.eqb (method request) "HEAD"
  then retryAsync env (r2_head env objectName)
  else retryAsync env (r2_get env objectName None).

(** Lines 234-251: the not-found fallback. The result is the file to
    serve and the [notFound] flag. *)
Definition not_found_stage (file : option R2File) : M (R2File * bool) :=
  match file with
  | Some f => ret (f, false)
  | None =>
      match NOTFOUND_FILE env with
      | Some (String _ _ as objectName) =>
          file <- fallback_fetch objectName ;;
          match file with
          | Some f => ret (f, true)
          | None => return_ (text_response "File Not Found" 404)
          end
      | _ => return_ (text_response "File Not Found" 404)
      end
  end.

(** Lines 255-259: the declared length. *)
Definition content_length (file : R2File) (range : option ParsedRange)
  (notFound : bool) : Z :=
  if hasBody file && negb (size (object_of file) =? 0) then
    match range with
    | Some r =>
        if negb notFound then
          match r with OffsetLength _ length => length | Suffix suffix => suffix end
        else size (object_of file)
    | None => size (object_of file)
    end
  else size (object_of file).

(** Lines 254-263: the body of the response. *)
Definition response_body (file : R2File) (contentLength : Z) : option Body :=
  match file with
  | FileObjectBody o b =>
      if negb (size o =? 0)
      then Some (BodyStream (FixedLengthStream contentLength b))
      else None
  | FileObject _ => None
  end.

(** Lines 264-287: the arguments of [new Response]. The constructor
    throws a [TypeError] when [constructible] does not hold of the headers
    (the key, taken from the percent-decoded query, goes into
    [content-disposition] as it is); the record is the response when it
    holds. *)
Definition build_response (key : string) (file : R2File)
  (range : option ParsedRange) (notFound : bool) : Response :=
  let contentLength := content_length file range notFound in
  {| body := response_body file contentLength;
     status := if notFound then 404
               else match range with Some _ => 206 | None => 200 end;
     response_headers :=
       build_headers env key (object_of file) range notFound contentLength |}.

(** Line 289: whether the response is written to the cache. *)
Definition cacheable (range : option ParsedRange) (notFound : bool) : bool :=
  String.eqb (method request) "GET"
  && match range with Some _ => false | None => true end
  && isCachingEnabled env && negb notFound.

(** The world after line 290. *)
Definition stored (response : Response) (range : option ParsedRange)
  (notFound : bool) (w : World) : World :=
  snd (when (cacheable range notFound) (cache_put request response) w).

(** Lines 234-290: from the file of the last fetch to the response. *)
Definition assemble (key : string) (file : option R2File)
  (range : option ParsedRange) : M Response :=
  fn <- not_found_stage file ;;
  let response := build_response key (fst fn) range (snd fn) in
  when (cacheable range (snd fn)) (cache_put request response) ;;
  ret response.

(** Lines 130-232: from the key to the file of the last fetch. *)
Definition resolve (key : string) : M (option R2File * option ParsedRange) :=
  fr <- range_stage key ;;
  let range := if_range_stage (fst fr) (snd fr) in
  file <- if_match_stage key range (fst fr) ;;
  file <- if_none_match_stage key range file ;;
  file <- final_fetch key range file ;;
  ret (file, range).

(** Lines 103-290: the branch of the cache miss, after its log line. *)
Definition pipeline : M Response :=
  key <- resolve_key env (url request) ;;
  fr <- resolve key ;;
  assemble key (fst fr) (snd fr).

(** Lines 90-94. *)
Definition cache_stage : M (option Response) :=
  if isCachingEnabled env then cache_match request else ret None.

Definition log_miss : M unit :=
  when (logging env) (emit (ConsoleWarn "Cache MISS for" (href (url request)))).
Definition log_hit : M unit :=
  when (logging env) (emit (ConsoleWarn "Cache HIT for" (href (url request)))).

(** The body of [fetch]; the test of line 99 ([cache_miss]) is made by cases
    on [response]. *)
Definition fetch_body : M Response :=
  if negb (includes allowedMethods (method request)) then
    return_ {| body := Some (BodyText "Method Not Allowed");
               status := 405;
               response_headers := [("allow", join ", " allowedMethods)] |}
  else if String.eqb (method request) "OPTIONS" then
    return_ {| body := None;
               status := 200;
               response_headers := [("allow", join ", " allowedMethods)] |}
  else
    response <- cache_stage ;;
    match response with
    | Some r =>
        if negb (ok r || (status r =? 304))
        then log_miss ;; pipeline
        else log_hit ;; ret r
    | None => log_miss ;; pipeline
    end.

(** [fetch(request, env, ctx)]. *)
Definition fetch : M Response := call fetch_body (fun r => r).

(** ** Vocabulary of the statements *)

(** The cache entry the handler finds for the request, if it looks. *)
Definition cached (w : World) : option Response :=
  if isCachingEnabled env then cache_lookup (cache w) request else None.

(** The request is a GET or a HEAD that the cache does not answer. *)
Definition is_miss (w : World) : bool :=
  includes allowedMethods (method request)
  && negb (String.eqb (method request) "OPTIONS")
  && cache_miss (cached w).

(** The world in which the pipeline starts: after the cache lookup and the
    log line of the miss. *)
Definition miss_world (w : World) : World :=
  snd ((cache_stage ;; log_miss) w).

(** The request runs the pipeline and has the object key [key]. *)
Definition enters_pipeline (w : World) (key : string) : Prop :=
  is_miss w = true /\ object_key env (url request) = inr key.

(** The request passes the range stage with [file] and [range0], and
    [If-Range] leaves [range]; the precondition stages start in [w1]. *)
Definition reaches_preconditions (w : World) (key : string)
  (file : option R2File) (range : option ParsedRange) (w1 : World) : Prop :=
  enters_pipeline w key /\
  exists range0,
    range_stage key (miss_world w) = (Normal (file, range0), w1) /\
    range = if_range_stage file range0.

(** The request reaches the assembly of the response with the [file] of
    the last fetch and the effective [range], in [w1]. *)
Definition reaches_assembly (w : World) (key : string)
  (file : option R2File) (range : option ParsedRange) (w1 : World) : Prop :=
  enters_pipeline w key /\
  resolve key (miss_world w) = (Normal (file, range), w1).

End Handler.

(** The bucket calls of a trace. *)
Definition is_bucket_call (e : Event) : bool :=
  match e with R2Head _ | R2Get _ _ _ => true | _ => false end.

Definition bucket_calls (t : list Event) : list Event := filter is_bucket_call t.

(** The timers of a trace. *)
Definition delays (t : list Event) : list Z :=
  flat_map (fun e => match e with SetTimeout d => [d] | _ => [] end) t.

(** ** Vocabulary of the further statements *)

(** [m] makes the bucket serve at most [k] calls. *)
Definition calls_within {A} (m : M A) (k : nat) : Prop :=
  forall w c w', m w = (c, w') -> (clock w <= clock w' <= clock w + k)%nat.

(** Whatever [m] does, the world it leaves is related by [step] to the one
    it started in. *)
Definition preserves {A} (step : World -> World -> Prop) (m : M A) : Prop :=
  forall w c w', m w = (c, w') -> step w w'.

(** The cache is the same. *)
Definition same_cache (w w' : World) : Prop := cache w' = cache w.

(** The trace has grown by events that pass the test [P]. *)
Definition extends_by (P : Event -> bool) (w w' : World) : Prop :=
  exists evs, trace w' = trace w ++ evs /\ forallb P evs = true.

(** [m] does not end by [throw]. *)
Definition never_throws {A} (m : M A) : Prop :=
  forall w e, fst (m w) <> Throw e.

(** Timers and console lines. *)
Definition housekeeping (e : Event) : bool :=
  match e with
  | SetTimeout _ | ConsoleError _ _ | ConsoleWarn _ _ => true
  | _ => false
  end.

(** What [fn] answers only depends on the number of calls the bucket has
    served. *)
Definition answers_by_clock {T} (fn : M T) (answer : nat -> Completion T) : Prop :=
  forall w, fst (fn w) = answer (clock w).

(** The bucket never rejects a call. *)
Definition never_rejects (b : R2Bucket) : Prop :=
  (forall n name, exists o, head b n name = Fulfilled o) /\
  (forall n name range, exists o, get b n name range = Fulfilled o) /\
  (forall n name onlyIf range, exists o, get_onlyIf b n name onlyIf range = Fulfilled o).

(** The bucket has no object under [name], whenever and however asked. *)
Definition never_has (b : R2Bucket) (name : string) : Prop :=
  (forall n, head b n name = Fulfilled None) /\
  (forall n range, get b n name range = Fulfilled None) /\
  (forall n onlyIf range, get_onlyIf b n name onlyIf range = Fulfilled None).

(** The events that touch the cache. *)
Definition is_cache_event (e : Event) : bool :=
  match e with CacheMatch _ | CachePut _ _ => true | _ => false end.

Definition not_cache_event (e : Event) : bool := negb (is_cache_event e).

(** The bucket calls of a request name the object of the request or the
    not-found fallback. *)
Definition names_only (key : string) (env : Env) (e : Event) : bool :=
  match e with
  | R2Head name | R2Get name _ _ =>
      String.eqb name key
      || match NOTFOUND_FILE env with Some f => String.eqb name f | None => false end
  | _ => true
  end.

(** The console lines, and a trace without them. *)
Definition is_console (e : Event) : bool :=
  match e with ConsoleError _ _ | ConsoleWarn _ _ => true | _ => false end.

Definition silent (t : list Event) : list Event :=
  filter (fun e => negb (is_console e)) t.

(** Two worlds that only differ by console lines. *)
Definition same_but_console (w w' : World) : Prop :=
  clock w = clock w' /\ cache w = cache w' /\ silent (trace w) = silent (trace w').

(** From worlds that only differ by console lines, [m] and [m'] end the same
    way in worlds that only differ by console lines. *)
Definition simulates {A} (m m' : M A) : Prop :=
  forall w w', same_but_console w w' ->
    fst (m w) = fst (m' w') /\ same_but_console (snd (m w)) (snd (m' w')).

(** The same environment with another [LOGGING]. *)
Definition with_logging (env : Env) (b : option bool) : Env :=
  {| R2_BUCKET := R2_BUCKET env;
     ALLOWED_ORIGINS := ALLOWED_ORIGINS env;
     CACHE_CONTROL := CACHE_CONTROL env;
     NOTFOUND_FILE := NOTFOUND_FILE env;
     LOGGING := b;
     R2_RETRIES := R2_RETRIES env;
     DATE_SUFFIX := DATE_SUFFIX env |}.

(** A string of white space. *)
Fixpoint all_white_space (s : string) : bool :=
  match s with
  | EmptyString => true
  | String c s' => is_white_space c && all_white_space s'
  end.

(** The delays after failures [first], [first + 1], ... ([count] of them). *)
Definition backoffs (first : Z) (count : nat) : list Z :=
  map (fun i => backoff (first + Z.of_nat i)) (seq 0 count).

(** ** HTTP dates *)

Definition day_names : list string :=
  ["Sun"; "Mon"; "Tue"; "Wed"; "Thu"; "Fri"; "Sat"].

Definition month_names : list string :=
  ["Jan"; "Feb"; "Mar"; "Apr"; "May"; "Jun";
   "Jul"; "Aug"; "Sep"; "Oct"; "Nov"; "Dec"].

Definition is_digit (c : ascii) : bool :=
  let n := nat_of_ascii c in ((48 <=? n) && (n <=? 57))%nat.

Fixpoint all_digits (s : string) : bool :=
  match s with
  | EmptyString => true
  | String c s' => is_digit c && all_digits s'
  end.

(** The number a string of decimal digits writes. *)
Fixpoint number_from (acc : Z) (s : string) : Z :=
  match s with
  | EmptyString => acc
  | String c s' => number_from (10 * acc + (Z.of_nat (nat_of_ascii c) - 48)) s'
  end.

Definition number_of (s : string) : option Z :=
  if all_digits s && negb (String.eqb s EmptyString)
  then Some (number_from 0 s) else None.

Fixpoint index_of (s : string) (l : list string) : option nat :=
  match l with
  | [] => None
  | x :: l' => if String.eqb s x then Some 0%nat else option_map S (index_of s l')
  end.

Definition is_some {A : Type} (o : option A) : bool :=
  match o with Some _ => true | None => false end.

Definition in_range (lo hi : Z) (o : option Z) : bool :=
  match o with Some n => (lo <=? n) && (n <=? hi) | None => false end.

(** The preferred format of an HTTP date (IMF-fixdate of RFC 9110): a day
    name, a comma, the day, the month name, the year, the time of day and
    GMT, 29 characters in all. *)
Definition is_imf_fixdate (s : string) : bool :=
  (String.length s =? 29)%nat
  && is_some (index_of (substring 0 3 s) day_names)
  && String.eqb (substring 3 2 s) ", "
  && in_range 1 31 (number_of (substring 5 2 s))
  && String.eqb (substring 7 1 s) " "
  && is_some (index_of (substring 8 3 s) month_names)
  && String.eqb (substring 11 1 s) " "
  && in_range 0 9999 (number_of (substring 12 4 s))
  && String.eqb (substring 16 1 s) " "
  && in_range 0 23 (number_of (substring 17 2 s))
  && String.eqb (substring 19 1 s) ":"
  && in_range 0 59 (number_of (substring 20 2 s))
  && String.eqb (substring 22 1 s) ":"
  && in_range 0 60 (number_of (substring 23 2 s))
  && String.eqb (substring 25 4 s) " GMT".

(** Each of the three formats of an HTTP date (the preferred one and the
    two obsolete ones, of RFC 850 and of asctime) starts with the name of a
    day, abbreviated or in full. *)
Definition starts_with_day_name (s : string) : bool :=
  is_some (index_of (substring 0 3 s) day_names).

(** ** Scenarios

    Concrete hosts, buckets and requests on which the statements below are
    run. *)

Module Scenario.

Definition epoch_date : string := "Thu, 01 Jan 1970 00:00:00 GMT".
Definition date_2022 : string := "Sat, 01 Jan 2022 00:00:00 GMT".
Definition time_2022 : Z := 1640995200000.

Definition msPerDay : Z := 86400000.

(** Year, month (1 to 12) and day of the month of a day number counted
    from the first of January 1970, in the proleptic Gregorian calendar. *)
Definition civil_from_days (days : Z) : Z * Z * Z :=
  let z := days + 719468 in
  let era := z / 146097 in
  let doe := z - era * 146097 in
  let yoe := (doe - doe / 1460 + doe / 36524 - doe / 146096) / 365 in
  let doy := doe - (365 * yoe + yoe / 4 - yoe / 100) in
  let mp := (5 * doy + 2) / 153 in
  let d := doy - (153 * mp + 2) / 5 + 1 in
  let m := if mp <? 10 then mp + 3 else mp - 9 in
  (yoe + era * 400 + (if m <=? 2 then 1 else 0), m, d).

(** The day number of a date. *)
Definition days_from_civil (y m d : Z) : Z :=
  let y' := if m <=? 2 then y - 1 else y in
  let era := y' / 400 in
  let yoe := y' - era * 400 in
  let doy := (153 * (if 2 <? m then m - 3 else m + 9) + 2) / 5 + d - 1 in
  let doe := yoe * 365 + yoe / 4 - yoe / 100 + doy in
  era * 146097 + doe - 719468.

Definition two_digits (n : Z) : string :=
  let pad := if n <? 10 then "0"%string else EmptyString in
  (pad ++ toString n)%string.

Definition four_digits (n : Z) : string :=
  let pad := if n <? 10 then "000"%string else if n <? 100 then "00"%string
             else if n <? 1000 then "0"%string else EmptyString in
  (pad ++ toString n)%string.

(** [Date.prototype.toUTCString] for the years 0 to 9999: the day of the
    week, the day, the month, the year and the time of day, in GMT. *)
Definition utc_string (t : Z) : string :=
  let days := t / msPerDay in
  let ms := t mod msPerDay in
  let '(y, m, d) := civil_from_days days in
  let day := nth (Z.to_nat ((days + 4) mod 7)) day_names EmptyString in
  let month := nth (Z.to_nat (m - 1)) month_names EmptyString in
  let hh := two_digits (ms / 3600000) in
  let mm := two_digits (ms / 60000 mod 60) in
  let ss := two_digits (ms / 1000 mod 60) in
  (day ++ ", " ++ two_digits d ++ " " ++ month ++ " " ++ four_digits y ++ " "
   ++ hh ++ ":" ++ mm ++ ":" ++ ss ++ " GMT")%string.

(** The time value of a date in the preferred HTTP format, the one
    [utc_string] prints. As [Date.parse] does, the name of the day is
    read and not compared with the date. *)
Definition parse_imf_fixdate (s : string) : option Z :=
  if is_imf_fixdate s then
    match number_of (substring 5 2 s), index_of (substring 8 3 s) month_names,
          number_of (substring 12 4 s), number_of (substring 17 2 s),
          number_of (substring 20 2 s), number_of (substring 23 2 s) with
    | Some d, Some m, Some y, Some hh, Some mm, Some ss =>
        Some ((days_from_civil y (Z.of_nat m + 1) d) * msPerDay
              + hh * 3600000 + mm * 60000 + ss * 1000)
    | _, _, _, _, _, _ => None
    end
  else None.

(** A value that is no HTTP date and that the legacy parser of V8 behind
    [Date.parse] reads all the same: a quoted tag that ends in a number,
    which it takes for a month of the year 2001. *)
Definition legacy_date : string := (dquote ++ "abc 1" ++ dquote)%string.
Definition legacy_time : Z := 978307200000.

(** A date parser: the preferred HTTP format, and the legacy value above.
    [Date.parse] reads more forms than these. *)
Definition parse_date (s : string) : option Z :=
  match parse_imf_fixdate s with
  | Some t => Some t
  | None => if String.eqb s legacy_date then Some legacy_time else None
  end.

(** A range parser that knows the two headers of the scenarios, for
    objects of more than 999 bytes. *)
Definition parse_range (fileSize : Z) (header : string) : ParseResult :=
  if String.eqb header "bytes=900-999" then
    if 999 <? fileSize
    then ResultRanges "bytes" [{| start := 900; range_end := 999 |}]
    else ResultMinus1
  else if String.eqb header "bytes=0-1,500-501" then
    if 501 <? fileSize
    then ResultRanges "bytes" [{| start := 0; range_end := 1 |};
                               {| start := 500; range_end := 501 |}]
    else ResultMinus1
  else ResultMinus2.

#[export] Instance host : Platform :=
  {| Date_parse := parse_date;
     Date_parse_empty := eq_refl;
     toUTCString := utc_string;
     parseRange := parse_range |}.

(** The bytes a bucket sends for a range of a stored body. *)
Definition slice (range : option ParsedRange) (b : list byte) : list byte :=
  match range with
  | None => b
  | Some (OffsetLength offset length) =>
      firstn (Z.to_nat length) (skipn (Z.to_nat offset) b)
  | Some (Suffix suffix) => skipn (List.length b - Z.to_nat suffix) b
  end.

(** Whether a stored object passes an [onlyIf]. *)
Definition passes (o : R2Object) (c : R2Conditional) : bool :=
  match etagMatches c with Some t => String.eqb t (etag o) | None => true end
  && match etagDoesNotMatch c with Some t => negb (String.eqb t (etag o)) | None => true end
  && match uploadedBefore c with Some d => uploaded o <? d | None => true end
  && match uploadedAfter c with Some d => d <? uploaded o | None => true end.

(** A bucket that holds the objects of [store] by name and never fails. *)
Definition bucket_of (store : string -> option (R2Object * list byte)) : R2Bucket :=
  {| head := fun _ name => Fulfilled (option_map fst (store name));
     get := fun _ name range =>
       Fulfilled (option_map (fun ob => (fst ob, slice range (snd ob))) (store name));
     get_onlyIf := fun _ name onlyIf range =>
       Fulfilled
         (option_map
            (fun ob => if passes (fst ob) onlyIf
                       then FileObjectBody (fst ob) (slice range (snd ob))
                       else FileObject (fst ob))
            (store name)) |}.

(** The same bucket, rejecting its first [failures] calls. *)
Definition flaky (failures : nat) (b : R2Bucket) : R2Bucket :=
  {| head := fun n name =>
       if (n <? failures)%nat then Rejected (R2Error "unavailable") else head b n name;
     get := fun n name range =>
       if (n <? failures)%nat then Rejected (R2Error "unavailable") else get b n name range;
     get_onlyIf := fun n name onlyIf range =>
       if (n <? failures)%nat then Rejected (R2Error "unavailable")
       else get_onlyIf b n name onlyIf range |}.

Definition keyring (fileSize : Z) : R2Object :=
  {| key := keyringFilename;
     size := fileSize;
     etag := "abc";
     httpEtag := (dquote ++ "abc" ++ dquote)%string;
     uploaded := time_2022;
     httpMetadata := None |}.

Definition not_found_page : R2Object :=
  {| key := "404.html";
     size := 3;
     etag := "nf";
     httpEtag := (dquote ++ "nf" ++ dquote)%string;
     uploaded := time_2022;
     httpMetadata := None |}.

(** A store with the keyring, of [n] bytes. *)
Definition keyring_store (n : nat) (name : string) : option (R2Object * list byte) :=
  if String.eqb name keyringFilename
  then Some (keyring (Z.of_nat n), repeat x2a n)
  else None.

(** A store with the not-found page only. *)
Definition fallback_store (name : string) : option (R2Object * list byte) :=
  if String.eqb name "404.html"
  then Some (not_found_page, [x34; x30; x34])
  else None.

Definition env_of (bucket : R2Bucket) (retries : option Z) : Env :=
  {| R2_BUCKET := bucket;
     ALLOWED_ORIGINS := None;
     CACHE_CONTROL := Some "max-age=60";
     NOTFOUND_FILE := None;
     LOGGING := None;
     R2_RETRIES := retries;
     DATE_SUFFIX := Some 20240101 |}.

(** The same environment with a not-found fallback configured. *)
Definition with_fallback (env : Env) (name : string) : Env :=
  {| R2_BUCKET := R2_BUCKET env;
     ALLOWED_ORIGINS := ALLOWED_ORIGINS env;
     CACHE_CONTROL := CACHE_CONTROL env;
     NOTFOUND_FILE := Some name;
     LOGGING := LOGGING env;
     R2_RETRIES := R2_RETRIES env;
     DATE_SUFFIX := DATE_SUFFIX env |}.

(** A store with nothing in it. *)
Definition empty_store (name : string) : option (R2Object * list byte) := None.

Definition keyring_url : URL :=
  {| href := "https://example.org/secureblue-keyring.gpg";
     pathname := "/secureblue-keyring.gpg";
     searchParams := [] |}.

Definition get_keyring (h : Headers) : Request :=
  {| method := "GET"; url := keyring_url; headers := h |}.

Definition head_keyring (h : Headers) : Request :=
  {| method := "HEAD"; url := keyring_url; headers := h |}.

(** Nothing served, nothing cached, nothing observed. *)
Definition start : World := {| clock := 0; cache := []; trace := [] |}.

(** A bucket in which the keyring is there for the first call only, and the
    not-found page for every [get] without condition. *)
Definition vanishing : R2Bucket :=
  {| head := fun n name =>
       Fulfilled (if (n =? 0)%nat then option_map fst (keyring_store 1000 name) else None);
     get := fun _ name range =>
       Fulfilled (option_map (fun ob => (fst ob, slice range (snd ob))) (fallback_store name));
     get_onlyIf := fun _ _ _ _ => Fulfilled None |}.

(** A bucket in which the keyring of 1000 bytes is replaced by one of 50
    bytes after the first call. *)
Definition shrinking : R2Bucket :=
  {| head := fun n name =>
       Fulfilled (option_map fst (keyring_store (if (n =? 0)%nat then 1000 else 50) name));
     get := fun n name range =>
       Fulfilled (option_map (fun ob => (fst ob, slice range (snd ob)))
                    (keyring_store (if (n =? 0)%nat then 1000 else 50) name));
     get_onlyIf := fun _ _ _ _ => Fulfilled None |}.

(** A download whose [de] parameter holds a line feed (sent as [%0A]). *)
Definition line_feed_url : URL :=
  {| href := "https://example.org/download?de=a%0Ab&nvidia=main";
     pathname := "/download";
     searchParams := [("de", String "a" (String "010" "b")); ("nvidia", "main")] |}.

Definition download_url (path : string) : URL :=
  {| href := ("https://example.org" ++ path ++ "?de=gnome&nvidia=main")%string;
     pathname := path;
     searchParams := [("de", "gnome"); ("nvidia", "main")] |}.

Definition request_of (m : string) (u : URL) (h : Headers) : Request :=
  {| method := m; url := u; headers := h |}.

End Scenario.

(** * Properties *)

(** ** The monad *)

Lemma bind_Normal {A B} (m : M A) (f : A -> M B) w a w' :
  m w = (Normal a, w') -> bind m f w = f a w'.
Proof. unfold bind; intros ->; reflexivity. Qed.

Lemma bind_Return {A B} (m : M A) (f : A -> M B) w r w' :
  m w = (Return r, w') -> bind m f w = (Return r, w').
Proof. unfold bind; intros ->; reflexivity. Qed.

Lemma bind_Throw {A B} (m : M A) (f : A -> M B) w e w' :
  m w = (Throw e, w') -> bind m f w = (Throw e, w').
Proof. unfold bind; intros ->; reflexivity. Qed.

Lemma bind_ret {A B} (a : A) (f : A -> M B) w : bind (ret a) f w = f a w.
Proof. reflexivity. Qed.

Lemma call_Normal {A} (m : M A) g w a w' :
  m w = (Normal a, w') -> call m g w = (Normal a, w').
Proof. unfold call; intros ->; reflexivity. Qed.

Lemma call_Return {A} (m : M A) g w r w' :
  m w = (Return r, w') -> call m g w = (Normal (g r), w').
Proof. unfold call; intros ->; reflexivity. Qed.

(** ** The retry wrapper *)

Section Retry.
Variables (T : Type) (env : Env) (fn : M T).

Lemma when_emit_Normal b e w : fst (when b (emit e) w) = Normal tt.
Proof. destruct b; reflexivity. Qed.

Lemma when_emit_eq b e w : when b (emit e) w = (Normal tt, snd (when b (emit e) w)).
Proof. destruct b; reflexivity. Qed.

(** One iteration of the loop. *)
Lemma retry_loop_S fuel maxAttempts attempts w :
  retry_loop (S fuel) env fn maxAttempts attempts w =
  if (maxAttempts =? -1) || (attempts <=? maxAttempts) then
    match fn w with
    | (Throw err, w1) =>
        if attempts + 1 <=? maxAttempts then
          retry_loop fuel env fn maxAttempts (attempts + 1)
            (slept (backoff (attempts + 1)) (logged env (attempts + 1) err w1))
        else (Throw err, logged env (attempts + 1) err w1)
    | completed => completed
    end
  else (Throw ErrorUnreachable, w).
Proof.
  simpl.
  destruct ((maxAttempts =? -1) || (attempts <=? maxAttempts)); [|reflexivity].
  destruct (fn w) as [[a|r|err|] w1]; try reflexivity.
  unfold bind at 1; rewrite when_emit_eq.
  destruct (attempts + 1 <=? maxAttempts); reflexivity.
Qed.

(** An attempt that succeeds ends the loop with its value. *)
Lemma retry_loop_success fuel maxAttempts attempts w v w' :
  (maxAttempts =? -1) || (attempts <=? maxAttempts) = true ->
  fn w = (Normal v, w') ->
  retry_loop (S fuel) env fn maxAttempts attempts w = (Normal v, w').
Proof. intros Hc Hf; simpl; rewrite Hc, Hf; reflexivity. Qed.

(** A failure within the budget is logged, then the loop sleeps for the
    backoff of the failure's number and goes round again. *)
Lemma retry_loop_retry fuel maxAttempts attempts w err w' :
  (maxAttempts =? -1) || (attempts <=? maxAttempts) = true ->
  fn w = (Throw err, w') ->
  attempts + 1 <= maxAttempts ->
  retry_loop (S fuel) env fn maxAttempts attempts w =
  retry_loop fuel env fn maxAttempts (attempts + 1)
    (slept (backoff (attempts + 1)) (logged env (attempts + 1) err w')).
Proof.
  intros Hc Hf Hle; simpl; rewrite Hc, Hf.
  unfold bind at 1; rewrite when_emit_eq.
  apply Z.leb_le in Hle; rewrite Hle.
  reflexivity.
Qed.

(** A failure beyond the budget is logged and thrown again. *)
Lemma retry_loop_rethrow fuel maxAttempts attempts w err w' :
  (maxAttempts =? -1) || (attempts <=? maxAttempts) = true ->
  fn w = (Throw err, w') ->
  maxAttempts < attempts + 1 ->
  retry_loop (S fuel) env fn maxAttempts attempts w =
  (Throw err, logged env (attempts + 1) err w').
Proof.
  intros Hc Hf Hlt; simpl; rewrite Hc, Hf.
  unfold bind at 1; rewrite when_emit_eq.
  apply Z.leb_gt in Hlt; rewrite Hlt.
  reflexivity.
Qed.

(** With a budget of at least [-1] the first attempt is made, and the
    wrapper is transparent when it succeeds. *)
Lemma retryAsync_success w v w' :
  -1 <= maxAttempts_of env ->
  fn w = (Normal v, w') ->
  retryAsync env fn w = (Normal v, w').
Proof.
  intros Hb Hf; unfold retryAsync, retry_fuel.
  apply retry_loop_success; [|exact Hf].
  destruct (Z.eqb_spec (maxAttempts_of env) (-1)); [reflexivity|].
  simpl; apply Z.leb_le; lia.
Qed.

(** A value of the wrapper is the value of some attempt. *)
Lemma retry_loop_value fuel maxAttempts : forall attempts w v w',
  retry_loop fuel env fn maxAttempts attempts w = (Normal v, w') ->
  exists w0, fn w0 = (Normal v, w').
Proof.
  induction fuel as [|fuel IH]; intros attempts w v w' Hr; simpl in Hr.
  - discriminate.
  - destruct ((maxAttempts =? -1) || (attempts <=? maxAttempts)); [|discriminate].
    destruct (fn w) as [[a|r|e|] w1] eqn:Hf; try discriminate.
    + exists w; congruence.
    + unfold bind at 1 in Hr; rewrite when_emit_eq in Hr.
      destruct (attempts + 1 <=? maxAttempts); [|discriminate].
      unfold bind at 1 in Hr; simpl in Hr.
      eapply IH; exact Hr.
Qed.

Lemma retryAsync_value w v w' :
  retryAsync env fn w = (Normal v, w') -> exists w0, fn w0 = (Normal v, w').
Proof. apply retry_loop_value. Qed.

(** The loop never runs out of the fuel [retryAsync] gives it: it goes
    round again only while [attempts <= maxAttempts]. *)
Lemma retry_loop_fuel fuel maxAttempts : forall attempts w,
  (forall w0, fst (fn w0) <> OutOfFuel) ->
  (Z.to_nat (maxAttempts - attempts) < fuel)%nat ->
  fst (retry_loop fuel env fn maxAttempts attempts w) <> OutOfFuel.
Proof.
  induction fuel as [|fuel IH]; intros attempts w Hfn Hfuel; [lia|]; simpl.
  destruct ((maxAttempts =? -1) || (attempts <=? maxAttempts)); [|discriminate].
  specialize (Hfn w) as Hw.
  destruct (fn w) as [[a|r|e|] w1] eqn:Hf; simpl in *; try discriminate; try congruence.
  unfold bind at 1; rewrite when_emit_eq.
  destruct (Z.leb_spec (attempts + 1) maxAttempts); [|discriminate].
  unfold bind at 1; simpl.
  apply IH; [assumption|lia].
Qed.

Lemma retryAsync_terminates w :
  (forall w0, fst (fn w0) <> OutOfFuel) ->
  fst (retryAsync env fn w) <> OutOfFuel.
Proof.
  intros Hfn; unfold retryAsync, retry_fuel.
  apply retry_loop_fuel; [assumption|].
  rewrite Z.sub_0_r; lia.
Qed.

End Retry.

(** ** Bucket calls under the wrapper *)

Lemma r2_head_call env name : bucket_call (r2_head env name) (R2Head name).
Proof.
  intros w; unfold r2_head.
  destruct (head (R2_BUCKET env) (clock w) name); simpl; eauto.
Qed.

Lemma r2_get_call env name range :
  bucket_call (r2_get env name range) (R2Get name None range).
Proof.
  intros w; unfold r2_get.
  destruct (get (R2_BUCKET env) (clock w) name range); simpl; eauto.
Qed.

Lemma r2_get_onlyIf_call env name onlyIf range :
  bucket_call (r2_get_onlyIf env name onlyIf range) (R2Get name (Some onlyIf) range).
Proof.
  intros w; unfold r2_get_onlyIf.
  destruct (get_onlyIf (R2_BUCKET env) (clock w) name onlyIf range); simpl; eauto.
Qed.

Lemma bucket_calls_app t1 t2 :
  bucket_calls (t1 ++ t2) = bucket_calls t1 ++ bucket_calls t2.
Proof. apply filter_app. Qed.

Lemma logged_clock env n err w : clock (logged env n err w) = clock w.
Proof. unfold logged, when; destruct (logging env); reflexivity. Qed.

Lemma logged_cache env n err w : cache (logged env n err w) = cache w.
Proof. unfold logged, when; destruct (logging env); reflexivity. Qed.

Lemma logged_trace env n err w :
  exists evs, trace (logged env n err w) = trace w ++ evs /\ bucket_calls evs = [] /\
              delays evs = [].
Proof.
  unfold logged, when; destruct (logging env); simpl.
  - eexists; split; [reflexivity|split; reflexivity].
  - exists []; rewrite app_nil_r; repeat split.
Qed.

Section RetryCalls.
Variables (T : Type) (env : Env) (fn : M T) (e : Event).
Hypothesis fn_call : bucket_call fn e.
Hypothesis e_call : is_bucket_call e = true.

(** Whatever the wrapper does, the bucket only sees the call [e], once
    per attempt; the cache is untouched; a value comes from an attempt. *)
Lemma retry_loop_calls fuel maxAttempts : forall attempts w c w',
  retry_loop fuel env fn maxAttempts attempts w = (c, w') ->
  cache w' = cache w /\
  (clock w <= clock w')%nat /\
  (forall v, c = Normal v -> (clock w < clock w')%nat) /\
  exists evs, trace w' = trace w ++ evs /\
              bucket_calls evs = repeat e (clock w' - clock w).
Proof.
  assert (Hnone : forall w (c : Completion T) w', (c, w) = (c, w') ->
            (forall v, c <> Normal v) ->
            cache w' = cache w /\ (clock w <= clock w')%nat /\
            (forall v, c = Normal v -> (clock w < clock w')%nat) /\
            exists evs, trace w' = trace w ++ evs /\
                        bucket_calls evs = repeat e (clock w' - clock w)).
  { intros w c w' E Hc; injection E as <-.
    repeat split; [lia|intros v Ev; destruct (Hc v Ev)|].
    exists []; rewrite app_nil_r, Nat.sub_diag; split; reflexivity. }
  assert (Hone : forall w (c : Completion T) w', (c, served e w) = (c, w') ->
            cache w' = cache w /\ (clock w <= clock w')%nat /\
            (forall v, c = Normal v -> (clock w < clock w')%nat) /\
            exists evs, trace w' = trace w ++ evs /\
                        bucket_calls evs = repeat e (clock w' - clock w)).
  { intros w c w' E; injection E as <-; unfold served; cbn [clock cache trace].
    repeat split; [lia|intros; lia|].
    exists [e]; split; [reflexivity|].
    replace (S (clock w) - clock w)%nat with 1%nat by lia.
    unfold bucket_calls; simpl; rewrite e_call; reflexivity. }
  induction fuel as [|fuel IH]; intros attempts w c w' Hr.
  - simpl in Hr; injection Hr as <- <-.
    apply Hnone; [reflexivity|discriminate].
  - rewrite retry_loop_S in Hr.
    destruct ((maxAttempts =? -1) || (attempts <=? maxAttempts)).
    2:{ injection Hr as <- <-; apply Hnone; [reflexivity|discriminate]. }
    destruct (fn_call w) as [Hw _].
    destruct (fn w) as [c1 w1] eqn:Hf; simpl in Hw; subst w1.
    destruct c1 as [a|r|err|];
      try (injection Hr as <- <-; apply Hone; reflexivity).
    destruct (logged_trace env (attempts + 1) err (served e w)) as (l & Hl & Hlb & _).
    pose proof (logged_clock env (attempts + 1) err (served e w)) as Hlc.
    pose proof (logged_cache env (attempts + 1) err (served e w)) as Hlk.
    destruct (attempts + 1 <=? maxAttempts).
    + apply IH in Hr; destruct Hr as (Hk & Hle & Hv & evs & Ht & Hb).
      unfold slept, sleep, emit in Hk, Hle, Hv, Ht, Hb;
        cbn [snd clock cache trace] in Hk, Hle, Hv, Ht, Hb.
      rewrite Hlk in Hk; rewrite Hlc in Hle, Hv, Hb; rewrite Hl in Ht.
      unfold served in *; cbn [clock cache trace] in *.
      repeat split; [assumption|lia|intros v Ev; specialize (Hv v Ev); lia|].
      exists ([e] ++ l ++ [SetTimeout (backoff (attempts + 1))] ++ evs); split.
      * rewrite Ht; repeat rewrite <- app_assoc; reflexivity.
      * repeat rewrite bucket_calls_app; rewrite Hlb, Hb.
        unfold bucket_calls at 1 2; simpl; rewrite e_call; simpl.
        replace (clock w' - clock w)%nat with (S (clock w' - S (clock w)))%nat by lia.
        reflexivity.
    + injection Hr as <- <-.
      rewrite Hlk, Hlc, Hl; unfold served; cbn [clock cache trace].
      repeat split; [lia|discriminate|].
      exists ([e] ++ l); split.
      * rewrite <- app_assoc; reflexivity.
      * rewrite bucket_calls_app, Hlb, app_nil_r.
        replace (S (clock w) - clock w)%nat with 1%nat by lia.
        unfold bucket_calls; simpl; rewrite e_call; reflexivity.
Qed.

Lemma retryAsync_calls w c w' :
  retryAsync env fn w = (c, w') ->
  cache w' = cache w /\
  (clock w <= clock w')%nat /\
  (forall v, c = Normal v -> (clock w < clock w')%nat) /\
  exists evs, trace w' = trace w ++ evs /\
              bucket_calls evs = repeat e (clock w' - clock w).
Proof. apply retry_loop_calls. Qed.

(** The wrapper ends with a value or with an error. *)
Lemma retry_loop_outcome fuel maxAttempts : forall attempts w c w',
  retry_loop fuel env fn maxAttempts attempts w = (c, w') ->
  (exists v, c = Normal v) \/ (exists err, c = Throw err) \/ c = OutOfFuel.
Proof.
  induction fuel as [|fuel IH]; intros attempts w c w' Hr.
  - simpl in Hr; injection Hr as <- _; right; right; reflexivity.
  - rewrite retry_loop_S in Hr.
    destruct ((maxAttempts =? -1) || (attempts <=? maxAttempts)).
    2:{ injection Hr as <- _; right; left; eexists; reflexivity. }
    destruct (fn_call w) as [_ Hout].
    destruct (fn w) as [c1 w1]; cbn [fst] in Hout.
    destruct c1 as [a|r|err|].
    + injection Hr as <- _; left; eexists; reflexivity.
    + destruct Hout as [[v Hv]|[err Herr]]; discriminate.
    + destruct (attempts + 1 <=? maxAttempts).
      * exact (IH _ _ _ _ Hr).
      * injection Hr as <- _; right; left; eexists; reflexivity.
    + destruct Hout as [[v Hv]|[err Herr]]; discriminate.
Qed.

Lemma retryAsync_outcome w c w' :
  retryAsync env fn w = (c, w') ->
  (exists v, c = Normal v) \/ (exists err, c = Throw err).
Proof.
  intros Hr.
  destruct (retry_loop_outcome _ _ _ _ _ _ Hr) as [Hv|[He|Hf]];
    [left; exact Hv|right; exact He|].
  exfalso; apply (retryAsync_terminates T env fn w).
  - intros w0; destruct (fn_call w0) as [_ [[v Hv]|[err Herr]]]; congruence.
  - rewrite Hr; exact Hf.
Qed.

(** With a budget of at least [-1] the wrapper makes at least one attempt,
    however it ends. *)
Lemma retryAsync_attempts w c w' :
  -1 <= maxAttempts_of env ->
  retryAsync env fn w = (c, w') ->
  (clock w < clock w')%nat.
Proof.
  intros Hb Hr; unfold retryAsync, retry_fuel in Hr.
  rewrite retry_loop_S in Hr.
  replace ((maxAttempts_of env =? -1) || (0 <=? maxAttempts_of env)) with true in Hr.
  2:{ symmetry; destruct (Z.eqb_spec (maxAttempts_of env) (-1)); [reflexivity|].
      simpl; apply Z.leb_le; lia. }
  destruct (fn_call w) as [Hw _].
  destruct (fn w) as [c1 w1] eqn:Hf; simpl in Hw; subst w1.
  destruct c1 as [a|r|err|];
    try (injection Hr as <- <-; unfold served; cbn [clock]; lia).
  destruct (0 + 1 <=? maxAttempts_of env).
  - apply retry_loop_calls in Hr; destruct Hr as (_ & Hle & _).
    unfold slept, sleep, emit in Hle; cbn [snd clock] in Hle.
    rewrite logged_clock in Hle; unfold served in Hle; cbn [clock] in Hle; lia.
  - injection Hr as <- <-.
    rewrite logged_clock; unfold served; cbn [clock]; lia.
Qed.

End RetryCalls.

(** ** From [fetch] to the stages *)

Section Stages.
Context `{Platform}.
Variables (request : Request) (env : Env).

Lemma cache_stage_eq w :
  cache_stage request env w = (Normal (cached request env w), snd (cache_stage request env w)).
Proof. unfold cache_stage, cached; destruct (isCachingEnabled env); reflexivity. Qed.

Lemma log_miss_eq w : log_miss request env w = (Normal tt, snd (log_miss request env w)).
Proof. apply when_emit_eq. Qed.

Lemma miss_world_eq w :
  miss_world request env w = snd (log_miss request env (snd (cache_stage request env w))).
Proof.
  unfold miss_world, bind; rewrite cache_stage_eq; cbn [snd].
  rewrite log_miss_eq; reflexivity.
Qed.

(** On a miss, [fetch] is the pipeline. *)
Lemma fetch_miss w :
  is_miss request env w = true ->
  fetch request env w = call (pipeline request env) (fun r => r) (miss_world request env w).
Proof.
  unfold is_miss; intros Hm.
  apply andb_prop in Hm; destruct Hm as [Hm Hc].
  apply andb_prop in Hm; destruct Hm as [Ha Ho].
  apply negb_true_iff in Ho.
  unfold fetch, call, fetch_body; rewrite Ha, Ho; cbn [negb].
  unfold bind at 1; rewrite cache_stage_eq, miss_world_eq.
  destruct (cached request env w) as [r|]; cbn [cache_miss] in Hc.
  - rewrite Hc; unfold bind at 1; rewrite log_miss_eq; reflexivity.
  - unfold bind at 1; rewrite log_miss_eq; reflexivity.
Qed.

Lemma fetch_pipeline w key :
  enters_pipeline request env w key ->
  fetch request env w =
  call (fr <- resolve request env key ;; assemble request env key (fst fr) (snd fr))
       (fun r => r) (miss_world request env w).
Proof.
  intros [Hm Hk]; rewrite (fetch_miss _ Hm).
  unfold call, pipeline, resolve_key; rewrite Hk; reflexivity.
Qed.

(** A request that reaches the assembly is answered by it. *)
Lemma fetch_assemble w key file range w1 :
  reaches_assembly request env w key file range w1 ->
  fetch request env w = call (assemble request env key file range) (fun r => r) w1.
Proof.
  intros [He Hr]; rewrite (fetch_pipeline _ _ He).
  unfold call, bind at 1; rewrite Hr; reflexivity.
Qed.

(** A [return] of the resolution is the answer of [fetch]. *)
Lemma fetch_resolve_Return w key r w1 :
  enters_pipeline request env w key ->
  resolve request env key (miss_world request env w) = (Return r, w1) ->
  fetch request env w = (Normal r, w1).
Proof.
  intros He Hr; rewrite (fetch_pipeline _ _ He).
  unfold call, bind at 1; rewrite Hr; reflexivity.
Qed.

(** An error of the resolution is the error of [fetch]. *)
Lemma fetch_resolve_Throw w key e w1 :
  enters_pipeline request env w key ->
  resolve request env key (miss_world request env w) = (Throw e, w1) ->
  fetch request env w = (Throw e, w1).
Proof.
  intros He Hr; rewrite (fetch_pipeline _ _ He).
  unfold call, bind at 1; rewrite Hr; reflexivity.
Qed.

(** After the range stage, the resolution is the three fetch stages. *)
Lemma resolve_preconditions w key file range w1 :
  reaches_preconditions request env w key file range w1 ->
  resolve request env key (miss_world request env w) =
  (f1 <- if_match_stage request env key range file ;;
   f2 <- if_none_match_stage request env key range f1 ;;
   f3 <- final_fetch request env key range f2 ;;
   ret (f3, range)) w1.
Proof.
  intros (_ & range0 & Hr & ->).
  unfold resolve, bind at 1; rewrite Hr; reflexivity.
Qed.

End Stages.

(** ** The 412 stage *)

(** C1, as stated, fails: against a keyring whose entity tag is [abc], a GET
    with [If-Match: xyz] makes the bucket answer the metadata without a
    body, and the 412 response carries the text [Precondition Failed], not
    an empty body. *)
Lemma if_match_mismatch_body_not_empty :
  let request := Scenario.get_keyring [("if-match", "xyz")] in
  let env := Scenario.env_of (Scenario.bucket_of (Scenario.keyring_store 10)) None in
  get_onlyIf (R2_BUCKET env) 0 keyringFilename
    (@if_match_condition Scenario.host request) None
  = Fulfilled (Some (FileObject (Scenario.keyring 10))) /\
  exists r w',
    @fetch Scenario.host request env Scenario.start = (Normal r, w') /\
    status r = 412 /\
    body r = Some (BodyText "Precondition Failed") /\
    body r <> None.
Proof.
  split; [reflexivity|].
  eexists; eexists; split; [vm_compute; reflexivity|].
  repeat split; discriminate.
Qed.

(** C1, amended: a GET or HEAD that reaches the precondition stages with a
    non-empty [If-Match] tag (trimmed, quotes stripped) or an
    [If-Unmodified-Since] date that parses to a non-zero time value, and
    whose [If-Unmodified-Since] does not parse to the time value 0, makes
    the engine call [get] through the retry wrapper with [onlyIf] holding
    that tag and the parsed date (no date when the header is absent or does
    not parse) and with the effective range. However the call ends, the
    bucket has seen this conditional [get] once per attempt, at least once
    when the budget is not below [-1], and the request goes on from the
    world the call left. The call ends with an answer or with an error:
    when it answers metadata without a body, the
    response of [fetch] is status 412 with the text [Precondition Failed]
    and nothing is asked of the bucket after it; when the wrapper gives up
    with an error, [fetch] throws it; any other answer is the file the
    later stages start with. *)
Theorem if_match_stage_412 `{Platform} (request : Request) (env : Env)
  (w : World) (key : string) (file : option R2File) (range : option ParsedRange)
  (w1 : World) (c : Completion (option R2File)) (w2 : World) :
  reaches_preconditions request env w key file range w1 ->
  (truthy (ifMatch request) = true \/
   exists d, ifUnmodifiedSince request = Some d /\ d <> 0) ->
  ifUnmodifiedSince request <> Some 0 ->
  retryAsync env (r2_get_onlyIf env key (if_match_condition request) range) w1
    = (c, w2) ->
  if_match_condition request
    = {| etagMatches := getHeaderEtag (headers_get (headers request) "if-match");
         etagDoesNotMatch := None;
         uploadedBefore := ifUnmodifiedSince request;
         uploadedAfter := None |} /\
  (exists evs,
     trace w2 = trace w1 ++ evs /\
     bucket_calls evs =
       repeat (R2Get key (Some (if_match_condition request)) range)
              (clock w2 - clock w1)) /\
  (-1 <= maxAttempts_of env -> (clock w1 < clock w2)%nat) /\
  ((exists f1, c = Normal f1) \/ (exists e, c = Throw e)) /\
  (forall o, c = Normal (Some (FileObject o)) ->
     fetch request env w = (Normal (text_response "Precondition Failed" 412), w2)) /\
  (forall e, c = Throw e -> fetch request env w = (Throw e, w2)) /\
  (forall f1, c = Normal f1 -> (forall o, f1 <> Some (FileObject o)) ->
     resolve request env key (miss_world request env w) =
     (f2 <- if_none_match_stage request env key range f1 ;;
      f3 <- final_fetch request env key range f2 ;;
      ret (f3, range)) w2).
Proof.
  intros Hreach Hhdr Hnz Hcall.
  assert (Hguard : truthy (ifMatch request)
                   || truthy_number (ifUnmodifiedSince request) = true).
  { destruct Hhdr as [-> | (d & Hd & Hne)]; [reflexivity|].
    rewrite Hd; unfold truthy_number.
    destruct (Z.eqb_spec d 0); [contradiction|apply orb_true_r]. }
  assert (Hstage : if_match_stage request env key range file w1 =
                   match c with
                   | Normal (Some (FileObject _)) =>
                       (Return (text_response "Precondition Failed" 412), w2)
                   | Normal f1 => (Normal f1, w2)
                   | Return r => (Return r, w2)
                   | Throw e => (Throw e, w2)
                   | OutOfFuel => (OutOfFuel, w2)
                   end).
  { unfold if_match_stage; rewrite Hguard; unfold bind at 1; rewrite Hcall.
    destruct c as [[[o|o b]|]|r|e|]; reflexivity. }
  pose proof (resolve_preconditions _ _ _ _ _ _ _ Hreach) as Hres.
  unfold bind at 1 in Hres; rewrite Hstage in Hres.
  split; [|split; [|split; [|split; [|split; [|split]]]]].
  - unfold if_match_condition; f_equal.
    destruct (ifUnmodifiedSince request) as [d|]; [|reflexivity].
    unfold truthy_number; destruct (Z.eqb_spec d 0); [subst; congruence|reflexivity].
  - destruct (retryAsync_calls _ _ _ _ (r2_get_onlyIf_call env key _ range) eq_refl _ _ _ Hcall)
      as (_ & _ & _ & evs & Ht & Hb).
    exists evs; split; assumption.
  - intros Hbudget.
    exact (retryAsync_attempts _ _ _ _ (r2_get_onlyIf_call env key _ range) eq_refl
             _ _ _ Hbudget Hcall).
  - exact (retryAsync_outcome _ _ _ _ (r2_get_onlyIf_call env key _ range) _ _ _ Hcall).
  - intros o ->.
    apply fetch_resolve_Return with (key := key); [exact (proj1 Hreach)|exact Hres].
  - intros e ->.
    apply fetch_resolve_Throw with (key := key); [exact (proj1 Hreach)|exact Hres].
  - intros f1 -> Hf1; rewrite Hres.
    destruct f1 as [[o|o b]|]; [destruct (Hf1 o eq_refl)|reflexivity|reflexivity].
Qed.

Lemma if_match_stage_412_witness :
  let request := Scenario.get_keyring [("if-match", "xyz")] in
  let env := Scenario.env_of (Scenario.bucket_of (Scenario.keyring_store 10)) None in
  let w1 := @miss_world request env Scenario.start in
  let w2 := snd (retryAsync env
                   (r2_get_onlyIf env keyringFilename
                      (@if_match_condition Scenario.host request) None) w1) in
  @fetch Scenario.host request env Scenario.start
    = (Normal (text_response "Precondition Failed" 412), w2) /\
  bucket_calls (trace w2)
    = [R2Get keyringFilename
         (Some {| etagMatches := Some "xyz"; etagDoesNotMatch := None;
                  uploadedBefore := None; uploadedAfter := None |}) None].
Proof.
  intros request env w1 w2.
  assert (Hreach : @reaches_preconditions Scenario.host request env Scenario.start
                     keyringFilename None None w1).
  { split; [split; reflexivity|].
    exists None; split; reflexivity. }
  assert (Hnz : @ifUnmodifiedSince Scenario.host request <> Some 0).
  { vm_compute; discriminate. }
  destruct (@if_match_stage_412 Scenario.host request env Scenario.start
              keyringFilename None None w1
              (Normal (Some (FileObject (Scenario.keyring 10)))) w2
              Hreach (or_introl eq_refl) Hnz eq_refl)
    as (_ & _ & _ & _ & Hf & _ & _).
  split; [exact (Hf _ eq_refl)|reflexivity].
Defined.

(** ** The 304 stage *)

Section NotModified.
Context `{Platform}.
Variables (request : Request) (env : Env).

(** The stage, when one of its headers is usable: one conditional [get]
    through the wrapper, and a 304 when it answers metadata only. *)
Lemma if_none_match_stage_eq key range file w :
  truthy (ifNoneMatch request) || truthy_number (ifModifiedSince request) = true ->
  if_none_match_stage request env key range file w =
  (f <- retryAsync env (r2_get_onlyIf env key (if_none_match_condition request) range) ;;
   match f with
   | Some (FileObject _) =>
       return_ {| body := None; status := 304; response_headers := [] |}
   | _ => ret f
   end) w.
Proof.
  intros Hhdr; unfold if_none_match_stage, if_none_match_condition; rewrite Hhdr.
  destruct (truthy (ifNoneMatch request)); [reflexivity|].
  simpl in Hhdr; rewrite Hhdr; reflexivity.
Qed.

(** When both headers are usable the date is left out of the call. *)
Lemma if_none_match_overrides :
  truthy (ifNoneMatch request) = true ->
  etagDoesNotMatch (if_none_match_condition request)
    = getHeaderEtag (headers_get (headers request) "if-none-match") /\
  uploadedAfter (if_none_match_condition request) = None /\
  etagMatches (if_none_match_condition request) = None /\
  uploadedBefore (if_none_match_condition request) = None.
Proof.
  intros Ht; unfold if_none_match_condition; rewrite Ht.
  repeat split.
Qed.

(** A request that passes the 412 stage with a usable [If-None-Match] or
    [If-Modified-Since] and whose conditional [get] answers metadata
    without a body is answered 304, with no body and no header, and
    nothing is asked of the bucket afterwards. *)
Lemma if_none_match_stage_304 w key file range w1 f1 w2 o w3 :
  reaches_preconditions request env w key file range w1 ->
  if_match_stage request env key range file w1 = (Normal f1, w2) ->
  truthy (ifNoneMatch request) || truthy_number (ifModifiedSince request) = true ->
  retryAsync env (r2_get_onlyIf env key (if_none_match_condition request) range) w2
    = (Normal (Some (FileObject o)), w3) ->
  fetch request env w
    = (Normal {| body := None; status := 304; response_headers := [] |}, w3) /\
  (clock w2 < clock w3)%nat /\
  exists evs,
    trace w3 = trace w2 ++ evs /\
    bucket_calls evs =
      repeat (R2Get key (Some (if_none_match_condition request)) range) (clock w3 - clock w2).
Proof.
  intros Hreach Hpre Hhdr Hcall; split.
  - apply fetch_resolve_Return with (key := key); [exact (proj1 Hreach)|].
    rewrite (resolve_preconditions _ _ _ _ _ _ _ Hreach).
    unfold bind at 1; rewrite Hpre.
    unfold bind at 1; rewrite (if_none_match_stage_eq _ _ _ _ Hhdr).
    unfold bind at 1; rewrite Hcall; reflexivity.
  - destruct (retryAsync_calls _ _ _ _ (r2_get_onlyIf_call env key _ range) eq_refl _ _ _ Hcall)
      as (_ & _ & Hv & evs & Ht & Hb).
    split; [eapply Hv; reflexivity|].
    exists evs; split; assumption.
Qed.

End NotModified.

(** ** What the bucket calls answer *)

Lemma r2_get_has_body env name range w f w' :
  r2_get env name range w = (Normal (Some f), w') -> hasBody f = true.
Proof.
  unfold r2_get.
  destruct (get (R2_BUCKET env) (clock w) name range) as [[[o b]|]|e]; simpl;
    intros E; inversion E; reflexivity.
Qed.

Lemma r2_head_no_body env name w f w' :
  r2_head env name w = (Normal (Some f), w') -> hasBody f = false.
Proof.
  unfold r2_head.
  destruct (head (R2_BUCKET env) (clock w) name) as [[o|]|e]; simpl;
    intros E; inversion E; reflexivity.
Qed.

Lemma retryAsync_r2_get_has_body env name range w f w' :
  retryAsync env (r2_get env name range) w = (Normal (Some f), w') -> hasBody f = true.
Proof.
  intros Hr; apply retryAsync_value in Hr; destruct Hr as [w0 Hr].
  eapply r2_get_has_body; exact Hr.
Qed.

Lemma retryAsync_r2_head_no_body env name w f w' :
  retryAsync env (r2_head env name) w = (Normal (Some f), w') -> hasBody f = false.
Proof.
  intros Hr; apply retryAsync_value in Hr; destruct Hr as [w0 Hr].
  eapply r2_head_no_body; exact Hr.
Qed.

(** ** Stages that a request without their headers skips *)

Section Skips.
Context `{Platform}.
Variables (request : Request) (env : Env).

Lemma ifMatch_absent :
  headers_get (headers request) "if-match" = None -> truthy (ifMatch request) = false.
Proof. unfold ifMatch; intros ->; reflexivity. Qed.

Lemma ifNoneMatch_absent :
  headers_get (headers request) "if-none-match" = None ->
  truthy (ifNoneMatch request) = false.
Proof. unfold ifNoneMatch; intros ->; reflexivity. Qed.

Lemma ifModifiedSince_absent :
  headers_get (headers request) "if-modified-since" = None ->
  truthy_number (ifModifiedSince request) = false.
Proof.
  unfold ifModifiedSince; intros ->; simpl; rewrite Date_parse_empty; reflexivity.
Qed.

Lemma ifUnmodifiedSince_absent :
  headers_get (headers request) "if-unmodified-since" = None ->
  truthy_number (ifUnmodifiedSince request) = false.
Proof.
  unfold ifUnmodifiedSince; intros ->; simpl; rewrite Date_parse_empty; reflexivity.
Qed.

Lemma if_match_stage_skip key range file :
  truthy (ifMatch request) || truthy_number (ifUnmodifiedSince request) = false ->
  if_match_stage request env key range file = ret file.
Proof. unfold if_match_stage; intros ->; reflexivity. Qed.

Lemma if_none_match_stage_skip key range file :
  truthy (ifNoneMatch request) || truthy_number (ifModifiedSince request) = false ->
  if_none_match_stage request env key range file = ret file.
Proof. unfold if_none_match_stage; intros ->; reflexivity. Qed.

Lemma if_range_absent file range :
  ifRange request = None -> if_range_stage request file range = range.
Proof. unfold if_range_stage; intros ->; destruct range; reflexivity. Qed.

(** The assembly of a file that was found. *)
Lemma assemble_found key f range w :
  assemble request env key (Some f) range w =
  (Normal (build_response env key f range false),
   stored request env (build_response env key f range false) range false w).
Proof.
  unfold assemble, stored, bind at 1, not_found_stage, ret; cbn [fst snd].
  unfold bind, when.
  destruct (cacheable request env range false); reflexivity.
Qed.

(** The range stage of a GET whose [Range] header the parser reads as one
    range of bytes. *)
Lemma range_stage_single key w rangeHeader f w1 r :
  method request = "GET" ->
  headers_get (headers request) "range" = Some rangeHeader ->
  rangeHeader <> EmptyString ->
  retryAsync env (r2_head env key) w = (Normal (Some f), w1) ->
  parseRange (size (object_of f)) rangeHeader = ResultRanges "bytes" [r] ->
  range_stage request env key w
    = (Normal (Some f, Some (encode_range (size (object_of f)) r)), w1).
Proof.
  intros Hm Hh Hne Hhead Hparse.
  unfold range_stage; rewrite Hm, Hh; cbn [String.eqb Ascii.eqb Bool.eqb].
  destruct rangeHeader as [|c s]; [congruence|].
  unfold bind at 1; rewrite Hhead, Hparse; reflexivity.
Qed.

End Skips.

(** ** The range negotiator *)

Lemma encode_range_suffix fileSize r :
  range_end r + 1 = fileSize -> encode_range fileSize r = Suffix (fileSize - start r).
Proof.
  intros E; unfold encode_range.
  destruct (Z.eqb_spec fileSize (range_end r + 1)); [reflexivity|lia].
Qed.

Lemma encode_range_offset fileSize r :
  range_end r + 1 <> fileSize ->
  encode_range fileSize r = OffsetLength (start r) (range_end r - start r + 1).
Proof.
  intros E; unfold encode_range.
  destruct (Z.eqb_spec fileSize (range_end r + 1)); [lia|reflexivity].
Qed.

Lemma hasBody_true f : hasBody f = true -> exists o b, f = FileObjectBody o b.
Proof. destruct f; [discriminate|eauto]. Qed.

Lemma hasBody_false f : hasBody f = false -> exists o, f = FileObject o.
Proof. destruct f; [eauto|discriminate]. Qed.

(** C3: a GET whose [Range] header the parser reads as a single range of
    bytes [start, end] of an object of [size] bytes gets the effective range
    [suffix: size - start] when [end + 1 = size], and
    [offset: start, length: end - start + 1] otherwise. In particular, when
    the parser reads [bytes=900-999] against 1000 bytes as the range
    [900, 999], a GET with that header alone, for an object of 1000 bytes,
    has the effective range [suffix: 100] and is answered with status 206,
    [content-range: bytes 900-999/1000] and [content-length: 100]. *)
Theorem single_range_is_encoded `{Platform} (request : Request) (env : Env) :
  (forall key w rangeHeader f w1 r,
     method request = "GET" ->
     headers_get (headers request) "range" = Some rangeHeader ->
     rangeHeader <> EmptyString ->
     retryAsync env (r2_head env key) w = (Normal (Some f), w1) ->
     parseRange (size (object_of f)) rangeHeader = ResultRanges "bytes" [r] ->
     exists range,
       range_stage request env key w = (Normal (Some f, Some range), w1) /\
       (range_end r + 1 = size (object_of f) ->
        range = Suffix (size (object_of f) - start r)) /\
       (range_end r + 1 <> size (object_of f) ->
        range = OffsetLength (start r) (range_end r - start r + 1))) /\
  (forall key w f w1 f2 w2,
     parseRange 1000 "bytes=900-999"
       = ResultRanges "bytes" [{| start := 900; range_end := 999 |}] ->
     method request = "GET" ->
     headers_get (headers request) "range" = Some "bytes=900-999" ->
     headers_get (headers request) "if-range" = None ->
     headers_get (headers request) "if-match" = None ->
     headers_get (headers request) "if-unmodified-since" = None ->
     headers_get (headers request) "if-none-match" = None ->
     headers_get (headers request) "if-modified-since" = None ->
     enters_pipeline request env w key ->
     retryAsync env (r2_head env key) (miss_world request env w) = (Normal (Some f), w1) ->
     size (object_of f) = 1000 ->
     retryAsync env (r2_get env key (Some (Suffix 100))) w1 = (Normal (Some f2), w2) ->
     size (object_of f2) = 1000 ->
     reaches_assembly request env w key (Some f2) (Some (Suffix 100)) w2 /\
     exists response w',
       fetch request env w = (Normal response, w') /\
       status response = 206 /\
       headers_get (response_headers response) "content-range"
         = Some "bytes 900-999/1000" /\
       headers_get (response_headers response) "content-length" = Some "100").
Proof.
  split.
  - intros key w rangeHeader f w1 r Hm Hh Hne Hhead Hparse.
    exists (encode_range (size (object_of f)) r); split; [|split].
    + apply range_stage_single with (rangeHeader := rangeHeader); assumption.
    + apply encode_range_suffix.
    + apply encode_range_offset.
  - intros key w f w1 f2 w2 Hparse Hm Hh Hir Him Hius Hinm Hims He Hhead Hsz Hget Hsz2.
    assert (Hrs : range_stage request env key (miss_world request env w)
                  = (Normal (Some f, Some (Suffix 100)), w1)).
    { rewrite (range_stage_single request env key _ "bytes=900-999" f w1
                 {| start := 900; range_end := 999 |}); try assumption.
      - rewrite Hsz; reflexivity.
      - discriminate.
      - rewrite Hsz; exact Hparse. }
    destruct (hasBody_false _ (retryAsync_r2_head_no_body _ _ _ _ _ Hhead)) as [o ->].
    destruct (hasBody_true _ (retryAsync_r2_get_has_body _ _ _ _ _ _ Hget)) as (o2 & b2 & ->).
    cbn [object_of] in Hsz, Hsz2.
    assert (Hres : resolve request env key (miss_world request env w)
                   = (Normal (Some (FileObjectBody o2 b2), Some (Suffix 100)), w2)).
    { unfold resolve, bind at 1; rewrite Hrs; cbn [fst snd].
      rewrite (if_range_absent _ _ _ Hir).
      rewrite if_match_stage_skip
        by (rewrite (ifMatch_absent _ Him), (ifUnmodifiedSince_absent _ Hius); reflexivity).
      rewrite bind_ret.
      rewrite if_none_match_stage_skip
        by (rewrite (ifNoneMatch_absent _ Hinm), (ifModifiedSince_absent _ Hims); reflexivity).
      rewrite bind_ret.
      unfold bind at 1, final_fetch; rewrite Hm; cbn [String.eqb Ascii.eqb Bool.eqb].
      rewrite Hget; reflexivity. }
    split; [split; assumption|].
    eexists; eexists; split.
    + rewrite (fetch_assemble request env w key (Some (FileObjectBody o2 b2))
                 (Some (Suffix 100)) w2) by (split; assumption).
      apply call_Normal, assemble_found.
    + unfold build_response, content_length, build_headers;
        cbn [status response_headers hasBody object_of andb negb].
      rewrite Hsz2; repeat split.
  Qed.

Lemma single_range_is_encoded_witness :
  let request := Scenario.get_keyring [("range", "bytes=900-999")] in
  let env := Scenario.env_of (Scenario.bucket_of (Scenario.keyring_store 1000)) None in
  @range_stage Scenario.host request env keyringFilename Scenario.start
    = (Normal (Some (FileObject (Scenario.keyring 1000)), Some (Suffix 100)),
       snd (retryAsync env (r2_head env keyringFilename) Scenario.start)) /\
  exists response w',
    @fetch Scenario.host request env Scenario.start = (Normal response, w') /\
    status response = 206 /\
    headers_get (response_headers response) "content-range" = Some "bytes 900-999/1000" /\
    headers_get (response_headers response) "content-length" = Some "100".
Proof.
  intros request env.
  pose proof (@single_range_is_encoded Scenario.host request env) as [Hgen Hex].
  split.
  - destruct (Hgen keyringFilename Scenario.start "bytes=900-999"
                (FileObject (Scenario.keyring 1000))
                (snd (retryAsync env (r2_head env keyringFilename) Scenario.start))
                {| start := 900; range_end := 999 |})
      as (range & Hr & Hs & _);
      [reflexivity|reflexivity|discriminate|reflexivity|reflexivity|].
    rewrite Hr, (Hs eq_refl); reflexivity.
  - set (w1 := snd (retryAsync env (r2_head env keyringFilename)
                      (@miss_world request env Scenario.start))).
    apply (Hex keyringFilename Scenario.start
             (FileObject (Scenario.keyring 1000)) w1
             (FileObjectBody (Scenario.keyring 1000) (repeat x2a 100))
             (snd (retryAsync env (r2_get env keyringFilename (Some (Suffix 100))) w1)));
      try reflexivity.
    split; reflexivity.
Defined.

(** The effective range the later stages and the assembly work with is the
    one [If-Range] leaves. *)
Lemma resolve_range `{Platform} request env key w file range0 w1 fr w2 :
  range_stage request env key w = (Normal (file, range0), w1) ->
  resolve request env key w = (Normal fr, w2) ->
  snd fr = if_range_stage request file range0.
Proof.
  intros Hrs Hres; unfold resolve, bind at 1 in Hres; rewrite Hrs in Hres.
  cbn [fst snd] in Hres; unfold bind in Hres.
  destruct (if_match_stage _ _ _ _ _ _) as [[f1| | |] wa]; try discriminate.
  destruct (if_none_match_stage _ _ _ _ _ _) as [[f2| | |] wb]; try discriminate.
  destruct (final_fetch _ _ _ _ _ _) as [[f3| | |] wc]; try discriminate.
  unfold ret in Hres; injection Hres as <- _; reflexivity.
Qed.

(** C4, as stated, fails: the handler does not ask whether [If-Range] is a
    valid HTTP date, it asks [Date.parse], which reads more than HTTP
    dates. The value [legacy_date] (a quoted tag that ends in a number) is
    no HTTP date and differs from the validator of the object, yet it
    parses to a day of 2001, before the upload, and the range is kept: the
    answer is a 206 where the claim has the whole object. *)
Lemma lenient_date_keeps_range :
  let v := Scenario.legacy_date in
  let request := Scenario.get_keyring [("range", "bytes=900-999"); ("if-range", v)] in
  let env := Scenario.env_of (Scenario.bucket_of (Scenario.keyring_store 1000)) None in
  is_imf_fixdate v = false /\
  starts_with_day_name v = false /\
  v <> httpEtag (Scenario.keyring 1000) /\
  @if_range_stage Scenario.host request
     (Some (FileObject (Scenario.keyring 1000))) (Some (Suffix 100)) = Some (Suffix 100) /\
  exists response w',
    @fetch Scenario.host request env Scenario.start = (Normal response, w') /\
    status response = 206 /\
    bucket_calls (trace w')
      = [R2Head keyringFilename; R2Get keyringFilename None (Some (Suffix 100))].
Proof.
  intros v request env.
  split; [reflexivity|split; [reflexivity|split; [discriminate|split; [reflexivity|]]]].
  eexists; eexists; split; [vm_compute; reflexivity|].
  split; reflexivity.
Qed.

(** C4, amended: with an effective range, a non-empty [If-Range] header and
    the metadata of the object, the range is kept when [Date.parse] reads
    [If-Range] as a time value (whether or not it is a valid HTTP date)
    that is not later than the object's upload time, or when [If-Range] is
    a strong entity tag (no [W/] prefix) equal to the object's [httpEtag];
    in every other case it is discarded. Without one of the three the range
    is left as it is. The range so decided is the one every later bucket
    call and the assembly of the response are given: a discarded range
    makes the rest of the request that of a request without range. *)
Theorem if_range_validator `{Platform} (request : Request) (v : string)
  (f : R2File) (r : ParsedRange) :
  ifRange request = Some v ->
  v <> EmptyString ->
  let date_matches :=
    exists d, Date_parse v = Some d /\ d <= uploaded (object_of f) in
  let tag_matches :=
    startsWith v "W/" = false /\ v = httpEtag (object_of f) in
  (date_matches \/ tag_matches ->
   if_range_stage request (Some f) (Some r) = Some r) /\
  (~ (date_matches \/ tag_matches) ->
   if_range_stage request (Some f) (Some r) = None) /\
  (forall file range,
     file = None \/ range = None -> if_range_stage request file range = range) /\
  (forall env key w w1,
     enters_pipeline request env w key ->
     range_stage request env key (miss_world request env w)
       = (Normal (Some f, Some r), w1) ->
     let range := if_range_stage request (Some f) (Some r) in
     resolve request env key (miss_world request env w) =
       (f1 <- if_match_stage request env key range (Some f) ;;
        f2 <- if_none_match_stage request env key range f1 ;;
        f3 <- final_fetch request env key range f2 ;;
        ret (f3, range)) w1 /\
     fetch request env w =
       call (f1 <- if_match_stage request env key range (Some f) ;;
             f2 <- if_none_match_stage request env key range f1 ;;
             f3 <- final_fetch request env key range f2 ;;
             assemble request env key f3 range) (fun response => response) w1).
Proof.
  intros Hir Hne date_matches tag_matches.
  assert (Hstage : if_range_stage request (Some f) (Some r) =
                   if match Date_parse v with
                      | None => true
                      | Some d => uploaded (object_of f) <? d
                      end
                   then if startsWith v "W/" || negb (String.eqb v (httpEtag (object_of f)))
                        then None else Some r
                   else Some r).
  { unfold if_range_stage; rewrite Hir; destruct v; [congruence|reflexivity]. }
  split; [|split; [|split]].
  4:{ intros env key w w1 He Hrs range.
      assert (Hres : resolve request env key (miss_world request env w) =
                (f1 <- if_match_stage request env key range (Some f) ;;
                 f2 <- if_none_match_stage request env key range f1 ;;
                 f3 <- final_fetch request env key range f2 ;;
                 ret (f3, range)) w1).
      { unfold resolve, bind at 1; rewrite Hrs; reflexivity. }
      split; [exact Hres|].
      rewrite (fetch_pipeline _ _ _ _ He); unfold call.
      replace ((fr <- resolve request env key ;;
                assemble request env key (fst fr) (snd fr)) (miss_world request env w))
        with ((f1 <- if_match_stage request env key range (Some f) ;;
               f2 <- if_none_match_stage request env key range f1 ;;
               f3 <- final_fetch request env key range f2 ;;
               assemble request env key f3 range) w1); [reflexivity|].
      symmetry; unfold bind at 1; rewrite Hres; unfold bind.
      destruct (if_match_stage _ _ _ _ _ _) as [[f1| | |] wa]; try reflexivity.
      destruct (if_none_match_stage _ _ _ _ _ _) as [[f2| | |] wb]; try reflexivity.
      destruct (final_fetch _ _ _ _ _ _) as [[f3| | |] wc]; reflexivity. }
  - intros [(d & Hd & Hle)|[Hw He]]; rewrite Hstage.
    + rewrite Hd; destruct (Z.ltb_spec (uploaded (object_of f)) d); [lia|reflexivity].
    + rewrite Hw, <- He, String.eqb_refl; cbn [negb orb].
      destruct (Date_parse v) as [d|]; [|reflexivity].
      destruct (uploaded (object_of f) <? d); reflexivity.
  - intros Hno; rewrite Hstage.
    assert (Hdate : match Date_parse v with
                    | None => true
                    | Some d => uploaded (object_of f) <? d
                    end = true).
    { destruct (Date_parse v) as [d|] eqn:Hd; [|reflexivity].
      destruct (Z.ltb_spec (uploaded (object_of f)) d); [reflexivity|].
      exfalso; apply Hno; left; exists d; split; [reflexivity|assumption]. }
    rewrite Hdate.
    destruct (startsWith v "W/") eqn:Hw; [reflexivity|].
    destruct (String.eqb_spec v (httpEtag (object_of f))) as [He|He]; [|reflexivity].
    exfalso; apply Hno; right; split; [reflexivity|assumption].
  - intros file range [-> | ->]; unfold if_range_stage.
    + destruct range; [|reflexivity].
      destruct (ifRange request) as [[|c s]|]; reflexivity.
    + reflexivity.
Qed.

Lemma if_range_validator_witness :
  let etag := (dquote ++ "abc" ++ dquote)%string in
  let env := Scenario.env_of (Scenario.bucket_of (Scenario.keyring_store 1000)) None in
  let request := Scenario.get_keyring [("range", "bytes=900-999"); ("if-range", etag)] in
  let stale := Scenario.get_keyring [("range", "bytes=900-999"); ("if-range", "W/x")] in
  @if_range_stage Scenario.host request
     (Some (FileObject (Scenario.keyring 1000))) (Some (Suffix 100)) = Some (Suffix 100) /\
  @if_range_stage Scenario.host stale
     (Some (FileObject (Scenario.keyring 1000))) (Some (Suffix 100)) = None /\
  exists response w',
    @fetch Scenario.host stale env Scenario.start = (Normal response, w') /\
    status response = 200 /\
    headers_get (response_headers response) "content-length" = Some "1000" /\
    bucket_calls (trace w') = [R2Head keyringFilename; R2Get keyringFilename None None].
Proof.
  intros etag env request stale; split; [|split].
  - destruct (@if_range_validator Scenario.host request etag
                (FileObject (Scenario.keyring 1000)) (Suffix 100) eq_refl)
      as (Hkeep & _ & _ & _); [discriminate|].
    apply Hkeep; right; split; reflexivity.
  - destruct (@if_range_validator Scenario.host stale "W/x"
                (FileObject (Scenario.keyring 1000)) (Suffix 100) eq_refl)
      as (_ & Hdrop & _ & _); [discriminate|].
    apply Hdrop; intros [(d & Hd & _)|[Hw _]]; discriminate.
  - destruct (@if_range_validator Scenario.host stale "W/x"
                (FileObject (Scenario.keyring 1000)) (Suffix 100) eq_refl)
      as (_ & _ & _ & Hrest); [discriminate|].
    destruct (Hrest env keyringFilename Scenario.start
                (snd (@range_stage Scenario.host stale env keyringFilename
                        (@miss_world stale env Scenario.start))))
      as [_ Hfetch]; [split; reflexivity|reflexivity|].
    eexists; eexists; split; [rewrite Hfetch; vm_compute; reflexivity|].
    repeat split; reflexivity.
Defined.

(** C5: a GET whose [Range] header is not empty, for an object the bucket
    knows, is answered 416 when the parser answers [-1] or [-2], a number of
    ranges other than one (two or more in particular), or a unit other than
    [bytes]; the bucket has then only been asked for the metadata ([head]),
    never for a body. In particular a header that the parser reads as two
    ranges, such as [bytes=0-1,500-501], is answered 416. *)
Theorem unsupported_range_416 `{Platform} (request : Request) (env : Env)
  (w : World) (key rangeHeader : string) (f : R2File) (w1 : World) :
  enters_pipeline request env w key ->
  method request = "GET" ->
  headers_get (headers request) "range" = Some rangeHeader ->
  rangeHeader <> EmptyString ->
  retryAsync env (r2_head env key) (miss_world request env w) = (Normal (Some f), w1) ->
  let parsed := parseRange (size (object_of f)) rangeHeader in
  let answer :=
    fetch request env w = (Normal (text_response "Range Not Satisfiable" 416), w1) /\
    exists evs,
      trace w1 = trace (miss_world request env w) ++ evs /\
      bucket_calls evs = repeat (R2Head key) (clock w1 - clock (miss_world request env w)) in
  (parsed = ResultMinus1 \/ parsed = ResultMinus2 \/
   (exists type ranges,
      parsed = ResultRanges type ranges /\
      (List.length ranges <> 1%nat \/ type <> "bytes")) -> answer) /\
  (forall r1 r2,
     rangeHeader = "bytes=0-1,500-501" ->
     parsed = ResultRanges "bytes" [r1; r2] -> answer).
Proof.
  intros He Hm Hh Hne Hhead parsed answer.
  assert (Hgen : parsed = ResultMinus1 \/ parsed = ResultMinus2 \/
            (exists type ranges,
               parsed = ResultRanges type ranges /\
               (List.length ranges <> 1%nat \/ type <> "bytes")) -> answer).
  { intros Hrej; split.
    - apply fetch_resolve_Return with (key := key); [exact He|].
      unfold resolve, bind at 1, range_stage.
      rewrite Hm, Hh; cbn [String.eqb Ascii.eqb Bool.eqb].
      destruct rangeHeader as [|c s]; [congruence|].
      unfold bind at 1; rewrite Hhead.
      fold parsed.
      destruct Hrej as [-> | [-> | (type & ranges & -> & Hbad)]]; try reflexivity.
      destruct ranges as [|r1 [|r2 rs]]; try reflexivity.
      destruct Hbad as [Hlen | Htype]; [simpl in Hlen; congruence|].
      destruct (String.eqb_spec type "bytes"); [congruence|reflexivity].
    - destruct (retryAsync_calls _ _ _ _ (r2_head_call env key) eq_refl _ _ _ Hhead)
        as (_ & _ & _ & evs & Ht & Hb).
      exists evs; split; assumption. }
  split; [exact Hgen|].
  intros r1 r2 _ Hp; apply Hgen.
  right; right; exists "bytes", [r1; r2]; split; [exact Hp|].
  left; simpl; lia.
Qed.

Lemma unsupported_range_416_witness :
  let request := Scenario.get_keyring [("range", "bytes=0-1,500-501")] in
  let env := Scenario.env_of (Scenario.bucket_of (Scenario.keyring_store 1000)) None in
  let w1 := snd (retryAsync env (r2_head env keyringFilename)
                   (@miss_world request env Scenario.start)) in
  @fetch Scenario.host request env Scenario.start
    = (Normal (text_response "Range Not Satisfiable" 416), w1) /\
  bucket_calls (trace w1) = [R2Head keyringFilename].
Proof.
  intros request env w1.
  destruct (@unsupported_range_416 Scenario.host request env Scenario.start
              keyringFilename "bytes=0-1,500-501"
              (FileObject (Scenario.keyring 1000)) w1) as [_ Htwo];
    [split; reflexivity|reflexivity|reflexivity|discriminate|reflexivity|].
  destruct (Htwo {| start := 0; range_end := 1 |} {| start := 500; range_end := 501 |}
              eq_refl eq_refl) as [Hf _].
  split; [exact Hf|reflexivity].
Defined.

(** ** The assembly *)

Section Assembly.
Context `{Platform}.
Variables (request : Request) (env : Env).

(** Only a GET has an effective range. *)
Lemma range_stage_GET key w file r w1 :
  range_stage request env key w = (Normal (file, Some r), w1) ->
  method request = "GET".
Proof.
  unfold range_stage.
  destruct (String.eqb_spec (method request) "GET") as [E|E]; [intros _; exact E|].
  unfold ret; intros Hr; discriminate.
Qed.

Lemma if_range_stage_Some file range0 r :
  if_range_stage request file range0 = Some r -> range0 = Some r.
Proof.
  unfold if_range_stage.
  destruct range0 as [r0|]; [|discriminate].
  destruct (ifRange request) as [[|c s]|]; try (intros E; exact E).
  destruct file as [f|]; try (intros E; exact E).
  destruct (match Date_parse (String c s) with
            | Some d => uploaded (object_of f) <? d
            | None => true
            end); [|intros E; exact E].
  destruct (startsWith (String c s) "W/"
            || negb (String.eqb (String c s) (httpEtag (object_of f))));
    [discriminate|intros E; exact E].
Qed.

(** The last fetch of a GET answers a file with its body, or none. *)
Lemma final_fetch_GET key range file w f w' :
  method request = "GET" ->
  final_fetch request env key range file w = (Normal (Some f), w') ->
  hasBody f = true.
Proof.
  intros Hm; unfold final_fetch; rewrite Hm; cbn [String.eqb Ascii.eqb Bool.eqb].
  destruct file as [[o|o b]|].
  - apply retryAsync_r2_get_has_body.
  - unfold ret; intros E; injection E as <- _; reflexivity.
  - apply retryAsync_r2_get_has_body.
Qed.

(** With an effective range, the file that reaches the assembly has its
    body. *)
Lemma resolve_range_has_body key w f r w' :
  resolve request env key w = (Normal (Some f, Some r), w') ->
  hasBody f = true.
Proof.
  intros Hres; unfold resolve, bind at 1 in Hres.
  destruct (range_stage request env key w) as [[[file range0]| | |] w1] eqn:Hrs;
    try discriminate.
  cbn [fst snd] in Hres; unfold bind in Hres.
  destruct (if_match_stage _ _ _ _ _ _) as [[f1| | |] wa]; try discriminate.
  destruct (if_none_match_stage _ _ _ _ _ _) as [[f2| | |] wb]; try discriminate.
  destruct (final_fetch _ _ _ _ _ _) as [[f3| | |] wc] eqn:Hff; try discriminate.
  unfold ret in Hres; injection Hres as -> Hrange <-.
  apply if_range_stage_Some in Hrange; subst range0.
  apply range_stage_GET in Hrs.
  eapply final_fetch_GET; [exact Hrs|exact Hff].
Qed.

Lemma assemble_no_fallback key range w :
  truthy (NOTFOUND_FILE env) = false ->
  assemble request env key None range w
    = (Return (text_response "File Not Found" 404), w).
Proof.
  intros Hnf; unfold assemble, bind at 1, not_found_stage.
  destruct (NOTFOUND_FILE env) as [[|c s]|]; try reflexivity; discriminate.
Qed.

Lemma assemble_fallback key range w name fb w2 :
  NOTFOUND_FILE env = Some name ->
  name <> EmptyString ->
  fallback_fetch request env name w = (Normal (Some fb), w2) ->
  assemble request env key None range w =
  (Normal (build_response env key fb range true),
   stored request env (build_response env key fb range true) range true w2).
Proof.
  intros Hnf Hne Hfb; unfold assemble, bind at 1, not_found_stage; rewrite Hnf.
  destruct name as [|c s]; [congruence|].
  unfold bind at 1; rewrite Hfb.
  unfold ret, stored; cbn [fst snd]; unfold bind, when.
  destruct (cacheable request env range true); reflexivity.
Qed.

Lemma content_length_fallback fb range :
  content_length fb range true = size (object_of fb).
Proof.
  unfold content_length.
  destruct (hasBody fb && negb (size (object_of fb) =? 0)); [|reflexivity].
  destruct range; reflexivity.
Qed.

End Assembly.

Lemma fallback_fetch_GET `{Platform} request env name w fb w2 :
  method request = "GET" ->
  fallback_fetch request env name w = (Normal (Some fb), w2) ->
  hasBody fb = true.
Proof.
  intros Hm; unfold fallback_fetch; rewrite Hm; cbn [String.eqb Ascii.eqb Bool.eqb].
  apply retryAsync_r2_get_has_body.
Qed.

(** The status of lines 234-265, for a request that reaches the assembly
    of the response:
    - when the last fetch found no object and no fallback is configured, the
      status is 404;
    - when it found no object and the configured fallback object exists, the
      status is 404 and the body is the one assembled from the fallback
      object (for a GET: its bytes through the fixed-length stream of its
      size, nothing when it is empty), provided the headers pass the check
      of the [Response] constructor;
    - when it found the object, the status is 206 if a range is active and
      the file has its body, and 200 otherwise; with an active range the file
      always has its body.
    A request whose [Range] header made the handler fetch the metadata
    first does not reach the assembly when that first fetch finds no
    object: lines 136-138 answer the text [File Not Found], whatever the
    fallback. *)
Lemma status_selection `{Platform} (request : Request) (env : Env)
  (w : World) (key : string) :
  (forall file range w1,
     reaches_assembly request env w key file range w1 ->
     (file = None -> truthy (NOTFOUND_FILE env) = false ->
      fetch request env w = (Normal (text_response "File Not Found" 404), w1)) /\
     (forall name fb w2,
        file = None -> NOTFOUND_FILE env = Some name -> name <> EmptyString ->
        fallback_fetch request env name w1 = (Normal (Some fb), w2) ->
        constructible (response_headers (build_response env key fb range true)) = true ->
        exists response w',
          fetch request env w = (Normal response, w') /\
          status response = 404 /\
          body response = response_body fb (size (object_of fb)) /\
          (method request = "GET" ->
           exists o b,
             fb = FileObjectBody o b /\
             body response =
               if size o =? 0 then None
               else Some (BodyStream (FixedLengthStream (size o) b)))) /\
     (forall f,
        file = Some f ->
        exists response w',
          fetch request env w = (Normal response, w') /\
          status response =
            (if match range with Some _ => true | None => false end && hasBody f
             then 206 else 200) /\
          (range <> None -> hasBody f = true))) /\
  (forall rangeHeader w1,
     enters_pipeline request env w key ->
     method request = "GET" ->
     headers_get (headers request) "range" = Some rangeHeader ->
     rangeHeader <> EmptyString ->
     retryAsync env (r2_head env key) (miss_world request env w) = (Normal None, w1) ->
     fetch request env w = (Normal (text_response "File Not Found" 404), w1)).
Proof.
  split.
  - intros file range w1 Hreach.
    pose proof (fetch_assemble request env w key file range w1 Hreach) as Hfetch.
    split; [|split].
    + intros -> Hnf; rewrite Hfetch.
      apply call_Return with (g := fun r => r), assemble_no_fallback; exact Hnf.
    + intros name fb w2 -> Hnf Hne Hfb _.
      eexists; eexists; split; [|split; [|split]].
      * rewrite Hfetch; apply call_Normal.
        apply assemble_fallback with (name := name); eassumption.
      * reflexivity.
      * unfold build_response; cbn [body]; rewrite content_length_fallback; reflexivity.
      * intros Hm.
        destruct (hasBody_true _ (fallback_fetch_GET _ _ _ _ _ _ Hm Hfb)) as (o & b & ->).
        exists o, b; split; [reflexivity|].
        unfold build_response; cbn [body]; rewrite content_length_fallback.
        cbn [response_body object_of].
        destruct (size o =? 0); reflexivity.
    + intros f ->.
      eexists; eexists; split; [|split].
      * rewrite Hfetch; apply call_Normal, assemble_found.
      * unfold build_response; cbn [status].
        destruct range as [r|]; [|reflexivity].
        destruct Hreach as [_ Hres].
        rewrite (resolve_range_has_body _ _ _ _ _ _ _ Hres); reflexivity.
      * intros Hr; destruct range as [r|]; [|congruence].
        destruct Hreach as [_ Hres].
        exact (resolve_range_has_body _ _ _ _ _ _ _ Hres).
  - intros rangeHeader w1 He Hm Hh Hne Hhead.
    apply fetch_resolve_Return with (key := key); [exact He|].
    unfold resolve, bind at 1, range_stage.
    rewrite Hm, Hh; cbn [String.eqb Ascii.eqb Bool.eqb].
    destruct rangeHeader as [|c s]; [congruence|].
    unfold bind at 1; rewrite Hhead; reflexivity.
Qed.

Lemma status_selection_scenarios :
  let bare := Scenario.env_of (Scenario.bucket_of Scenario.empty_store) None in
  let fallback :=
    Scenario.with_fallback
      (Scenario.env_of (Scenario.bucket_of Scenario.fallback_store) None) "404.html" in
  let full := Scenario.env_of (Scenario.bucket_of (Scenario.keyring_store 1000)) None in
  let plain := Scenario.get_keyring [] in
  let ranged := Scenario.get_keyring [("range", "bytes=900-999")] in
  (exists w', @fetch Scenario.host plain bare Scenario.start
              = (Normal (text_response "File Not Found" 404), w')) /\
  (exists response w',
     @fetch Scenario.host plain fallback Scenario.start = (Normal response, w') /\
     status response = 404 /\
     body response = Some (BodyStream (Delivered [x34; x30; x34]))) /\
  (exists response w',
     @fetch Scenario.host ranged full Scenario.start = (Normal response, w') /\
     status response = 206) /\
  (exists response w',
     @fetch Scenario.host plain full Scenario.start = (Normal response, w') /\
     status response = 200) /\
  (exists w', @fetch Scenario.host ranged bare Scenario.start
              = (Normal (text_response "File Not Found" 404), w')).
Proof.
  intros bare fallback full plain ranged.
  split; [|split; [|split; [|split]]].
  - destruct (@status_selection Scenario.host plain bare Scenario.start keyringFilename)
      as [Hasm _].
    destruct (Hasm None None
                (snd (@resolve Scenario.host plain bare keyringFilename
                        (@miss_world plain bare Scenario.start))))
      as (H404 & _ & _); [split; [split|]; reflexivity|].
    eexists; apply H404; reflexivity.
  - destruct (@status_selection Scenario.host plain fallback Scenario.start keyringFilename)
      as [Hasm _].
    set (w1 := snd (@resolve Scenario.host plain fallback keyringFilename
                      (@miss_world plain fallback Scenario.start))).
    destruct (Hasm None None w1) as (_ & Hfb & _); [split; [split|]; reflexivity|].
    destruct (Hfb "404.html"
                (FileObjectBody Scenario.not_found_page [x34; x30; x34])
                (snd (@fallback_fetch plain fallback "404.html" w1)))
      as (response & w' & Hf & Hs & Hb & _);
      [reflexivity|reflexivity|discriminate|reflexivity|reflexivity|].
    exists response, w'; repeat split; [exact Hf|exact Hs|rewrite Hb; reflexivity].
  - destruct (@status_selection Scenario.host ranged full Scenario.start keyringFilename)
      as [Hasm _].
    destruct (Hasm (Some (FileObjectBody (Scenario.keyring 1000) (repeat x2a 100)))
                (Some (Suffix 100))
                (snd (@resolve Scenario.host ranged full keyringFilename
                        (@miss_world ranged full Scenario.start))))
      as (_ & _ & Hok); [split; [split|]; reflexivity|].
    destruct (Hok _ eq_refl) as (response & w' & Hf & Hs & _).
    exists response, w'; split; [exact Hf|exact Hs].
  - destruct (@status_selection Scenario.host plain full Scenario.start keyringFilename)
      as [Hasm _].
    destruct (Hasm (Some (FileObjectBody (Scenario.keyring 1000) (repeat x2a 1000)))
                None
                (snd (@resolve Scenario.host plain full keyringFilename
                        (@miss_world plain full Scenario.start))))
      as (_ & _ & Hok); [split; [split|]; reflexivity|].
    destruct (Hok _ eq_refl) as (response & w' & Hf & Hs & _).
    exists response, w'; split; [exact Hf|exact Hs].
  - destruct (@status_selection Scenario.host ranged bare Scenario.start keyringFilename)
      as [_ Hhead].
    eexists.
    apply (Hhead "bytes=900-999"); [split; reflexivity|reflexivity|reflexivity|discriminate|].
    reflexivity.
Qed.

(** C6: the claim gives the body of the fallback object to every request
    for an absent object when a not-found fallback exists, the requests
    whose [Range] header makes the handler fetch the metadata first
    included. The handler does so for a GET without [Range]: the bucket is
    asked for the object, then for the fallback, and the answer is a 404
    with the body of the fallback. The same GET with a [Range] header is
    answered by lines 136-138 after the one [head]: a 404 with the text
    [File Not Found], the fallback never asked for. *)
Theorem ranged_miss_skips_fallback :
  let env :=
    Scenario.with_fallback
      (Scenario.env_of (Scenario.bucket_of Scenario.fallback_store) None) "404.html" in
  let plain := Scenario.get_keyring [] in
  let ranged := Scenario.get_keyring [("range", "bytes=900-999")] in
  NOTFOUND_FILE env = Some "404.html" /\
  Scenario.fallback_store "404.html"
    = Some (Scenario.not_found_page, [x34; x30; x34]) /\
  Scenario.fallback_store keyringFilename = None /\
  (exists response w',
     @fetch Scenario.host plain env Scenario.start = (Normal response, w') /\
     status response = 404 /\
     body response = Some (BodyStream (Delivered [x34; x30; x34])) /\
     bucket_calls (trace w')
       = [R2Get keyringFilename None None; R2Get "404.html" None None]) /\
  (exists w',
     @fetch Scenario.host ranged env Scenario.start
       = (Normal (text_response "File Not Found" 404), w') /\
     body (text_response "File Not Found" 404) = Some (BodyText "File Not Found") /\
     bucket_calls (trace w') = [R2Head keyringFilename]).
Proof.
  intros env plain ranged.
  split; [reflexivity|split; [reflexivity|split; [reflexivity|split]]].
  - eexists; eexists; split; [vm_compute; reflexivity|].
    repeat split; reflexivity.
  - eexists; split; [vm_compute; reflexivity|].
    split; reflexivity.
Qed.

(** The assembly, once the file to serve is known. *)
Lemma assemble_served `{Platform} request env key file range w1 f notFound w2 :
  not_found_stage request env file w1 = (Normal (f, notFound), w2) ->
  assemble request env key file range w1 =
  (Normal (build_response env key f range notFound),
   stored request env (build_response env key f range notFound) range notFound w2).
Proof.
  intros Hnf; unfold assemble, bind at 1; rewrite Hnf.
  unfold stored; cbn [fst snd]; unfold bind, when, ret.
  destruct (cacheable request env range notFound); reflexivity.
Qed.

(** C7, as stated, fails: the stream is not truncated or padded. With a
    keyring of 1000 bytes that is replaced by one of 50 bytes between the
    [head] and the [get] of a GET for the last 100 bytes, the response
    declares 100 bytes and its body is a fixed-length stream of 100 fed
    with the 50 bytes the bucket sends: the stream errors, and no body of
    100 bytes is delivered. *)
Lemma drifted_body_is_not_padded :
  let request := Scenario.get_keyring [("range", "bytes=900-999")] in
  let env := Scenario.env_of Scenario.shrinking None in
  exists response w',
    @fetch Scenario.host request env Scenario.start = (Normal response, w') /\
    bucket_calls (trace w')
      = [R2Head keyringFilename; R2Get keyringFilename None (Some (Suffix 100))] /\
    headers_get (response_headers response) "content-length" = Some "100" /\
    body response = Some (BodyStream (FixedLengthStream 100 (repeat x2a 50))) /\
    body response = Some (BodyStream Errored) /\
    forall bytes, body response <> Some (BodyStream (Delivered bytes)).
Proof.
  intros request env.
  eexists; eexists; split; [vm_compute; reflexivity|].
  repeat split; try reflexivity.
  intros bytes; discriminate.
Qed.

(** C7, amended: when the file to serve has a body, the object is not
    empty and the headers pass the check of the [Response] constructor, the
    [content-length] header declares the length (or suffix) of the
    effective range if a range is active and the file is not the fallback,
    and the size of the object otherwise; the body is the bytes of the file
    piped through a [FixedLengthStream] of that declared length, which
    hands them on unchanged when their number is the declared length and
    errors otherwise: nothing is truncated or padded, and a body that is
    delivered has exactly the declared length. *)
Theorem content_length_discipline `{Platform} (request : Request) (env : Env)
  (w : World) (key : string) (file : option R2File) (range : option ParsedRange)
  (w1 : World) (o : R2Object) (b : list byte) (notFound : bool) (w2 : World) :
  reaches_assembly request env w key file range w1 ->
  not_found_stage request env file w1 = (Normal (FileObjectBody o b, notFound), w2) ->
  size o <> 0 ->
  constructible
    (response_headers (build_response env key (FileObjectBody o b) range notFound))
    = true ->
  let declared :=
    match range with
    | Some (OffsetLength _ length) => if notFound then size o else length
    | Some (Suffix suffix) => if notFound then size o else suffix
    | None => size o
    end in
  exists response w',
    fetch request env w = (Normal response, w') /\
    headers_get (response_headers response) "content-length" = Some (toString declared) /\
    body response = Some (BodyStream (FixedLengthStream declared b)) /\
    (Z.of_nat (List.length b) = declared ->
     body response = Some (BodyStream (Delivered b))) /\
    (Z.of_nat (List.length b) <> declared ->
     body response = Some (BodyStream Errored)) /\
    (forall bytes, body response = Some (BodyStream (Delivered bytes)) ->
                   bytes = b /\ Z.of_nat (List.length bytes) = declared).
Proof.
  intros Hreach Hnf Hsize _ declared.
  assert (Hlen : content_length (FileObjectBody o b) range notFound = declared).
  { unfold content_length, declared; cbn [hasBody object_of andb].
    destruct (Z.eqb_spec (size o) 0); [contradiction|]; cbn [negb].
    destruct range as [[offset length|suffix]|]; destruct notFound; reflexivity. }
  assert (Hbody : response_body (FileObjectBody o b) declared
                  = Some (BodyStream (FixedLengthStream declared b))).
  { cbn [response_body]; destruct (Z.eqb_spec (size o) 0); [contradiction|reflexivity]. }
  eexists; eexists; split; [|split; [|split; [|split; [|split]]]].
  - rewrite (fetch_assemble request env w key file range w1 Hreach).
    apply call_Normal, assemble_served; exact Hnf.
  - unfold build_response; cbn [response_headers]; rewrite Hlen; reflexivity.
  - unfold build_response; cbn [body]; rewrite Hlen; exact Hbody.
  - intros Heq; unfold build_response; cbn [body]; rewrite Hlen, Hbody.
    unfold FixedLengthStream; apply Z.eqb_eq in Heq; rewrite Heq; reflexivity.
  - intros Hneq; unfold build_response; cbn [body]; rewrite Hlen, Hbody.
    unfold FixedLengthStream; apply Z.eqb_neq in Hneq; rewrite Hneq; reflexivity.
  - intros bytes; unfold build_response; cbn [body]; rewrite Hlen, Hbody.
    unfold FixedLengthStream.
    destruct (Z.eqb_spec (Z.of_nat (List.length b)) declared) as [Heq|Hneq];
      [|discriminate].
    intros E; injection E as <-; split; [reflexivity|exact Heq].
Qed.

Lemma content_length_discipline_witness :
  let request := Scenario.get_keyring [("range", "bytes=900-999")] in
  let env := Scenario.env_of (Scenario.bucket_of (Scenario.keyring_store 1000)) None in
  exists response w',
    @fetch Scenario.host request env Scenario.start = (Normal response, w') /\
    headers_get (response_headers response) "content-length" = Some "100" /\
    body response = Some (BodyStream (Delivered (repeat x2a 100))).
Proof.
  intros request env.
  set (w1 := snd (@resolve Scenario.host request env keyringFilename
                    (@miss_world request env Scenario.start))).
  destruct (@content_length_discipline Scenario.host request env Scenario.start
              keyringFilename
              (Some (FileObjectBody (Scenario.keyring 1000) (repeat x2a 100)))
              (Some (Suffix 100)) w1
              (Scenario.keyring 1000) (repeat x2a 100) false w1)
    as (response & w' & Hf & Hh & _ & Hb & _);
    [split; [split|]; reflexivity|reflexivity|discriminate|reflexivity|].
  exists response, w'; split; [exact Hf|split; [exact Hh|]].
  apply Hb; reflexivity.
Defined.

(** ** The retry budget *)

Section Budget.
Variables (T : Type) (env : Env) (fn : M T).

Lemma loop_condition_bounded n attempts :
  attempts <= n -> (n =? -1) || (attempts <=? n) = true.
Proof. intros Hle; apply orb_true_iff; right; apply Z.leb_le; exact Hle. Qed.

(** The delay after failure number [k] is [min (1000 * 2^(k-1)) 30000]. *)
Lemma backoff_formula k : backoff k = Z.min (1000 * 2 ^ (k - 1)) 30000.
Proof. reflexivity. Qed.

Lemma backoff_capped k : backoff k <= 30000.
Proof. unfold backoff; lia. Qed.

(** Under a budget [n >= 0], failure number [k <= n] is followed by a
    timer of [backoff k] and another attempt. *)
Lemma bounded_budget_retries n fuel k w err w' :
  0 <= n -> 1 <= k <= n ->
  fn w = (Throw err, w') ->
  retry_loop (S fuel) env fn n (k - 1) w =
  retry_loop fuel env fn n k (slept (backoff k) (logged env k err w')).
Proof.
  intros Hn Hk Hf.
  rewrite (retry_loop_retry T env fn fuel n (k - 1) w err w');
    [|apply loop_condition_bounded; lia|exact Hf|lia].
  replace (k - 1 + 1) with k by lia; reflexivity.
Qed.

(** Under a budget [n >= 0], failure number [n + 1] is thrown to the
    caller. *)
Lemma bounded_budget_exhausted n fuel w err w' :
  0 <= n ->
  fn w = (Throw err, w') ->
  retry_loop (S fuel) env fn n n w = (Throw err, logged env (n + 1) err w').
Proof.
  intros Hn Hf.
  apply retry_loop_rethrow; [apply loop_condition_bounded; lia|exact Hf|lia].
Qed.

(** Two failures, then a success, under a budget of 3: the value of the
    third attempt, after timers of 1000 and 2000 milliseconds. *)
Lemma fails_twice_then_succeeds w e1 wa e2 wb v wc :
  maxAttempts_of env = 3 ->
  fn w = (Throw e1, wa) ->
  fn (slept 1000 (logged env 1 e1 wa)) = (Throw e2, wb) ->
  fn (slept 2000 (logged env 2 e2 wb)) = (Normal v, wc) ->
  retryAsync env fn w = (Normal v, wc).
Proof.
  intros Hn H1 H2 H3; unfold retryAsync, retry_fuel; rewrite Hn.
  change (S (Z.to_nat 3)) with 4%nat.
  rewrite (retry_loop_retry T env fn 3 3 0 w e1 wa); [|reflexivity|exact H1|lia].
  change (backoff (0 + 1)) with 1000; change (0 + 1) with 1.
  rewrite (retry_loop_retry T env fn 2 3 1 _ e2 wb); [|reflexivity|exact H2|lia].
  change (backoff (1 + 1)) with 2000; change (1 + 1) with 2.
  apply retry_loop_success; [reflexivity|exact H3].
Qed.

(** Under the budget [-1] the first failure is thrown to the caller: the
    test before the timer compares the count of failures with [-1]. *)
Lemma unbounded_budget_rethrows w err w' :
  maxAttempts_of env = -1 ->
  fn w = (Throw err, w') ->
  retryAsync env fn w = (Throw err, logged env 1 err w').
Proof.
  intros Hn Hf; unfold retryAsync, retry_fuel; rewrite Hn.
  apply retry_loop_rethrow; [reflexivity|exact Hf|lia].
Qed.

End Budget.

(** The scenario of the specification: the bucket rejects two calls, then
    answers; under a budget of 3 the handler answers what it answers when
    the bucket never fails, after timers of 1000 then 2000 milliseconds. *)
Lemma flaky_bucket_budget_3 :
  let steady := Scenario.bucket_of (Scenario.keyring_store 10) in
  let request := Scenario.get_keyring [] in
  let once := @fetch Scenario.host request (Scenario.env_of steady (Some 3)) Scenario.start in
  let thrice := @fetch Scenario.host request
                  (Scenario.env_of (Scenario.flaky 2 steady) (Some 3)) Scenario.start in
  fst thrice = fst once /\
  delays (trace (snd once)) = [] /\
  delays (trace (snd thrice)) = [1000; 2000].
Proof. repeat split. Qed.

(** C8, at the failing input: with [R2_RETRIES = -1] and a bucket that
    rejects its first call and would answer the second, [retryAsync] makes
    one attempt, sets no timer and throws the rejection. *)
Theorem unbounded_budget_does_not_retry :
  let steady := Scenario.bucket_of (Scenario.keyring_store 10) in
  let env := Scenario.env_of (Scenario.flaky 1 steady) (Some (-1)) in
  head (R2_BUCKET env) 1 keyringFilename = Fulfilled (Some (Scenario.keyring 10)) /\
  retryAsync env (r2_head env keyringFilename) Scenario.start
    = (Throw (R2Error "unavailable"),
       {| clock := 1; cache := []; trace := [R2Head keyringFilename] |}).
Proof. split; reflexivity. Qed.

(** ** The edge cache *)

Lemma cache_lookup_put c request response :
  cache_lookup ((request, response) :: c) request = Some response.
Proof. simpl; destruct (Request_eq_dec request request); [reflexivity|congruence]. Qed.

Lemma log_hit_quiet `{Platform} request env w :
  clock (snd (log_hit request env w)) = clock w /\
  cache (snd (log_hit request env w)) = cache w /\
  bucket_calls (trace (snd (log_hit request env w))) = bucket_calls (trace w).
Proof.
  unfold log_hit, when; destruct (logging env); cbn; repeat split.
  rewrite bucket_calls_app; cbn; apply app_nil_r.
Qed.

(** C9: with caching enabled, a GET that reaches the assembly with the
    object found and no effective range is answered and its response is put
    in the cache under the request; the same request, served next, is
    answered from the cache: the response is equal to the first one (status,
    headers and body), and the bucket is not called. A cached response whose
    status is neither in 200..299 nor 304 is ignored: the pipeline runs. *)
Theorem cache_round_trip `{Platform} (request : Request) (env : Env)
  (w : World) (key : string) (f : R2File) (w1 : World) :
  isCachingEnabled env = true ->
  method request = "GET" ->
  (reaches_assembly request env w key (Some f) None w1 ->
   exists response w' w'',
     fetch request env w = (Normal response, w') /\
     response = build_response env key f None false /\
     fetch request env w' = (Normal response, w'') /\
     clock w'' = clock w' /\
     bucket_calls (trace w'') = bucket_calls (trace w')) /\
  (forall stale w0,
     cache_lookup (cache w0) request = Some stale ->
     ok stale = false -> status stale <> 304 ->
     fetch request env w0
       = call (pipeline request env) (fun r => r) (miss_world request env w0)).
Proof.
  intros Hcache Hm; split.
  - intros Hreach.
    set (response := build_response env key f None false).
    set (w' := stored request env response None false w1).
    assert (Hput : cache w' = (request, response) :: cache w1).
    { unfold w', stored, cacheable; rewrite Hm, Hcache; reflexivity. }
    exists response, w', (snd (fetch request env w')); split; [|split; [reflexivity|]].
    { rewrite (fetch_assemble request env w key (Some f) None w1 Hreach).
      apply call_Normal, assemble_found. }
    assert (Hhit : fetch request env w' =
                   (Normal response,
                    snd (log_hit request env (snd (cache_stage request env w'))))).
    { unfold fetch, call, fetch_body; rewrite Hm; cbn [includes allowedMethods existsb
        String.eqb Ascii.eqb Bool.eqb orb negb].
      unfold bind at 1; rewrite cache_stage_eq.
      unfold cached; rewrite Hcache, Hput, cache_lookup_put.
      change (ok response || (status response =? 304)) with true; cbn [negb].
      unfold bind, log_hit; rewrite when_emit_eq; reflexivity. }
    rewrite Hhit; cbn [snd]; split; [reflexivity|].
    destruct (log_hit_quiet request env (snd (cache_stage request env w'))) as (Hc & _ & Hb).
    rewrite Hc, Hb; unfold cache_stage; rewrite Hcache; cbn.
    split; [reflexivity|].
    rewrite bucket_calls_app; cbn; apply app_nil_r.
  - intros stale w0 Hlook Hok Hst.
    apply fetch_miss; unfold is_miss, cached.
    rewrite Hm, Hcache, Hlook; cbn [includes allowedMethods existsb
      String.eqb Ascii.eqb Bool.eqb orb negb andb cache_miss].
    rewrite Hok; apply Z.eqb_neq in Hst; rewrite Hst; reflexivity.
Qed.

Lemma cache_round_trip_witness :
  let request := Scenario.get_keyring [] in
  let env := Scenario.env_of (Scenario.bucket_of (Scenario.keyring_store 10)) None in
  exists response w' w'',
    @fetch Scenario.host request env Scenario.start = (Normal response, w') /\
    @fetch Scenario.host request env w' = (Normal response, w'') /\
    status response = 200 /\
    clock w' = 1%nat /\ clock w'' = 1%nat.
Proof.
  intros request env.
  destruct (@cache_round_trip Scenario.host request env Scenario.start keyringFilename
              (FileObjectBody (Scenario.keyring 10) (repeat x2a 10))
              (snd (@resolve Scenario.host request env keyringFilename
                      (@miss_world request env Scenario.start)))
              eq_refl eq_refl) as [Hround _].
  destruct Hround as (response & w' & w'' & H1 & Hr & H2 & Hc & _);
    [split; [split|]; reflexivity|].
  exists response, w', w''; split; [exact H1|split; [exact H2|]].
  assert (Hw' : clock w' = 1%nat).
  { change (@fetch Scenario.host request env Scenario.start)
      with (Normal (@build_response Scenario.host env keyringFilename
                      (FileObjectBody (Scenario.keyring 10) (repeat x2a 10)) None false),
            snd (@fetch Scenario.host request env Scenario.start)) in H1.
    injection H1 as _ <-; reflexivity. }
  rewrite Hr; split; [reflexivity|split; [exact Hw'|]].
  rewrite Hc; exact Hw'.
Defined.

(** ** Empty objects *)

Lemma range_stage_no_header `{Platform} request env key w :
  headers_get (headers request) "range" = None ->
  range_stage request env key w = (Normal (None, None), w).
Proof.
  intros Hh; unfold range_stage; rewrite Hh.
  destruct (String.eqb (method request) "GET"); reflexivity.
Qed.

Lemma content_length_no_range `{Platform} f notFound :
  content_length f None notFound = size (object_of f).
Proof.
  unfold content_length.
  destruct (hasBody f && negb (size (object_of f) =? 0)); reflexivity.
Qed.

(** Without an effective range, the size of the object only shows in the
    [content-length] header. *)
Lemma build_headers_size `{Platform} env filename o n m name :
  name <> "content-length" ->
  headers_get (build_headers env filename o None false (size o)) name =
  headers_get (build_headers env filename (with_size o n) None false m) name.
Proof.
  intros Hname; unfold build_headers, with_size;
    cbn [headers_get key size etag httpEtag uploaded httpMetadata].
  repeat match goal with
         | |- (if String.eqb ?a name then _ else _) = _ =>
             destruct (String.eqb_spec a name); [try reflexivity|]
         end.
  - congruence.
  - reflexivity.
Qed.

(** C10: a GET without [Range] header that reaches the assembly with an
    object of size 0 has no effective range and is answered with status 200,
    no body at all, and [content-length: 0]; every other header has the value
    it has for the same object with any other size and any bytes. *)
Theorem empty_object_response `{Platform} (request : Request) (env : Env)
  (w : World) (key : string) (f : R2File) (range : option ParsedRange) (w1 : World) :
  method request = "GET" ->
  headers_get (headers request) "range" = None ->
  reaches_assembly request env w key (Some f) range w1 ->
  size (object_of f) = 0 ->
  range = None /\
  exists response w',
    fetch request env w = (Normal response, w') /\
    status response = 200 /\
    body response = None /\
    headers_get (response_headers response) "content-length" = Some "0" /\
    forall n b name,
      name <> "content-length" ->
      headers_get (response_headers response) name =
      headers_get
        (response_headers
           (build_response env key (FileObjectBody (with_size (object_of f) n) b)
              None false))
        name.
Proof.
  intros Hm Hh Hreach Hsize.
  assert (Hrange : range = None).
  { destruct Hreach as [_ Hres].
    pose proof (resolve_range request env key _ None None _ _ _
                  (range_stage_no_header request env key _ Hh) Hres) as Hr.
    exact Hr. }
  subst range; split; [reflexivity|].
  eexists; eexists; split; [|split; [|split; [|split]]].
  - rewrite (fetch_assemble request env w key (Some f) None w1 Hreach).
    apply call_Normal, assemble_found.
  - reflexivity.
  - unfold build_response; cbn [body].
    destruct f as [o|o b]; [reflexivity|].
    cbn [object_of] in Hsize; cbn [response_body]; rewrite Hsize; reflexivity.
  - unfold build_response, content_length; cbn [response_headers].
    rewrite Hsize, andb_false_r; reflexivity.
  - intros n b name Hname.
    unfold build_response; cbn [response_headers object_of].
    rewrite content_length_no_range.
    apply build_headers_size; exact Hname.
Qed.

Lemma empty_object_response_witness :
  let request := Scenario.get_keyring [] in
  let env := Scenario.env_of (Scenario.bucket_of (Scenario.keyring_store 0)) None in
  exists response w',
    @fetch Scenario.host request env Scenario.start = (Normal response, w') /\
    status response = 200 /\
    body response = None /\
    headers_get (response_headers response) "content-length" = Some "0".
Proof.
  intros request env.
  destruct (@empty_object_response Scenario.host request env Scenario.start
              keyringFilename (FileObjectBody (Scenario.keyring 0) []) None
              (snd (@resolve Scenario.host request env keyringFilename
                      (@miss_world request env Scenario.start)))
              eq_refl eq_refl)
    as (_ & response & w' & Hf & Hs & Hb & Hl & _);
    [split; [split|]; reflexivity|reflexivity|].
  exists response, w'; repeat split; assumption.
Defined.

(** ** Dates at the epoch *)

(** C2, at the failing input: [If-Modified-Since] carries the date of the
    epoch, which parses to the time value 0; the handler tests the parsed
    number for truthiness, takes the header as absent and asks the bucket for
    the object without any condition. *)
Theorem if_modified_since_epoch_is_ignored :
  let request := Scenario.get_keyring [("if-modified-since", Scenario.epoch_date)] in
  let env := Scenario.env_of (Scenario.bucket_of (Scenario.keyring_store 10)) None in
  @ifModifiedSince Scenario.host request = Some 0 /\
  (forall objectName range file,
     @if_none_match_stage Scenario.host request env objectName range file = ret file) /\
  exists response w',
    @fetch Scenario.host request env Scenario.start = (Normal response, w') /\
    status response = 200 /\
    bucket_calls (trace w') = [R2Get keyringFilename None None].
Proof.
  intros request env; split; [reflexivity|split; [reflexivity|]].
  eexists; eexists; split; [reflexivity|split; reflexivity].
Qed.

(** The same test guards the first stage: [If-Unmodified-Since] with the date
    of the epoch is taken as absent, and the object, uploaded later, is
    served. *)
Lemma if_unmodified_since_epoch_is_ignored :
  let request := Scenario.get_keyring [("if-unmodified-since", Scenario.epoch_date)] in
  let env := Scenario.env_of (Scenario.bucket_of (Scenario.keyring_store 10)) None in
  @ifUnmodifiedSince Scenario.host request = Some 0 /\
  exists response w',
    @fetch Scenario.host request env Scenario.start = (Normal response, w') /\
    status response = 200 /\
    bucket_calls (trace w') = [R2Get keyringFilename None None].
Proof.
  intros request env; split; [reflexivity|].
  eexists; eexists; split; [reflexivity|split; reflexivity].
Qed.

(** ** Termination *)

(** [fetch] never runs out of the fuel its retry loops are given. *)
Lemma bind_terminates {A B} (m : M A) (f : A -> M B) w :
  fst (m w) <> OutOfFuel ->
  (forall a w', fst (f a w') <> OutOfFuel) ->
  fst (bind m f w) <> OutOfFuel.
Proof.
  intros Hm Hf; unfold bind.
  destruct (m w) as [[a|r|e|] w']; simpl in *; try discriminate; auto.
Qed.

Lemma bucket_call_terminates {T} (fn : M T) e :
  bucket_call fn e -> forall w, fst (fn w) <> OutOfFuel.
Proof.
  intros Hc w; destruct (Hc w) as [_ [[v Hv]|[err Hv]]]; rewrite Hv; discriminate.
Qed.

Lemma retry_head_terminates env name w :
  fst (retryAsync env (r2_head env name) w) <> OutOfFuel.
Proof.
  apply retryAsync_terminates, (bucket_call_terminates _ _ (r2_head_call env name)).
Qed.

Lemma retry_get_terminates env name range w :
  fst (retryAsync env (r2_get env name range) w) <> OutOfFuel.
Proof.
  apply retryAsync_terminates, (bucket_call_terminates _ _ (r2_get_call env name range)).
Qed.

Lemma retry_get_onlyIf_terminates env name onlyIf range w :
  fst (retryAsync env (r2_get_onlyIf env name onlyIf range) w) <> OutOfFuel.
Proof.
  apply retryAsync_terminates,
    (bucket_call_terminates _ _ (r2_get_onlyIf_call env name onlyIf range)).
Qed.

Lemma when_terminates b (m : M unit) w :
  fst (m w) <> OutOfFuel -> fst (when b m w) <> OutOfFuel.
Proof. destruct b; [auto|discriminate]. Qed.

Ltac terminates :=
  repeat first
    [ discriminate
    | apply retry_head_terminates
    | apply retry_get_terminates
    | apply retry_get_onlyIf_terminates
    | apply bind_terminates; [|intros]
    | apply when_terminates
    | match goal with
      | |- fst ((if ?b then _ else _) _) <> _ => destruct b
      | |- fst ((match ?x with _ => _ end) _) <> _ => destruct x
      | |- fst (ret _ _) <> _ => unfold ret; cbn [fst]
      | |- fst (return_ _ _) <> _ => unfold return_; cbn [fst]
      end ].

Section Termination.
Context `{Platform}.
Variables (request : Request) (env : Env).

Lemma resolve_terminates key w : fst (resolve request env key w) <> OutOfFuel.
Proof.
  unfold resolve, range_stage, if_match_stage, if_none_match_stage, final_fetch.
  terminates.
Qed.

Lemma assemble_terminates key file range w :
  fst (assemble request env key file range w) <> OutOfFuel.
Proof.
  unfold assemble, not_found_stage, fallback_fetch, cache_put.
  terminates.
Qed.

Lemma pipeline_terminates w : fst (pipeline request env w) <> OutOfFuel.
Proof.
  unfold pipeline, resolve_key.
  apply bind_terminates; [terminates|intros].
  apply bind_terminates; [apply resolve_terminates|intros].
  apply assemble_terminates.
Qed.

(** [fetch] ends: with a response or by throwing, never for want of fuel. *)
Lemma fetch_terminates w :
  (exists response w', fetch request env w = (Normal response, w')) \/
  (exists err w', fetch request env w = (Throw err, w')).
Proof.
  assert (Hbody : fst (fetch_body request env w) <> OutOfFuel).
  { unfold fetch_body, cache_stage, cache_match, log_miss, log_hit, emit.
    destruct (negb _); [discriminate|].
    destruct (String.eqb _ _); [discriminate|].
    apply bind_terminates; [destruct (isCachingEnabled env); discriminate|intros].
    destruct a as [r|].
    - destruct (negb _).
      + apply bind_terminates; [apply when_terminates; discriminate|intros].
        apply pipeline_terminates.
      + apply bind_terminates; [apply when_terminates; discriminate|intros].
        discriminate.
    - apply bind_terminates; [apply when_terminates; discriminate|intros].
      apply pipeline_terminates. }
  unfold fetch, call.
  destruct (fetch_body request env w) as [[r|r|e|] w']; simpl in Hbody; eauto.
  congruence.
Qed.

End Termination.

(** * Further properties *)

(** ** The backoff *)

Lemma delays_app t1 t2 : delays (t1 ++ t2) = delays t1 ++ delays t2.
Proof. apply flat_map_app. Qed.

Lemma delays_bucket_call e : is_bucket_call e = true -> delays [e] = [].
Proof. destruct e; simpl; intros E; try discriminate; reflexivity. Qed.

Lemma backoffs_S first count :
  backoffs first (S count) = backoff first :: backoffs (first + 1) count.
Proof.
  unfold backoffs; cbn [seq map]; rewrite Z.add_0_r; f_equal.
  rewrite <- seq_shift, map_map; apply map_ext; intros i.
  f_equal; lia.
Qed.

(** X1: the delays before the retries start at one second, never decrease
    from one failure to the next, never exceed thirty seconds, and are thirty
    seconds from the sixth failure on. *)
Theorem backoff_bounds (j k : Z) :
  1 <= j <= k ->
  backoff 1 = 1000 /\
  1000 <= backoff j /\ backoff j <= backoff k /\ backoff k <= 30000 /\
  (6 <= k -> backoff k = 30000).
Proof.
  intros [Hj Hjk]; unfold backoff.
  assert (Hpow : 2 ^ (j - 1) <= 2 ^ (k - 1)) by (apply Z.pow_le_mono_r; lia).
  assert (Hone : 1 <= 2 ^ (j - 1)).
  { change 1 with (2 ^ 0); apply Z.pow_le_mono_r; lia. }
  repeat split; try reflexivity; try lia.
  intros Hk.
  assert (H32 : 2 ^ 5 <= 2 ^ (k - 1)) by (apply Z.pow_le_mono_r; lia).
  change (2 ^ 5) with 32 in H32; lia.
Qed.

Lemma backoff_bounds_witness :
  backoff 1 = 1000 /\ 1000 <= backoff 3 /\ backoff 3 <= backoff 9 /\
  backoff 9 <= 30000 /\ (6 <= 9 -> backoff 9 = 30000).
Proof. apply (backoff_bounds 3 9); lia. Defined.

(** ** Scripts of failures *)

Lemma r2_head_answers env name :
  answers_by_clock (r2_head env name)
    (fun n => match head (R2_BUCKET env) n name with
              | Fulfilled o => Normal (option_map FileObject o)
              | Rejected e => Throw e
              end).
Proof.
  intros w; unfold r2_head.
  destruct (head (R2_BUCKET env) (clock w) name); reflexivity.
Qed.

Lemma r2_get_answers env name range :
  answers_by_clock (r2_get env name range)
    (fun n => match get (R2_BUCKET env) n name range with
              | Fulfilled o =>
                  Normal (option_map (fun ob => FileObjectBody (fst ob) (snd ob)) o)
              | Rejected e => Throw e
              end).
Proof.
  intros w; unfold r2_get.
  destruct (get (R2_BUCKET env) (clock w) name range); reflexivity.
Qed.

Lemma r2_get_onlyIf_answers env name onlyIf range :
  answers_by_clock (r2_get_onlyIf env name onlyIf range)
    (fun n => match get_onlyIf (R2_BUCKET env) n name onlyIf range with
              | Fulfilled o => Normal o
              | Rejected e => Throw e
              end).
Proof.
  intros w; unfold r2_get_onlyIf.
  destruct (get_onlyIf (R2_BUCKET env) (clock w) name onlyIf range); reflexivity.
Qed.

Section Script.
Variables (T : Type) (env : Env) (fn : M T) (e : Event) (answer : nat -> Completion T).
Hypothesis fn_call : bucket_call fn e.
Hypothesis e_call : is_bucket_call e = true.
Hypothesis fn_answers : answers_by_clock fn answer.

Lemma fn_eq w : fn w = (answer (clock w), served e w).
Proof.
  rewrite <- (fn_answers w), <- (proj1 (fn_call w)); destruct (fn w); reflexivity.
Qed.

(** The world in which the attempt after failure [a] starts. *)
Lemma next_attempt_world a err w :
  let w2 := slept (backoff a) (logged env a err (served e w)) in
  clock w2 = S (clock w) /\ cache w2 = cache w /\
  exists evs, trace w2 = trace w ++ evs /\
              delays evs = [backoff a] /\ bucket_calls evs = [e].
Proof.
  intros w2; unfold w2, slept, sleep, emit; cbn [snd clock cache trace].
  rewrite logged_clock, logged_cache.
  destruct (logged_trace env a err (served e w)) as (l & Hl & Hb & Hd).
  repeat split; rewrite ?Hl; unfold served; cbn [clock cache trace]; try reflexivity.
  exists ([e] ++ l ++ [SetTimeout (backoff a)]); split; [|split].
  - repeat rewrite <- app_assoc; reflexivity.
  - repeat rewrite delays_app; rewrite Hd, (delays_bucket_call e e_call); reflexivity.
  - repeat rewrite bucket_calls_app; rewrite Hb.
    unfold bucket_calls; cbn [filter is_bucket_call]; rewrite e_call; reflexivity.
Qed.

Lemma retry_loop_script n : forall k fuel a w v,
  0 <= a -> a + Z.of_nat k <= n -> (k < fuel)%nat ->
  (forall i, (i < k)%nat -> exists err, answer (clock w + i) = Throw err) ->
  answer (clock w + k) = Normal v ->
  exists w',
    retry_loop fuel env fn n a w = (Normal v, w') /\
    clock w' = (clock w + k + 1)%nat /\ cache w' = cache w /\
    exists evs, trace w' = trace w ++ evs /\
                delays evs = backoffs (a + 1) k /\
                bucket_calls evs = repeat e (S k).
Proof.
  induction k as [|k IH]; intros fuel a w v Ha Hn Hfuel Hfail Hok.
  - destruct fuel as [|fuel]; [lia|].
    rewrite Nat.add_0_r in Hok.
    exists (served e w); split; [|split; [|split]].
    + apply retry_loop_success; [apply loop_condition_bounded; lia|].
      rewrite fn_eq, Hok; reflexivity.
    + unfold served; cbn [clock]; lia.
    + reflexivity.
    + exists [e]; split; [reflexivity|split].
      * apply delays_bucket_call, e_call.
      * unfold bucket_calls; cbn [filter repeat]; rewrite e_call; reflexivity.
  - destruct fuel as [|fuel]; [lia|].
    destruct (Hfail 0%nat) as [err Herr]; [lia|]; rewrite Nat.add_0_r in Herr.
    rewrite (retry_loop_retry T env fn fuel n a w err (served e w));
      [|apply loop_condition_bounded; lia|rewrite fn_eq, Herr; reflexivity|lia].
    destruct (next_attempt_world (a + 1) err w) as (Hc & Hk & evs1 & Ht1 & Hd1 & Hb1).
    destruct (IH fuel (a + 1) (slept (backoff (a + 1)) (logged env (a + 1) err (served e w))) v)
      as (w' & Hr & Hc' & Hk' & evs2 & Ht2 & Hd2 & Hb2); try lia.
    + intros i Hi; rewrite Hc.
      replace (S (clock w) + i)%nat with (clock w + S i)%nat by lia.
      apply Hfail; lia.
    + rewrite Hc; replace (S (clock w) + k)%nat with (clock w + S k)%nat by lia.
      exact Hok.
    + exists w'; split; [exact Hr|split; [|split]].
      * rewrite Hc', Hc; lia.
      * rewrite Hk', Hk; reflexivity.
      * exists (evs1 ++ evs2); split; [|split].
        -- rewrite Ht2, Ht1, app_assoc; reflexivity.
        -- rewrite delays_app, Hd1, Hd2, backoffs_S; reflexivity.
        -- rewrite bucket_calls_app, Hb1, Hb2; reflexivity.
Qed.

Lemma retry_loop_all_fail n : forall r fuel a w last,
  0 <= a -> a + Z.of_nat r = n -> (r < fuel)%nat ->
  (forall i, (i < r)%nat -> exists err, answer (clock w + i) = Throw err) ->
  answer (clock w + r) = Throw last ->
  exists w',
    retry_loop fuel env fn n a w = (Throw last, w') /\
    clock w' = (clock w + r + 1)%nat /\ cache w' = cache w /\
    exists evs, trace w' = trace w ++ evs /\
                delays evs = backoffs (a + 1) r /\
                bucket_calls evs = repeat e (S r).
Proof.
  induction r as [|r IH]; intros fuel a w last Ha Hn Hfuel Hfail Hlast.
  - destruct fuel as [|fuel]; [lia|].
    rewrite Nat.add_0_r in Hlast.
    exists (logged env (a + 1) last (served e w)); split; [|split; [|split]].
    + apply retry_loop_rethrow; [apply loop_condition_bounded; lia| |lia].
      rewrite fn_eq, Hlast; reflexivity.
    + rewrite logged_clock; unfold served; cbn [clock]; lia.
    + rewrite logged_cache; reflexivity.
    + destruct (logged_trace env (a + 1) last (served e w)) as (l & Hl & Hb & Hd).
      exists ([e] ++ l); split; [|split].
      * rewrite Hl; unfold served; cbn [trace]; rewrite <- app_assoc; reflexivity.
      * rewrite delays_app, Hd, (delays_bucket_call e e_call); reflexivity.
      * rewrite bucket_calls_app, Hb, app_nil_r.
        unfold bucket_calls; cbn [filter repeat]; rewrite e_call; reflexivity.
  - destruct fuel as [|fuel]; [lia|].
    destruct (Hfail 0%nat) as [err Herr]; [lia|]; rewrite Nat.add_0_r in Herr.
    rewrite (retry_loop_retry T env fn fuel n a w err (served e w));
      [|apply loop_condition_bounded; lia|rewrite fn_eq, Herr; reflexivity|lia].
    destruct (next_attempt_world (a + 1) err w) as (Hc & Hk & evs1 & Ht1 & Hd1 & Hb1).
    destruct (IH fuel (a + 1) (slept (backoff (a + 1)) (logged env (a + 1) err (served e w))) last)
      as (w' & Hr & Hc' & Hk' & evs2 & Ht2 & Hd2 & Hb2); try lia.
    + intros i Hi; rewrite Hc.
      replace (S (clock w) + i)%nat with (clock w + S i)%nat by lia.
      apply Hfail; lia.
    + rewrite Hc; replace (S (clock w) + r)%nat with (clock w + S r)%nat by lia.
      exact Hlast.
    + exists w'; split; [exact Hr|split; [|split]].
      * rewrite Hc', Hc; lia.
      * rewrite Hk', Hk; reflexivity.
      * exists (evs1 ++ evs2); split; [|split].
        -- rewrite Ht2, Ht1, app_assoc; reflexivity.
        -- rewrite delays_app, Hd1, Hd2, backoffs_S; reflexivity.
        -- rewrite bucket_calls_app, Hb1, Hb2; reflexivity.
Qed.

End Script.

(** X2: under a budget [n >= 0], an operation on the bucket that is rejected
    [k <= n] times and then answers gives that answer, after [k + 1] calls
    and the [k] delays [backoff 1], ..., [backoff k]. *)
Theorem retries_until_success {T} (env : Env) (fn : M T) (e : Event)
  (answer : nat -> Completion T) (w : World) (k : nat) (v : T) :
  bucket_call fn e -> is_bucket_call e = true -> answers_by_clock fn answer ->
  Z.of_nat k <= maxAttempts_of env ->
  (forall i, (i < k)%nat -> exists err, answer (clock w + i)%nat = Throw err) ->
  answer (clock w + k)%nat = Normal v ->
  exists w',
    retryAsync env fn w = (Normal v, w') /\
    clock w' = (clock w + k + 1)%nat /\ cache w' = cache w /\
    exists evs, trace w' = trace w ++ evs /\
                delays evs = backoffs 1 k /\
                bucket_calls evs = repeat e (S k).
Proof.
  intros Hcall He Hans Hk Hfail Hok; unfold retryAsync, retry_fuel.
  apply (retry_loop_script T env fn e answer Hcall He Hans (maxAttempts_of env)
           k _ 0 w v); try assumption; lia.
Qed.

Lemma retries_until_success_witness :
  let env := Scenario.env_of
               (Scenario.flaky 2 (Scenario.bucket_of (Scenario.keyring_store 10)))
               (Some 3) in
  exists w',
    retryAsync env (r2_head env keyringFilename) Scenario.start
      = (Normal (Some (FileObject (Scenario.keyring 10))), w') /\
    clock w' = 3%nat /\
    exists evs, trace w' = evs /\ delays evs = [1000; 2000].
Proof.
  intros env.
  destruct (retries_until_success env (r2_head env keyringFilename) (R2Head keyringFilename)
              _ Scenario.start 2 (Some (FileObject (Scenario.keyring 10)))
              (r2_head_call env keyringFilename) eq_refl
              (r2_head_answers env keyringFilename))
    as (w' & Hr & Hc & _ & evs & Ht & Hd & _).
  - subst env; cbn; lia.
  - intros [|[|i]] Hi; [eexists; reflexivity|eexists; reflexivity|lia].
  - reflexivity.
  - exists w'; split; [exact Hr|split; [exact Hc|]].
    exists evs; split; [exact Ht|exact Hd].
Defined.

(** X3: under a budget [n >= 0] (0 when [R2_RETRIES] is not set), an
    operation that the bucket rejects [n + 1] times in a row is given up: the
    wrapper throws the last rejection, after exactly [n + 1] calls and the
    [n] delays [backoff 1], ..., [backoff n]. *)
Theorem retries_exhausted {T} (env : Env) (fn : M T) (e : Event)
  (answer : nat -> Completion T) (w : World) (last : Exn) :
  bucket_call fn e -> is_bucket_call e = true -> answers_by_clock fn answer ->
  0 <= maxAttempts_of env ->
  let n := Z.to_nat (maxAttempts_of env) in
  (forall i, (i < n)%nat -> exists err, answer (clock w + i)%nat = Throw err) ->
  answer (clock w + n)%nat = Throw last ->
  exists w',
    retryAsync env fn w = (Throw last, w') /\
    clock w' = (clock w + n + 1)%nat /\ cache w' = cache w /\
    exists evs, trace w' = trace w ++ evs /\
                delays evs = backoffs 1 n /\
                bucket_calls evs = repeat e (S n).
Proof.
  intros Hcall He Hans Hn n Hfail Hlast; unfold retryAsync, retry_fuel.
  apply (retry_loop_all_fail T env fn e answer Hcall He Hans (maxAttempts_of env)
           n _ 0 w last); try assumption; unfold n; lia.
Qed.

Lemma retries_exhausted_witness :
  let env := Scenario.env_of
               (Scenario.flaky 5 (Scenario.bucket_of (Scenario.keyring_store 10)))
               (Some 2) in
  exists w',
    retryAsync env (r2_head env keyringFilename) Scenario.start
      = (Throw (R2Error "unavailable"), w') /\
    clock w' = 3%nat /\
    exists evs, trace w' = evs /\ delays evs = [1000; 2000].
Proof.
  intros env.
  destruct (retries_exhausted env (r2_head env keyringFilename) (R2Head keyringFilename)
              _ Scenario.start (R2Error "unavailable")
              (r2_head_call env keyringFilename) eq_refl
              (r2_head_answers env keyringFilename))
    as (w' & Hr & Hc & _ & evs & Ht & Hd & _).
  - subst env; cbn; lia.
  - intros [|[|i]] Hi; [eexists; reflexivity|eexists; reflexivity|subst env; cbn in Hi; lia].
  - reflexivity.
  - exists w'; split; [exact Hr|split; [exact Hc|]].
    exists evs; split; [exact Ht|exact Hd].
Defined.

(** ** A budget below -1 *)

Lemma retryAsync_unreachable {T} env (fn : M T) w :
  maxAttempts_of env < -1 ->
  retryAsync env fn w = (Throw ErrorUnreachable, w).
Proof.
  intros Hn; unfold retryAsync, retry_fuel; rewrite retry_loop_S.
  destruct (Z.eqb_spec (maxAttempts_of env) (-1)); [lia|].
  destruct (Z.leb_spec 0 (maxAttempts_of env)); [lia|reflexivity].
Qed.

(** X4: with [R2_RETRIES] below [-1] the loop of the wrapper is never
    entered: every GET or HEAD that misses the cache and has an object key
    ends with the [Error] built after the loop, and the bucket is not
    called. *)
Theorem budget_below_minus_one `{Platform} (request : Request) (env : Env)
  (w : World) (key : string) :
  enters_pipeline request env w key ->
  maxAttempts_of env < -1 ->
  fetch request env w = (Throw ErrorUnreachable, miss_world request env w).
Proof.
  intros He Hn; rewrite (fetch_pipeline request env w key He).
  assert (Hres : resolve request env key (miss_world request env w)
                 = (Throw ErrorUnreachable, miss_world request env w)).
  { unfold resolve, range_stage, if_match_stage, if_none_match_stage, final_fetch.
    repeat (unfold bind at 1; rewrite ?retryAsync_unreachable by exact Hn;
            unfold ret; cbn [fst snd]);
    repeat match goal with
           | |- context [if ?b then _ else _] => destruct b
           | |- context [match headers_get ?h ?n with _ => _ end] =>
               destruct (headers_get h n) as [[|? ?]|]
           | |- _ => progress (unfold bind; rewrite ?retryAsync_unreachable by exact Hn;
                               unfold ret; cbn [fst snd])
           | |- _ => reflexivity
           end. }
  unfold call, bind at 1; rewrite Hres; reflexivity.
Qed.

Lemma budget_below_minus_one_witness :
  let request := Scenario.get_keyring [] in
  let env := Scenario.env_of (Scenario.bucket_of (Scenario.keyring_store 10)) (Some (-2)) in
  @fetch Scenario.host request env Scenario.start
    = (Throw ErrorUnreachable, @miss_world request env Scenario.start) /\
  clock (@miss_world request env Scenario.start) = 0%nat.
Proof.
  intros request env; split; [|reflexivity].
  apply (@budget_below_minus_one Scenario.host request env Scenario.start keyringFilename);
    [split; reflexivity|subst env; cbn; lia].
Defined.

(** ** Methods and keys *)

Lemma miss_world_quiet `{Platform} request env w :
  clock (miss_world request env w) = clock w /\
  cache (miss_world request env w) = cache w /\
  bucket_calls (trace (miss_world request env w)) = bucket_calls (trace w).
Proof.
  rewrite miss_world_eq; unfold log_miss, cache_stage, cache_match, when, emit, ret.
  destruct (logging env), (isCachingEnabled env); cbn [snd clock cache trace];
    repeat split; repeat rewrite bucket_calls_app; cbn; rewrite ?app_nil_r; reflexivity.
Qed.

(** X5: a request whose method is not GET, HEAD or OPTIONS is answered 405
    with the text [Method Not Allowed] and the header
    [allow: GET, HEAD, OPTIONS]; an OPTIONS request is answered 200 with no
    body and the same header. Neither looks into the cache nor calls the
    bucket: the world is left as it is. *)
Theorem method_gate `{Platform} (request : Request) (env : Env) (w : World) :
  (includes allowedMethods (method request) = false ->
   fetch request env w =
   (Normal {| body := Some (BodyText "Method Not Allowed");
              status := 405;
              response_headers := [("allow", "GET, HEAD, OPTIONS")] |}, w)) /\
  (method request = "OPTIONS" ->
   fetch request env w =
   (Normal {| body := None;
              status := 200;
              response_headers := [("allow", "GET, HEAD, OPTIONS")] |}, w)).
Proof.
  split.
  - intros Hm; unfold fetch, call, fetch_body; rewrite Hm; reflexivity.
  - intros Hm; unfold fetch, call, fetch_body; rewrite Hm; reflexivity.
Qed.

Lemma method_gate_witness :
  let env := Scenario.env_of (Scenario.bucket_of (Scenario.keyring_store 10)) None in
  fst (@fetch Scenario.host (Scenario.request_of "POST" Scenario.keyring_url []) env
         Scenario.start)
  = Normal {| body := Some (BodyText "Method Not Allowed");
              status := 405;
              response_headers := [("allow", "GET, HEAD, OPTIONS")] |} /\
  fst (@fetch Scenario.host (Scenario.request_of "OPTIONS" Scenario.keyring_url []) env
         Scenario.start)
  = Normal {| body := None; status := 200;
              response_headers := [("allow", "GET, HEAD, OPTIONS")] |}.
Proof.
  intros env; split.
  - rewrite (proj1 (@method_gate Scenario.host
                      (Scenario.request_of "POST" Scenario.keyring_url []) env
                      Scenario.start) eq_refl); reflexivity.
  - rewrite (proj2 (@method_gate Scenario.host
                      (Scenario.request_of "OPTIONS" Scenario.keyring_url []) env
                      Scenario.start) eq_refl); reflexivity.
Defined.

(** X6: with the same non-empty [de] and [nvidia] parameters, the download
    path has the key
    [secureblue-<de>-<nvidia>-hardened-<DATE_SUFFIX>.iso] and the checksum
    path has that key followed by [-CHECKSUM]; a [DATE_SUFFIX] that is not
    set shows as [undefined] in the key. *)
Theorem download_keys (env : Env) (iso sum : URL) (de nvidia : string) :
  pathname iso = isoDownloadPath ->
  pathname sum = checksumDownloadPath ->
  searchParams sum = searchParams iso ->
  headers_get (searchParams iso) "de" = Some de -> de <> EmptyString ->
  headers_get (searchParams iso) "nvidia" = Some nvidia -> nvidia <> EmptyString ->
  let key := ("secureblue-" ++ de ++ "-" ++ nvidia ++ "-hardened-" ++
              match DATE_SUFFIX env with
              | Some n => toString n
              | None => "undefined"
              end ++ ".iso")%string in
  object_key env iso = inr key /\
  object_key env sum = inr (key ++ "-CHECKSUM")%string.
Proof.
  intros Hiso Hsum Hsp Hde Hdne Hnv Hnne key.
  unfold object_key; rewrite Hsum, Hsp, Hiso, Hde, Hnv.
  destruct de as [|c1 s1]; [congruence|].
  destruct nvidia as [|c2 s2]; [congruence|].
  split; reflexivity.
Qed.

Lemma download_keys_witness :
  let env := Scenario.env_of (Scenario.bucket_of Scenario.empty_store) None in
  object_key env (Scenario.download_url "/download")
    = inr "secureblue-gnome-main-hardened-20240101.iso" /\
  object_key env (Scenario.download_url "/downloadSHA256SUM")
    = inr "secureblue-gnome-main-hardened-20240101.iso-CHECKSUM".
Proof.
  intros env.
  apply (download_keys env (Scenario.download_url "/download")
           (Scenario.download_url "/downloadSHA256SUM") "gnome" "main");
    try reflexivity; discriminate.
Defined.

(** X7: a GET or HEAD that misses the cache is answered 400 with the text
    [Missing parameters] when its path is one of the two download paths and
    [de] or [nvidia] is missing or empty, and 404 with the text [Not Found]
    when its path is neither a download path nor the keyring; in both cases
    the bucket is not called. *)
Theorem key_errors `{Platform} (request : Request) (env : Env) (w : World) :
  is_miss request env w = true ->
  let u := url request in
  let answered r :=
    fetch request env w = (Normal r, miss_world request env w) /\
    clock (miss_world request env w) = clock w /\
    bucket_calls (trace (miss_world request env w)) = bucket_calls (trace w) in
  ((pathname u = isoDownloadPath \/ pathname u = checksumDownloadPath) ->
   (truthy (headers_get (searchParams u) "de") = false \/
    truthy (headers_get (searchParams u) "nvidia") = false) ->
   answered (text_response "Missing parameters" 400)) /\
  (pathname u <> isoDownloadPath -> pathname u <> checksumDownloadPath ->
   slice1 (pathname u) <> keyringFilename ->
   answered (text_response "Not Found" 404)).
Proof.
  intros Hm u answered.
  assert (Hinl : forall r, object_key env u = inl r -> answered r).
  { intros r Hk; unfold answered.
    destruct (miss_world_quiet request env w) as (Hc & _ & Hb).
    split; [|split; assumption].
    rewrite (fetch_miss request env w Hm).
    unfold call, pipeline, resolve_key; fold u; rewrite Hk; reflexivity. }
  split.
  - intros Hpath Hparams; apply Hinl; unfold object_key.
    assert (Hp : String.eqb (pathname u) isoDownloadPath
                 || String.eqb (pathname u) checksumDownloadPath = true).
    { destruct Hpath as [-> | ->]; reflexivity. }
    rewrite Hp.
    destruct (headers_get (searchParams u) "de") as [[|c1 s1]|];
      destruct (headers_get (searchParams u) "nvidia") as [[|c2 s2]|];
      try reflexivity.
    destruct Hparams; discriminate.
  - intros Hiso Hsum Hkey; apply Hinl; unfold object_key.
    apply String.eqb_neq in Hiso, Hsum, Hkey.
    rewrite Hiso, Hsum, Hkey; reflexivity.
Qed.

Lemma key_errors_witness :
  let env := Scenario.env_of (Scenario.bucket_of (Scenario.keyring_store 10)) None in
  let incomplete :=
    Scenario.request_of "GET"
      {| href := "https://example.org/download?de=gnome";
         pathname := "/download"; searchParams := [("de", "gnome")] |} [] in
  let unknown :=
    Scenario.request_of "GET"
      {| href := "https://example.org/index.html";
         pathname := "/index.html"; searchParams := [] |} [] in
  fst (@fetch Scenario.host incomplete env Scenario.start)
    = Normal (text_response "Missing parameters" 400) /\
  fst (@fetch Scenario.host unknown env Scenario.start)
    = Normal (text_response "Not Found" 404).
Proof.
  intros env incomplete unknown; split.
  - destruct (@key_errors Scenario.host incomplete env Scenario.start eq_refl) as [H400 _].
    destruct H400 as [Hf _]; [left; reflexivity|right; reflexivity|].
    rewrite Hf; reflexivity.
  - destruct (@key_errors Scenario.host unknown env Scenario.start eq_refl) as [_ H404].
    destruct H404 as [Hf _]; try discriminate.
    rewrite Hf; reflexivity.
Defined.

(** ** Entity tags *)

Lemma quote_not_white_space c : is_quote c = true -> is_white_space c = false.
Proof.
  unfold is_quote, is_white_space; intros Hq.
  apply orb_true_iff in Hq; destruct Hq as [Hq|Hq]; apply Nat.eqb_eq in Hq;
    rewrite Hq; reflexivity.
Qed.

Lemma trimStart_white_space ws s :
  all_white_space ws = true -> trimStart (ws ++ s) = trimStart s.
Proof.
  induction ws as [|c ws IH]; [reflexivity|]; cbn [all_white_space append trimStart].
  intros Hw; apply andb_prop in Hw; destruct Hw as [Hc Hw].
  rewrite Hc; apply IH; exact Hw.
Qed.

Lemma trimEnd_white_space ws : all_white_space ws = true -> trimEnd ws = EmptyString.
Proof.
  induction ws as [|c ws IH]; [reflexivity|]; cbn [all_white_space trimEnd].
  intros Hw; apply andb_prop in Hw; destruct Hw as [Hc Hw].
  rewrite (IH Hw), Hc; reflexivity.
Qed.

Lemma trimEnd_last s c ws :
  is_white_space c = false -> all_white_space ws = true ->
  trimEnd (s ++ String c ws) = (s ++ String c EmptyString)%string.
Proof.
  intros Hc Hw; induction s as [|a s IH]; cbn [append trimEnd].
  - rewrite (trimEnd_white_space ws Hw), Hc; reflexivity.
  - rewrite IH; destruct s; reflexivity.
Qed.

Lemma strip_trailing_quote_last t q :
  is_quote q = true -> strip_trailing_quote (t ++ String q EmptyString) = t.
Proof.
  intros Hq; induction t as [|a t IH].
  - cbn [append strip_trailing_quote]; rewrite Hq; reflexivity.
  - change ((String a t ++ String q EmptyString)%string)
      with (String a (t ++ String q EmptyString)).
    assert (Hne : exists c s, (t ++ String q EmptyString)%string = String c s)
      by (destruct t; cbn [append]; eauto).
    destruct Hne as (c & s & Hne); rewrite Hne in *.
    cbn [strip_trailing_quote]; cbn [strip_trailing_quote] in IH.
    rewrite IH; reflexivity.
Qed.

(** The tag of a header value made of a tag between two quote characters,
    with white space around. *)
Lemma getHeaderEtag_quoted ws1 q1 t q2 ws2 :
  all_white_space ws1 = true -> all_white_space ws2 = true ->
  is_quote q1 = true -> is_quote q2 = true ->
  getHeaderEtag (Some (ws1 ++ String q1 (t ++ String q2 ws2))%string) = Some t.
Proof.
  intros H1 H2 Hq1 Hq2; unfold getHeaderEtag, trim; cbn [option_map]; f_equal.
  rewrite (trimStart_white_space ws1 _ H1); cbn [trimStart].
  rewrite (quote_not_white_space q1 Hq1).
  change (String q1 (t ++ String q2 ws2)) with ((String q1 t) ++ String q2 ws2)%string.
  rewrite (trimEnd_last _ q2 ws2 (quote_not_white_space q2 Hq2) H2).
  unfold replace_surrounding_quotes; cbn [append strip_leading_quote]; rewrite Hq1.
  apply strip_trailing_quote_last; exact Hq2.
Qed.

(** A stage made of one conditional [get] through the wrapper and a test
    of its answer: the bucket sees that [get], once per attempt. *)
Lemma conditional_get_calls env key onlyIf range
  (k : option R2File -> M (option R2File)) w :
  (forall f w0, snd (k f w0) = w0) ->
  let w' := snd ((f <- retryAsync env (r2_get_onlyIf env key onlyIf range) ;; k f) w) in
  (exists evs,
     trace w' = trace w ++ evs /\
     bucket_calls evs = repeat (R2Get key (Some onlyIf) range) (clock w' - clock w)) /\
  (-1 <= maxAttempts_of env -> (clock w < clock w')%nat).
Proof.
  intros Hk w'; subst w'; unfold bind.
  destruct (retryAsync env (r2_get_onlyIf env key onlyIf range) w) as [c w2] eqn:E.
  assert (Hw : snd (match c with
                    | Normal a => k a w2
                    | Return r => (Return r, w2)
                    | Throw e => (Throw e, w2)
                    | OutOfFuel => (OutOfFuel, w2)
                    end) = w2).
  { destruct c; [apply Hk|reflexivity|reflexivity|reflexivity]. }
  rewrite Hw; split.
  - destruct (retryAsync_calls _ _ _ _ (r2_get_onlyIf_call env key onlyIf range) eq_refl _ _ _ E)
      as (_ & _ & _ & evs & Ht & Hb).
    exists evs; split; assumption.
  - intros Hbudget.
    exact (retryAsync_attempts _ _ _ _ (r2_get_onlyIf_call env key onlyIf range) eq_refl
             _ _ _ Hbudget E).
Qed.

(** X8: an [If-Match] or [If-None-Match] header whose value is a non-empty
    tag between two quote characters (single or double), with any white
    space around, makes its stage call the bucket with the bare tag: the
    stage runs, and each [get] the bucket sees (one per attempt, at least
    one when the budget is not below [-1]) has the tag without its quotes
    as [etagMatches], respectively as its only condition
    [etagDoesNotMatch]. The [httpEtag] of an object, sent back by a client,
    is compared as its [etag]. *)
Theorem quoted_tag_is_unwrapped `{Platform} (request : Request) (env : Env)
  (key : string) (range : option ParsedRange) (file : option R2File)
  (ws1 ws2 t : string) (q1 q2 : ascii) :
  all_white_space ws1 = true -> all_white_space ws2 = true ->
  is_quote q1 = true -> is_quote q2 = true ->
  t <> EmptyString ->
  let value := (ws1 ++ String q1 (t ++ String q2 ws2))%string in
  (headers_get (headers request) "if-match" = Some value ->
   etagMatches (if_match_condition request) = Some t /\
   forall w,
     let w' := snd (if_match_stage request env key range file w) in
     (exists evs,
        trace w' = trace w ++ evs /\
        bucket_calls evs =
          repeat (R2Get key (Some (if_match_condition request)) range)
                 (clock w' - clock w)) /\
     (-1 <= maxAttempts_of env -> (clock w < clock w')%nat)) /\
  (headers_get (headers request) "if-none-match" = Some value ->
   forall w,
     let w' := snd (if_none_match_stage request env key range file w) in
     let onlyIf := {| etagMatches := None; etagDoesNotMatch := Some t;
                      uploadedBefore := None; uploadedAfter := None |} in
     (exists evs,
        trace w' = trace w ++ evs /\
        bucket_calls evs = repeat (R2Get key (Some onlyIf) range) (clock w' - clock w)) /\
     (-1 <= maxAttempts_of env -> (clock w < clock w')%nat)).
Proof.
  intros H1 H2 Hq1 Hq2 Ht value; split; intros Hh.
  - assert (Htag : ifMatch request = Some t).
    { unfold ifMatch; rewrite Hh; apply getHeaderEtag_quoted; assumption. }
    split; [exact Htag|].
    intros w; unfold if_match_stage; rewrite Htag.
    destruct t as [|c t']; [congruence|]; cbn [truthy truthy_string orb].
    apply conditional_get_calls.
    intros [[o|o b]|] w0; reflexivity.
  - assert (Htag : ifNoneMatch request = Some t).
    { unfold ifNoneMatch; rewrite Hh; apply getHeaderEtag_quoted; assumption. }
    intros w; unfold if_none_match_stage, etagDoesNotMatch_condition; rewrite Htag.
    destruct t as [|c t']; [congruence|]; cbn [truthy truthy_string orb].
    apply conditional_get_calls.
    intros [[o|o b]|] w0; reflexivity.
Qed.

Lemma quoted_tag_is_unwrapped_witness :
  let value := (" " ++ dquote ++ "abc" ++ dquote ++ " ")%string in
  let env := Scenario.env_of (Scenario.bucket_of (Scenario.keyring_store 10)) None in
  let request := Scenario.get_keyring [("if-none-match", value)] in
  bucket_calls
    (trace (snd (@if_none_match_stage Scenario.host request env keyringFilename
                   None None Scenario.start)))
  = [R2Get keyringFilename
       (Some {| etagMatches := None; etagDoesNotMatch := Some "abc";
                uploadedBefore := None; uploadedAfter := None |}) None] /\
  etagMatches (@if_match_condition Scenario.host
                 (Scenario.get_keyring [("if-match", value)])) = Some "abc".
Proof.
  intros value env request; split.
  - destruct (@quoted_tag_is_unwrapped Scenario.host request env keyringFilename
                None None " " " " "abc" "034"%char "034"%char
                eq_refl eq_refl eq_refl eq_refl) as [_ Hnone]; [discriminate|].
    destruct (Hnone eq_refl Scenario.start) as [(evs & Ht & Hb) _].
    rewrite Ht; change (trace Scenario.start ++ evs) with evs.
    rewrite Hb; reflexivity.
  - destruct (@quoted_tag_is_unwrapped Scenario.host
                (Scenario.get_keyring [("if-match", value)]) env keyringFilename
                None None " " " " "abc" "034"%char "034"%char
                eq_refl eq_refl eq_refl eq_refl) as [Hmatch _]; [discriminate|].
    exact (proj1 (Hmatch eq_refl)).
Defined.

(** X9: a weak tag is not dropped by the handler: an [If-None-Match] header
    [W/] followed by a quoted tag makes the second stage run, and the tag
    given to the bucket is the header's value without its last quote. *)
Theorem weak_tag_is_passed_on `{Platform} (request : Request)
  (t : string) (q1 q2 : ascii) :
  is_quote q1 = true -> is_quote q2 = true ->
  headers_get (headers request) "if-none-match"
    = Some ("W/" ++ String q1 (t ++ String q2 EmptyString))%string ->
  truthy (ifNoneMatch request) = true /\
  if_none_match_condition request =
    {| etagMatches := None;
       etagDoesNotMatch := Some ("W/" ++ String q1 t)%string;
       uploadedBefore := None;
       uploadedAfter := None |}.
Proof.
  intros Hq1 Hq2 Hh.
  assert (Htag : ifNoneMatch request = Some ("W/" ++ String q1 t)%string).
  { unfold ifNoneMatch, getHeaderEtag, trim; rewrite Hh; cbn [option_map]; f_equal.
    cbn [append trimStart]; change (is_white_space "W") with false; cbv iota.
    change (String "W" (String "/" (String q1 (t ++ String q2 EmptyString))))
      with ((String "W" (String "/" (String q1 t))) ++ String q2 EmptyString)%string.
    rewrite (trimEnd_last _ q2 EmptyString (quote_not_white_space q2 Hq2) eq_refl).
    unfold replace_surrounding_quotes; cbn [append strip_leading_quote].
    change (is_quote "W") with false; cbv iota.
    apply (strip_trailing_quote_last (String "W" (String "/" (String q1 t))) q2 Hq2). }
  unfold if_none_match_condition, etagDoesNotMatch_condition; rewrite Htag.
  split; reflexivity.
Qed.

Lemma weak_tag_is_passed_on_witness :
  let value := ("W/" ++ dquote ++ "abc" ++ dquote)%string in
  let request := Scenario.get_keyring [("if-none-match", value)] in
  etagDoesNotMatch (@if_none_match_condition Scenario.host request)
    = Some ("W/" ++ dquote ++ "abc")%string.
Proof.
  intros value request.
  destruct (@weak_tag_is_passed_on Scenario.host request "abc" "034"%char "034"%char
              eq_refl eq_refl eq_refl) as [_ Hc].
  rewrite Hc; reflexivity.
Defined.

(** ** Content-Range *)

(** X10: for an object that is not empty and is served with its body, the
    effective range encoded from the parser's range [start, end] against the
    size of the object gives back [content-range: bytes start-end/size] and
    [content-length: end - start + 1], in the suffix form as in the offset
    form. *)
Theorem content_range_round_trip `{Platform} (env : Env) (key : string)
  (o : R2Object) (b : list byte) (r : Range) :
  size o <> 0 ->
  let response :=
    build_response env key (FileObjectBody o b) (Some (encode_range (size o) r)) false in
  status response = 206 /\
  headers_get (response_headers response) "content-range"
    = Some ("bytes " ++ toString (start r) ++ "-" ++ toString (range_end r)
            ++ "/" ++ toString (size o))%string /\
  headers_get (response_headers response) "content-length"
    = Some (toString (range_end r - start r + 1)).
Proof.
  intros Hsize response; unfold response, build_response, content_length.
  cbn [status response_headers hasBody object_of andb].
  destruct (Z.eqb_spec (size o) 0); [contradiction|]; cbn [negb].
  split; [reflexivity|].
  unfold build_headers; cbn [headers_get String.eqb Ascii.eqb Bool.eqb].
  unfold encode_range, getRangeHeader.
  destruct (Z.eqb_spec (size o) (range_end r + 1)) as [E|E].
  - replace (size o - (size o - start r)) with (start r) by lia.
    replace (size o - 1) with (range_end r) by lia.
    replace (size o - start r) with (range_end r - start r + 1) by lia.
    split; reflexivity.
  - replace (start r + (range_end r - start r + 1) - 1) with (range_end r) by lia.
    split; reflexivity.
Qed.

Lemma content_range_round_trip_witness :
  let env := Scenario.env_of (Scenario.bucket_of (Scenario.keyring_store 1000)) None in
  let response :=
    @build_response Scenario.host env keyringFilename
      (FileObjectBody (Scenario.keyring 1000) (repeat x2a 100))
      (Some (encode_range 1000 {| start := 900; range_end := 999 |})) false in
  headers_get (response_headers response) "content-range" = Some "bytes 900-999/1000" /\
  headers_get (response_headers response) "content-length" = Some "100".
Proof.
  intros env response.
  destruct (@content_range_round_trip Scenario.host env keyringFilename
              (Scenario.keyring 1000) (repeat x2a 100)
              {| start := 900; range_end := 999 |}) as (_ & Hr & Hl);
    [discriminate|].
  split; [exact Hr|exact Hl].
Defined.

(** ** HEAD requests *)

Lemma range_stage_HEAD `{Platform} request env key w :
  method request = "HEAD" ->
  range_stage request env key w = (Normal (None, None), w).
Proof. intros Hm; unfold range_stage; rewrite Hm; reflexivity. Qed.

(** The file that reaches the assembly is the answer of the last fetch. *)
Lemma resolve_final `{Platform} request env key w file range w1 :
  resolve request env key w = (Normal (file, range), w1) ->
  exists file2 w0, final_fetch request env key range file2 w0 = (Normal file, w1).
Proof.
  intros Hres; unfold resolve, bind at 1 in Hres.
  destruct (range_stage request env key w) as [[[file0 range0]| | |] wr]; try discriminate.
  cbn [fst snd] in Hres; unfold bind in Hres.
  destruct (if_match_stage _ _ _ _ _ _) as [[f1| | |] wa]; try discriminate.
  destruct (if_none_match_stage _ _ _ _ _ _) as [[f2| | |] wb]; try discriminate.
  destruct (final_fetch _ _ _ _ _ _) as [[f3| | |] wc] eqn:Hff; try discriminate.
  unfold ret in Hres; injection Hres as <- <- <-.
  exists f2, wb; exact Hff.
Qed.

Lemma stored_quiet `{Platform} request env response range notFound w :
  clock (stored request env response range notFound w) = clock w /\
  bucket_calls (trace (stored request env response range notFound w))
    = bucket_calls (trace w).
Proof.
  unfold stored, when, cache_put, ret.
  destruct (cacheable request env range notFound); cbn [snd clock trace];
    split; try reflexivity.
  rewrite bucket_calls_app; cbn; apply app_nil_r.
Qed.

Lemma stored_not_cacheable `{Platform} request env response range notFound w :
  cacheable request env range notFound = false ->
  stored request env response range notFound w = w.
Proof. intros Hc; unfold stored; rewrite Hc; reflexivity. Qed.

(** X11: a HEAD request ignores its [Range] header and never gets a body
    stream: when it reaches the assembly with a file to serve and headers
    that pass the check of the [Response] constructor, it has no effective
    range, the file has no body, and the response has no body, the status
    200 (404 on the fallback), an empty [content-range] and the size of the
    object as [content-length]; nothing is written to the cache. *)
Theorem head_request `{Platform} (request : Request) (env : Env) (w : World)
  (key : string) (file : option R2File) (range : option ParsedRange) (w1 : World)
  (f : R2File) (notFound : bool) (w2 : World) :
  method request = "HEAD" ->
  reaches_assembly request env w key file range w1 ->
  not_found_stage request env file w1 = (Normal (f, notFound), w2) ->
  constructible (response_headers (build_response env key f range notFound)) = true ->
  range = None /\ hasBody f = false /\
  exists response,
    fetch request env w = (Normal response, w2) /\
    body response = None /\
    status response = (if notFound then 404 else 200) /\
    headers_get (response_headers response) "content-range" = Some EmptyString /\
    headers_get (response_headers response) "content-length"
      = Some (toString (size (object_of f))).
Proof.
  intros Hm Hreach Hnf _.
  destruct Hreach as [He Hres].
  assert (Hrange : range = None).
  { exact (resolve_range request env key _ None None _ _ _
             (range_stage_HEAD request env key _ Hm) Hres). }
  subst range.
  assert (Hbody : hasBody f = false).
  { unfold not_found_stage in Hnf.
    destruct file as [f0|].
    - unfold ret in Hnf; injection Hnf as <- <- <-.
      destruct (resolve_final _ _ _ _ _ _ _ Hres) as (file2 & w0 & Hff).
      unfold final_fetch in Hff; rewrite Hm in Hff; cbn [String.eqb Ascii.eqb Bool.eqb] in Hff.
      eapply retryAsync_r2_head_no_body; exact Hff.
    - destruct (NOTFOUND_FILE env) as [[|c s]|]; try discriminate.
      unfold bind, fallback_fetch in Hnf; rewrite Hm in Hnf.
      cbn [String.eqb Ascii.eqb Bool.eqb] in Hnf.
      destruct (retryAsync env (r2_head env (String c s)) w1) as [[[fb|]| | |] wf] eqn:Hfb;
        try discriminate.
      unfold ret in Hnf; injection Hnf as <- <- <-.
      eapply retryAsync_r2_head_no_body; exact Hfb. }
  split; [reflexivity|split; [exact Hbody|]].
  exists (build_response env key f None notFound); split; [|split; [|split; [|split]]].
  - rewrite (fetch_assemble request env w key file None w1) by (split; assumption).
    apply call_Normal.
    rewrite (assemble_served request env key file None w1 f notFound w2 Hnf).
    rewrite stored_not_cacheable; [reflexivity|].
    unfold cacheable; rewrite Hm; reflexivity.
  - unfold build_response; cbn [body].
    destruct (hasBody_false f Hbody) as [o ->]; reflexivity.
  - reflexivity.
  - reflexivity.
  - unfold build_response; cbn [response_headers].
    rewrite content_length_no_range; reflexivity.
Qed.

Lemma head_request_witness :
  let request := Scenario.head_keyring [("range", "bytes=900-999")] in
  let env := Scenario.env_of (Scenario.bucket_of (Scenario.keyring_store 1000)) None in
  exists response w',
    @fetch Scenario.host request env Scenario.start = (Normal response, w') /\
    body response = None /\ status response = 200 /\
    headers_get (response_headers response) "content-length" = Some "1000".
Proof.
  intros request env.
  set (w1 := snd (@resolve Scenario.host request env keyringFilename
                    (@miss_world request env Scenario.start))).
  destruct (@head_request Scenario.host request env Scenario.start keyringFilename
              (Some (FileObject (Scenario.keyring 1000))) None w1
              (FileObject (Scenario.keyring 1000)) false w1 eq_refl)
    as (_ & _ & response & Hf & Hb & Hs & _ & Hl);
    [split; [split|]; reflexivity|reflexivity|reflexivity|].
  exists response, w1; repeat split; assumption.
Defined.

(** ** Bodies that are not fetched twice *)

(** X12: for a request other than HEAD, the body a conditional [get] has
    answered is the one that is served: after the last conditional stage that
    runs has answered a file with its body, the bucket is not called again
    and the response is assembled from that file. *)
Theorem conditional_body_is_served `{Platform} (request : Request) (env : Env)
  (w : World) (key : string) (file : option R2File) (range : option ParsedRange)
  (w1 : World) (o : R2Object) (b : list byte) :
  method request <> "HEAD" ->
  reaches_preconditions request env w key file range w1 ->
  let served_from w3 :=
    reaches_assembly request env w key (Some (FileObjectBody o b)) range w3 /\
    exists w',
      fetch request env w
        = (Normal (build_response env key (FileObjectBody o b) range false), w') /\
      clock w' = clock w3 /\
      bucket_calls (trace w') = bucket_calls (trace w3) in
  (forall w2,
     truthy (ifMatch request) || truthy_number (ifUnmodifiedSince request) = true ->
     truthy (ifNoneMatch request) || truthy_number (ifModifiedSince request) = false ->
     retryAsync env (r2_get_onlyIf env key (if_match_condition request) range) w1
       = (Normal (Some (FileObjectBody o b)), w2) ->
     served_from w2) /\
  (forall f1 w2 w3,
     if_match_stage request env key range file w1 = (Normal f1, w2) ->
     truthy (ifNoneMatch request) || truthy_number (ifModifiedSince request) = true ->
     retryAsync env (r2_get_onlyIf env key (if_none_match_condition request) range) w2
       = (Normal (Some (FileObjectBody o b)), w3) ->
     served_from w3).
Proof.
  intros Hm Hreach served_from.
  apply String.eqb_neq in Hm.
  assert (Hserve : forall w3,
            resolve request env key (miss_world request env w)
              = (Normal (Some (FileObjectBody o b), range), w3) ->
            served_from w3).
  { intros w3 Hres; unfold served_from.
    assert (Hasm : reaches_assembly request env w key (Some (FileObjectBody o b)) range w3)
      by (split; [exact (proj1 Hreach)|exact Hres]).
    split; [exact Hasm|].
    eexists; split; [|apply stored_quiet].
    rewrite (fetch_assemble request env w key _ _ w3 Hasm).
    apply call_Normal, assemble_found. }
  split.
  - intros w2 H1 H2 Hget; apply Hserve.
    rewrite (resolve_preconditions request env w key file range w1 Hreach).
    unfold bind at 1, if_match_stage; rewrite H1.
    unfold bind at 1; rewrite Hget; unfold ret.
    rewrite (if_none_match_stage_skip request env key range _ H2).
    unfold bind, ret, final_fetch; rewrite Hm; reflexivity.
  - intros f1 w2 w3 Hpre H2 Hget; apply Hserve.
    rewrite (resolve_preconditions request env w key file range w1 Hreach).
    unfold bind at 1; rewrite Hpre.
    unfold bind at 1; rewrite (if_none_match_stage_eq request env key range f1 w2 H2).
    unfold bind at 1; rewrite Hget; unfold ret.
    unfold bind, final_fetch; rewrite Hm; reflexivity.
Qed.

Lemma conditional_body_is_served_witness :
  let request := Scenario.get_keyring [("if-match", "abc")] in
  let env := Scenario.env_of (Scenario.bucket_of (Scenario.keyring_store 10)) None in
  exists w',
    @fetch Scenario.host request env Scenario.start
      = (Normal (@build_response Scenario.host env keyringFilename
                   (FileObjectBody (Scenario.keyring 10) (repeat x2a 10)) None false), w') /\
    clock w' = 1%nat.
Proof.
  intros request env.
  set (w1 := @miss_world request env Scenario.start).
  destruct (@conditional_body_is_served Scenario.host request env Scenario.start
              keyringFilename None None w1 (Scenario.keyring 10) (repeat x2a 10))
    as [Hfirst _].
  - discriminate.
  - split; [split; reflexivity|]. exists None; split; reflexivity.
  - destruct (Hfirst (snd (retryAsync env
                             (r2_get_onlyIf env keyringFilename
                                (@if_match_condition Scenario.host request) None) w1))
                eq_refl eq_refl eq_refl) as (_ & w' & Hf & Hc & _).
    exists w'; split; [exact Hf|rewrite Hc; reflexivity].
Defined.

(** ** Objects that are not there *)

Lemma retry_head_absent env name w :
  -1 <= maxAttempts_of env ->
  (forall n, head (R2_BUCKET env) n name = Fulfilled None) ->
  retryAsync env (r2_head env name) w = (Normal None, served (R2Head name) w).
Proof.
  intros Hb Hn; apply retryAsync_success; [exact Hb|].
  unfold r2_head; rewrite Hn; reflexivity.
Qed.

Lemma retry_get_absent env name range w :
  -1 <= maxAttempts_of env ->
  (forall n range, get (R2_BUCKET env) n name range = Fulfilled None) ->
  retryAsync env (r2_get env name range) w
    = (Normal None, served (R2Get name None range) w).
Proof.
  intros Hb Hn; apply retryAsync_success; [exact Hb|].
  unfold r2_get; rewrite Hn; reflexivity.
Qed.

Lemma retry_get_onlyIf_absent env name onlyIf range w :
  -1 <= maxAttempts_of env ->
  (forall n onlyIf range, get_onlyIf (R2_BUCKET env) n name onlyIf range = Fulfilled None) ->
  retryAsync env (r2_get_onlyIf env name onlyIf range) w
    = (Normal None, served (R2Get name (Some onlyIf) range) w).
Proof.
  intros Hb Hn; apply retryAsync_success; [exact Hb|].
  unfold r2_get_onlyIf; rewrite Hn; reflexivity.
Qed.

(** X13: when the bucket has no object under the key of the request, no
    fallback is configured and the budget is at least [-1], every GET or HEAD
    that misses the cache is answered 404 with the text [File Not Found],
    whatever its [Range] and conditional headers: never 412, 304 or 416. *)
Theorem missing_object_is_404 `{Platform} (request : Request) (env : Env)
  (w : World) (key : string) :
  enters_pipeline request env w key ->
  never_has (R2_BUCKET env) key ->
  truthy (NOTFOUND_FILE env) = false ->
  -1 <= maxAttempts_of env ->
  exists w', fetch request env w = (Normal (text_response "File Not Found" 404), w').
Proof.
  intros He (Hhead & Hget & Hcond) Hnf Hb.
  rewrite (fetch_pipeline request env w key He).
  assert (Hres : (exists w1, resolve request env key (miss_world request env w)
                             = (Return (text_response "File Not Found" 404), w1)) \/
                 (exists range w1, resolve request env key (miss_world request env w)
                                   = (Normal (None, range), w1))).
  { unfold resolve, range_stage, if_match_stage, if_none_match_stage, final_fetch.
    repeat match goal with
           | |- context [retryAsync env (r2_head env key) ?w0] =>
               rewrite (retry_head_absent env key w0 Hb Hhead)
           | |- context [retryAsync env (r2_get env key ?r) ?w0] =>
               rewrite (retry_get_absent env key r w0 Hb Hget)
           | |- context [retryAsync env (r2_get_onlyIf env key ?c ?r) ?w0] =>
               rewrite (retry_get_onlyIf_absent env key c r w0 Hb Hcond)
           | |- context [if ?b then _ else _] => destruct b
           | |- context [match headers_get ?h ?n with _ => _ end] =>
               destruct (headers_get h n) as [[|? ?]|]
           | |- _ => progress (unfold bind, ret, return_; cbn [fst snd])
           end; eauto. }
  destruct Hres as [(w1 & Hres)|(range & w1 & Hres)].
  - exists w1; unfold call, bind at 1; rewrite Hres; reflexivity.
  - exists w1; unfold call, bind at 1; rewrite Hres; cbn [fst snd].
    rewrite (assemble_no_fallback request env key range w1 Hnf); reflexivity.
Qed.

Lemma missing_object_is_404_witness :
  let request := Scenario.get_keyring [("if-match", "abc"); ("if-none-match", "xyz")] in
  let env := Scenario.env_of (Scenario.bucket_of Scenario.empty_store) None in
  exists w', @fetch Scenario.host request env Scenario.start
             = (Normal (text_response "File Not Found" 404), w').
Proof.
  intros request env.
  apply (@missing_object_is_404 Scenario.host request env Scenario.start keyringFilename).
  - split; reflexivity.
  - repeat split.
  - reflexivity.
  - subst env; cbn; lia.
Defined.

(** ** The response of the fallback *)

(** The headers lines 266-286 hand to the constructor for a download
    whose [de] parameter holds a line feed are refused by it: the key goes
    into [content-disposition] as it is. The record assembled for such a
    request is not a response of the program, which throws. *)
Lemma line_feed_key_is_refused :
  let request := Scenario.request_of "GET" Scenario.line_feed_url [] in
  let env :=
    Scenario.with_fallback
      (Scenario.env_of (Scenario.bucket_of Scenario.fallback_store) None) "404.html" in
  exists key response w',
    object_key env (url request) = inr key /\
    valid_header_value key = false /\
    @fetch Scenario.host request env Scenario.start = (Normal response, w') /\
    constructible (response_headers response) = false.
Proof.
  intros request env.
  eexists; eexists; eexists; split; [reflexivity|].
  split; [reflexivity|].
  split; [vm_compute; reflexivity|reflexivity].
Qed.

(** X14: on the not-found fallback, when the headers pass the check of the
    [Response] constructor, the response has status 404, empty [etag],
    [last-modified] and [content-range] headers, the size of the fallback
    object as [content-length], and a [content-disposition] that names the
    key of the request, not the fallback; it is not written to the cache. *)
Theorem fallback_response `{Platform} (request : Request) (env : Env) (w : World)
  (key : string) (range : option ParsedRange) (w1 : World)
  (name : string) (fb : R2File) (w2 : World) :
  reaches_assembly request env w key None range w1 ->
  NOTFOUND_FILE env = Some name -> name <> EmptyString ->
  fallback_fetch request env name w1 = (Normal (Some fb), w2) ->
  constructible (response_headers (build_response env key fb range true)) = true ->
  exists response,
    fetch request env w = (Normal response, w2) /\
    constructible (response_headers response) = true /\
    status response = 404 /\
    headers_get (response_headers response) "etag" = Some EmptyString /\
    headers_get (response_headers response) "last-modified" = Some EmptyString /\
    headers_get (response_headers response) "content-range" = Some EmptyString /\
    headers_get (response_headers response) "content-length"
      = Some (toString (size (object_of fb))) /\
    headers_get (response_headers response) "content-disposition"
      = Some ("attachment; filename=" ++ dquote ++ key ++ dquote)%string.
Proof.
  intros Hreach Hnf Hne Hfb Hvalid.
  exists (build_response env key fb range true); split; [|split; [exact Hvalid|]].
  - rewrite (fetch_assemble request env w key None range w1 Hreach).
    apply call_Normal.
    rewrite (assemble_fallback request env key range w1 name fb w2 Hnf Hne Hfb).
    rewrite stored_not_cacheable; [reflexivity|].
    unfold cacheable; rewrite !andb_false_r; reflexivity.
  - unfold build_response; cbn [status response_headers].
    rewrite content_length_fallback.
    repeat split; destruct range; reflexivity.
Qed.

Lemma fallback_response_witness :
  let request := Scenario.get_keyring [] in
  let env :=
    Scenario.with_fallback
      (Scenario.env_of (Scenario.bucket_of Scenario.fallback_store) None) "404.html" in
  exists response w',
    @fetch Scenario.host request env Scenario.start = (Normal response, w') /\
    status response = 404 /\
    headers_get (response_headers response) "content-length" = Some "3" /\
    cache w' = [].
Proof.
  intros request env.
  set (w1 := snd (@resolve Scenario.host request env keyringFilename
                    (@miss_world request env Scenario.start))).
  destruct (@fallback_response Scenario.host request env Scenario.start keyringFilename
              None w1 "404.html"
              (FileObjectBody Scenario.not_found_page [x34; x30; x34])
              (snd (@fallback_fetch request env "404.html" w1)))
    as (response & Hf & _ & Hs & _ & _ & _ & Hl & _);
    [split; [split|]; reflexivity|reflexivity|discriminate|reflexivity|reflexivity|].
  eexists; eexists; split; [exact Hf|split; [exact Hs|split; [exact Hl|reflexivity]]].
Defined.

(** ** What every stage preserves *)

Section Preserves.
Variable step : World -> World -> Prop.
Hypothesis step_refl : forall w, step w w.
Hypothesis step_trans : forall w1 w2 w3, step w1 w2 -> step w2 w3 -> step w1 w3.
Hypothesis step_housekeeping :
  forall w e, housekeeping e = true -> step w (snd (emit e w)).
Variables (key : string) (env : Env).
Hypothesis step_served :
  forall w e, is_bucket_call e = true -> names_only key env e = true ->
              step w (served e w).

Lemma preserves_ret {A} (a : A) : preserves step (ret a).
Proof. intros w c w' E; injection E as _ <-; apply step_refl. Qed.

Lemma preserves_return {A} r : preserves step (@return_ A r).
Proof. intros w c w' E; injection E as _ <-; apply step_refl. Qed.

Lemma preserves_throw {A} e : preserves step (@throw A e).
Proof. intros w c w' E; injection E as _ <-; apply step_refl. Qed.

Lemma preserves_bind {A B} (m : M A) (f : A -> M B) :
  preserves step m -> (forall a, preserves step (f a)) -> preserves step (bind m f).
Proof.
  intros Hm Hf w c w' E; unfold bind in E.
  destruct (m w) as [[a|r|e|] w1] eqn:Em; specialize (Hm _ _ _ Em).
  - eapply step_trans; [exact Hm|]; eapply Hf; exact E.
  - injection E as _ <-; exact Hm.
  - injection E as _ <-; exact Hm.
  - injection E as _ <-; exact Hm.
Qed.

Lemma preserves_log b e :
  housekeeping e = true -> preserves step (when b (emit e)).
Proof.
  intros He w c w' E; destruct b; cbn [when] in E.
  - replace w' with (snd (emit e w)) by (rewrite E; reflexivity).
    apply step_housekeeping; exact He.
  - injection E as _ <-; apply step_refl.
Qed.

Lemma step_logged a err w : step w (logged env a err w).
Proof.
  unfold logged; destruct (logging env); cbn [when].
  - apply step_housekeeping; reflexivity.
  - apply step_refl.
Qed.

Lemma preserves_retry_loop {T} (fn : M T) e fuel n :
  bucket_call fn e -> is_bucket_call e = true -> names_only key env e = true ->
  forall a, preserves step (retry_loop fuel env fn n a).
Proof.
  intros Hcall He Hname; induction fuel as [|fuel IH]; intros a w c w' E.
  - injection E as _ <-; apply step_refl.
  - rewrite retry_loop_S in E.
    destruct ((n =? -1) || (a <=? n)); [|injection E as _ <-; apply step_refl].
    destruct (Hcall w) as [Hw _].
    destruct (fn w) as [c1 w1]; cbn [snd] in Hw; subst w1.
    pose proof (step_served w e He Hname) as Hs.
    destruct c1 as [v|r|err|]; try (injection E as _ <-; exact Hs).
    pose proof (step_logged (a + 1) err (served e w)) as Hl.
    destruct (a + 1 <=? n).
    + apply IH in E.
      eapply step_trans; [exact Hs|]; eapply step_trans; [exact Hl|].
      eapply step_trans; [|exact E].
      apply (step_housekeeping _ (SetTimeout (backoff (a + 1)))); reflexivity.
    + injection E as _ <-; eapply step_trans; [exact Hs|exact Hl].
Qed.

Lemma names_only_key_head : names_only key env (R2Head key) = true.
Proof. cbn; rewrite String.eqb_refl; reflexivity. Qed.

Lemma names_only_key_get onlyIf range : names_only key env (R2Get key onlyIf range) = true.
Proof. cbn; rewrite String.eqb_refl; reflexivity. Qed.

Lemma preserves_head : preserves step (retryAsync env (r2_head env key)).
Proof.
  apply (preserves_retry_loop _ _ _ _ (r2_head_call env key) eq_refl names_only_key_head).
Qed.

Lemma preserves_get range : preserves step (retryAsync env (r2_get env key range)).
Proof.
  apply (preserves_retry_loop _ _ _ _ (r2_get_call env key range) eq_refl
           (names_only_key_get None range)).
Qed.

Lemma preserves_get_onlyIf onlyIf range :
  preserves step (retryAsync env (r2_get_onlyIf env key onlyIf range)).
Proof.
  apply (preserves_retry_loop _ _ _ _ (r2_get_onlyIf_call env key onlyIf range) eq_refl
           (names_only_key_get (Some onlyIf) range)).
Qed.

Lemma preserves_fallback_fetch request name :
  NOTFOUND_FILE env = Some name -> preserves step (fallback_fetch request env name).
Proof.
  intros Hnf; unfold fallback_fetch.
  assert (Hname : forall e, (e = R2Head name \/ exists r, e = R2Get name None r) ->
                            names_only key env e = true).
  { intros e [-> | [r ->]]; cbn; rewrite Hnf, String.eqb_refl; apply orb_true_r. }
  destruct (String.eqb (method request) "HEAD").
  - apply (preserves_retry_loop _ _ _ _ (r2_head_call env name) eq_refl); auto.
  - apply (preserves_retry_loop _ _ _ _ (r2_get_call env name None) eq_refl); eauto.
Qed.

Ltac preserves :=
  repeat first
    [ apply preserves_ret
    | apply preserves_return
    | apply preserves_head
    | apply preserves_get
    | apply preserves_get_onlyIf
    | apply preserves_bind; [|intros]
    | match goal with
      | |- preserves _ (if ?b then _ else _) => destruct b
      | |- preserves _ (match ?x with _ => _ end) => destruct x
      end ].

Lemma preserves_resolve `{Platform} request : preserves step (resolve request env key).
Proof.
  unfold resolve, range_stage, if_match_stage, if_none_match_stage, final_fetch.
  preserves.
Qed.

Lemma preserves_not_found_stage `{Platform} request file :
  preserves step (not_found_stage request env file).
Proof.
  unfold not_found_stage.
  destruct file as [f|]; [apply preserves_ret|].
  destruct (NOTFOUND_FILE env) as [[|c s]|] eqn:Hnf; try apply preserves_return.
  apply preserves_bind; [apply preserves_fallback_fetch; exact Hnf|intros].
  preserves.
Qed.

End Preserves.

(** ** The cache *)

Lemma same_cache_refl w : same_cache w w.
Proof. reflexivity. Qed.

Lemma same_cache_trans w1 w2 w3 : same_cache w1 w2 -> same_cache w2 w3 -> same_cache w1 w3.
Proof. unfold same_cache; congruence. Qed.

Lemma same_cache_emit w e : same_cache w (snd (emit e w)).
Proof. reflexivity. Qed.

Lemma same_cache_served w e : same_cache w (served e w).
Proof. reflexivity. Qed.

Lemma resolve_same_cache `{Platform} request env key :
  preserves same_cache (resolve request env key).
Proof.
  apply (preserves_resolve same_cache same_cache_refl same_cache_trans
           (fun w e _ => same_cache_emit w e) key env
           (fun w e _ _ => same_cache_served w e)).
Qed.

Lemma not_found_stage_same_cache `{Platform} request env file :
  preserves same_cache (not_found_stage request env file).
Proof.
  apply (preserves_not_found_stage same_cache same_cache_refl same_cache_trans
           (fun w e _ => same_cache_emit w e) EmptyString env
           (fun w e _ _ => same_cache_served w e)).
Qed.

(** What a cache write of [fetch] looks like. *)
Lemma pipeline_cache `{Platform} request env w c w' :
  pipeline request env w = (c, w') ->
  cache w' = cache w \/
  exists response,
    c = Normal response /\ cache w' = (request, response) :: cache w /\
    status response = 200 /\ method request = "GET" /\ isCachingEnabled env = true.
Proof.
  intros E; unfold pipeline, resolve_key in E.
  destruct (object_key env (url request)) as [r|key].
  { unfold return_, bind in E; injection E as _ <-; left; reflexivity. }
  unfold assemble, bind, ret in E.
  destruct (resolve request env key w) as [cr w1] eqn:Hres.
  pose proof (resolve_same_cache request env key _ _ _ Hres) as H1; unfold same_cache in H1.
  destruct cr as [[file range]|r|e|]; try (injection E as _ <-; left; exact H1).
  cbn [fst snd] in E.
  destruct (not_found_stage request env file w1) as [cn w2] eqn:Hnf.
  pose proof (not_found_stage_same_cache request env file _ _ _ Hnf) as H2;
    unfold same_cache in H2.
  destruct cn as [[f notFound]|r|e|];
    try (injection E as _ <-; left; congruence).
  cbn [fst snd] in E; unfold when in E.
  destruct (cacheable request env range notFound) eqn:Hc.
  - unfold cache_put in E; injection E as <- <-; right.
    unfold cacheable in Hc.
    apply andb_prop in Hc; destruct Hc as [Hc Hnot].
    apply andb_prop in Hc; destruct Hc as [Hc Hon].
    apply andb_prop in Hc; destruct Hc as [Hget Hr].
    apply String.eqb_eq in Hget; apply negb_true_iff in Hnot; subst notFound.
    destruct range; [discriminate|].
    eexists; repeat split; cbn [cache]; try congruence; assumption.
  - unfold ret in E; injection E as _ <-; left; congruence.
Qed.

(** What the body of [fetch] does to the cache. *)
Lemma fetch_body_cache `{Platform} (request : Request) (env : Env)
  (w : World) (c : Completion Response) (w' : World) :
  fetch_body request env w = (c, w') ->
  cache w' = cache w \/
  exists response,
    c = Normal response /\ cache w' = (request, response) :: cache w /\
    status response = 200 /\ method request = "GET" /\ isCachingEnabled env = true.
Proof.
  unfold fetch_body, return_.
  destruct (negb (includes allowedMethods (method request)));
    [intros E; injection E as _ <-; left; reflexivity|].
  destruct (String.eqb (method request) "OPTIONS");
    [intros E; injection E as _ <-; left; reflexivity|].
  unfold bind at 1; rewrite cache_stage_eq.
  assert (Hcs : cache (snd (cache_stage request env w)) = cache w).
  { unfold cache_stage, cache_match, ret; destruct (isCachingEnabled env); reflexivity. }
  assert (Hlog : forall m w0, cache (snd (when (logging env) (emit m) w0)) = cache w0).
  { intros m w0; destruct (logging env); reflexivity. }
  assert (Hmiss : pipeline request env
                    (snd (log_miss request env (snd (cache_stage request env w))))
                  = (c, w') ->
                  cache w' = cache w \/
                  exists response,
                    c = Normal response /\ cache w' = (request, response) :: cache w /\
                    status response = 200 /\ method request = "GET" /\
                    isCachingEnabled env = true).
  { intros Hp; apply pipeline_cache in Hp.
    unfold log_miss in Hp; rewrite Hlog, Hcs in Hp; exact Hp. }
  destruct (cached request env w) as [r|].
  - destruct (negb (ok r || (status r =? 304))).
    + unfold bind at 1; rewrite log_miss_eq; exact Hmiss.
    + unfold bind, log_hit; rewrite when_emit_eq; unfold ret.
      intros E; injection E as _ <-; left; rewrite Hlog; exact Hcs.
  - unfold bind at 1; rewrite log_miss_eq; exact Hmiss.
Qed.

(** X15: whatever the request, [fetch] leaves the cache as it was or adds
    one entry to it: the response it returns, of status 200, under the
    request itself, which is then a GET served with caching enabled. A
    response of another status (206, 304, 404, ...) or to a HEAD is never
    written. *)
Theorem cache_writes `{Platform} (request : Request) (env : Env)
  (w : World) (c : Completion Response) (w' : World) :
  fetch request env w = (c, w') ->
  cache w' = cache w \/
  exists response,
    c = Normal response /\ cache w' = (request, response) :: cache w /\
    status response = 200 /\ method request = "GET" /\ isCachingEnabled env = true.
Proof.
  intros E; unfold fetch, call in E.
  destruct (fetch_body request env w) as [cb wb] eqn:Eb.
  apply fetch_body_cache in Eb.
  destruct cb as [a|r|e|]; injection E as <- <-;
    destruct Eb as [Hc|(response & Hn & Hrest)]; try (left; exact Hc); try discriminate.
  right; exists response; split; [exact Hn|exact Hrest].
Qed.

Lemma cache_writes_witness :
  let env := Scenario.env_of (Scenario.bucket_of (Scenario.keyring_store 10)) None in
  let request := Scenario.get_keyring [] in
  let run := @fetch Scenario.host request env Scenario.start in
  cache (snd run) = [] \/
  exists response,
    fst run = Normal response /\ cache (snd run) = [(request, response)] /\
    status response = 200 /\ method request = "GET" /\ isCachingEnabled env = true.
Proof.
  intros env request run.
  exact (@cache_writes Scenario.host request env Scenario.start (fst run) (snd run)
           (surjective_pairing run)).
Defined.

(** ** What a request puts in the trace *)

Lemma extends_by_refl P w : extends_by P w w.
Proof. exists []; rewrite app_nil_r; split; reflexivity. Qed.

Lemma extends_by_trans P w1 w2 w3 :
  extends_by P w1 w2 -> extends_by P w2 w3 -> extends_by P w1 w3.
Proof.
  intros (e1 & H1 & P1) (e2 & H2 & P2); exists (e1 ++ e2); split.
  - rewrite H2, H1, app_assoc; reflexivity.
  - rewrite forallb_app, P1, P2; reflexivity.
Qed.

Lemma extends_by_emit (P : Event -> bool) w e : P e = true -> extends_by P w (snd (emit e w)).
Proof. intros He; exists [e]; split; [reflexivity|cbn; rewrite He; reflexivity]. Qed.

Lemma extends_by_served (P : Event -> bool) w e : P e = true -> extends_by P w (served e w).
Proof. intros He; exists [e]; split; [reflexivity|cbn; rewrite He; reflexivity]. Qed.

Lemma preserves_call {A} step (m : M A) g : preserves step m -> preserves step (call m g).
Proof.
  intros Hm w c w' E; unfold call in E.
  destruct (m w) as [[a|r|e|] w1] eqn:Em; injection E as _ <-; eapply Hm; exact Em.
Qed.

Section Extends.
Context `{Platform}.
Variables (P : Event -> bool) (request : Request) (env : Env) (key : string).
Hypothesis P_housekeeping : forall e, housekeeping e = true -> P e = true.
Hypothesis P_calls :
  forall e, is_bucket_call e = true -> names_only key env e = true -> P e = true.
Hypothesis P_cache :
  isCachingEnabled env = true -> forall e, is_cache_event e = true -> P e = true.
Hypothesis key_of_request : forall k, object_key env (url request) = inr k -> k = key.

Lemma resolve_extends : preserves (extends_by P) (resolve request env key).
Proof.
  apply (preserves_resolve (extends_by P) (extends_by_refl P) (extends_by_trans P)
           (fun w e He => extends_by_emit P w e (P_housekeeping e He)) key env
           (fun w e Hb Hn => extends_by_served P w e (P_calls e Hb Hn))).
Qed.

Lemma not_found_stage_extends file :
  preserves (extends_by P) (not_found_stage request env file).
Proof.
  apply (preserves_not_found_stage (extends_by P) (extends_by_refl P) (extends_by_trans P)
           (fun w e He => extends_by_emit P w e (P_housekeeping e He)) key env
           (fun w e Hb Hn => extends_by_served P w e (P_calls e Hb Hn))).
Qed.

Lemma assemble_extends file range :
  preserves (extends_by P) (assemble request env key file range).
Proof.
  unfold assemble.
  apply (preserves_bind _ (extends_by_trans P)); [apply not_found_stage_extends|intros fn].
  apply (preserves_bind _ (extends_by_trans P));
    [|intros; apply (preserves_ret _ (extends_by_refl P))].
  intros w c w' E; unfold when in E.
  destruct (cacheable request env range (snd fn)) eqn:Hc.
  - unfold cache_put in E; injection E as _ <-.
    exists [CachePut request (build_response env key (fst fn) range (snd fn))].
    split; [reflexivity|].
    cbn [forallb]; rewrite P_cache; [reflexivity| |reflexivity].
    unfold cacheable in Hc.
    apply andb_prop in Hc; destruct Hc as [Hc _].
    apply andb_prop in Hc; destruct Hc as [_ Hon]; exact Hon.
  - injection E as _ <-; apply extends_by_refl.
Qed.

Lemma pipeline_extends : preserves (extends_by P) (pipeline request env).
Proof.
  intros w c w' E; unfold pipeline, resolve_key in E.
  destruct (object_key env (url request)) as [r|k] eqn:Hk.
  - unfold return_, bind in E; injection E as _ <-; apply extends_by_refl.
  - rewrite (key_of_request k eq_refl), bind_ret in E.
    revert E; apply (preserves_bind _ (extends_by_trans P));
      [apply resolve_extends|intros; apply assemble_extends].
Qed.

Lemma fetch_extends : preserves (extends_by P) (fetch request env).
Proof.
  apply preserves_call; unfold fetch_body.
  destruct (negb (includes allowedMethods (method request)));
    [apply (preserves_return _ (extends_by_refl P))|].
  destruct (String.eqb (method request) "OPTIONS");
    [apply (preserves_return _ (extends_by_refl P))|].
  assert (Hlog : forall m a, preserves (extends_by P)
                               (when (logging env) (emit (ConsoleWarn m a)))).
  { intros m a; apply (preserves_log _ (extends_by_refl P)); [|reflexivity].
    intros w e He; apply extends_by_emit, P_housekeeping, He. }
  apply (preserves_bind _ (extends_by_trans P)).
  - unfold cache_stage; destruct (isCachingEnabled env) eqn:Hon;
      [|apply (preserves_ret _ (extends_by_refl P))].
    intros w c w' E; unfold cache_match in E; injection E as _ <-.
    apply (extends_by_emit P w (CacheMatch request)), (P_cache eq_refl); reflexivity.
  - intros [r|].
    + destruct (negb (ok r || (status r =? 304))).
      * apply (preserves_bind _ (extends_by_trans P)); [apply Hlog|intros; apply pipeline_extends].
      * apply (preserves_bind _ (extends_by_trans P));
          [apply Hlog|intros; apply (preserves_ret _ (extends_by_refl P))].
    + apply (preserves_bind _ (extends_by_trans P)); [apply Hlog|intros; apply pipeline_extends].
Qed.

End Extends.

(** X16: with [CACHE_CONTROL] set to [no-store] the handler neither looks
    into the cache nor writes to it, whatever the request. *)
Theorem caching_disabled `{Platform} (request : Request) (env : Env)
  (w : World) (c : Completion Response) (w' : World) :
  isCachingEnabled env = false ->
  fetch request env w = (c, w') ->
  cache w' = cache w /\ extends_by not_cache_event w w'.
Proof.
  intros Hoff E; split.
  - unfold fetch, call in E.
    destruct (fetch_body request env w) as [cb wb] eqn:Eb.
    apply fetch_body_cache in Eb.
    assert (Hw : wb = w') by (destruct cb; injection E as _ <-; reflexivity).
    subst wb; destruct Eb as [Hc|(r & _ & _ & _ & _ & Hon)]; [exact Hc|congruence].
  - set (key := match object_key env (url request) with
                | inr k => k
                | inl _ => EmptyString
                end).
    apply (fetch_extends not_cache_event request env key) with (c := c); [| | | |exact E].
    + intros e He; destruct e; try discriminate; reflexivity.
    + intros e He _; destruct e; try discriminate; reflexivity.
    + congruence.
    + intros k Hk; unfold key; rewrite Hk; reflexivity.
Qed.

Lemma caching_disabled_witness :
  let env :=
    {| R2_BUCKET := Scenario.bucket_of (Scenario.keyring_store 10);
       ALLOWED_ORIGINS := None; CACHE_CONTROL := Some "no-store";
       NOTFOUND_FILE := None; LOGGING := Some true; R2_RETRIES := None;
       DATE_SUFFIX := None |} in
  let run := @fetch Scenario.host (Scenario.get_keyring []) env Scenario.start in
  cache (snd run) = [] /\ extends_by not_cache_event Scenario.start (snd run).
Proof.
  intros env run.
  exact (@caching_disabled Scenario.host (Scenario.get_keyring []) env Scenario.start
           (fst run) (snd run) eq_refl (surjective_pairing run)).
Defined.

(** X17: the only objects a request asks the bucket for are the object of
    its key and the configured not-found fallback. *)
Theorem bucket_names `{Platform} (request : Request) (env : Env) (key : string)
  (w : World) (c : Completion Response) (w' : World) :
  object_key env (url request) = inr key ->
  fetch request env w = (c, w') ->
  extends_by (names_only key env) w w'.
Proof.
  intros Hk E.
  apply (fetch_extends (names_only key env) request env key) with (c := c); [| | | |exact E].
  - intros e He; destruct e; try discriminate; reflexivity.
  - intros e _ Hn; exact Hn.
  - intros _ e He; destruct e; try discriminate; reflexivity.
  - intros k Hk'; congruence.
Qed.

Lemma bucket_names_witness :
  let env :=
    Scenario.with_fallback
      (Scenario.env_of (Scenario.bucket_of Scenario.fallback_store) None) "404.html" in
  let run := @fetch Scenario.host (Scenario.get_keyring []) env Scenario.start in
  extends_by (names_only keyringFilename env) Scenario.start (snd run) /\
  bucket_calls (trace (snd run))
    = [R2Get keyringFilename None None; R2Get "404.html" None None].
Proof.
  intros env run; split; [|reflexivity].
  exact (@bucket_names Scenario.host (Scenario.get_keyring []) env keyringFilename
           Scenario.start (fst run) (snd run) eq_refl (surjective_pairing run)).
Defined.

(** X18: a cached response whose status is in 200..299 or is 304 is returned
    as it is to a GET or a HEAD, whatever the path and the headers of the
    request: the key is not resolved, no precondition is evaluated, the
    bucket is not called and the cache is not written. *)
Theorem cache_hit `{Platform} (request : Request) (env : Env) (w : World)
  (response : Response) :
  method request = "GET" \/ method request = "HEAD" ->
  isCachingEnabled env = true ->
  cache_lookup (cache w) request = Some response ->
  ok response = true \/ status response = 304 ->
  exists w',
    fetch request env w = (Normal response, w') /\
    clock w' = clock w /\ cache w' = cache w /\
    bucket_calls (trace w') = bucket_calls (trace w).
Proof.
  intros Hm Hon Hlook Hok.
  exists (snd (log_hit request env (snd (cache_stage request env w)))).
  assert (Hhit : negb (ok response || (status response =? 304)) = false).
  { destruct Hok as [-> | ->]; [reflexivity|apply negb_false_iff, orb_true_r]. }
  split.
  - unfold fetch, call, fetch_body.
    replace (negb (includes allowedMethods (method request))) with false
      by (destruct Hm as [-> | ->]; reflexivity).
    replace (String.eqb (method request) "OPTIONS") with false
      by (destruct Hm as [-> | ->]; reflexivity).
    unfold bind at 1; rewrite cache_stage_eq.
    unfold cached; rewrite Hon, Hlook, Hhit.
    unfold bind, log_hit; rewrite when_emit_eq; reflexivity.
  - destruct (log_hit_quiet request env (snd (cache_stage request env w))) as (Hc & Hk & Hb).
    rewrite Hc, Hk, Hb; unfold cache_stage, cache_match; rewrite Hon; cbn [snd clock cache trace].
    repeat split.
    rewrite bucket_calls_app; cbn; apply app_nil_r.
Qed.

Lemma cache_hit_witness :
  let request :=
    Scenario.request_of "HEAD"
      {| href := "https://example.org/index.html";
         pathname := "/index.html"; searchParams := [] |}
      [("if-match", "xyz")] in
  let env := Scenario.env_of (Scenario.bucket_of Scenario.empty_store) None in
  let cached := {| body := None; status := 304; response_headers := [] |} in
  let w := {| clock := 0; cache := [(request, cached)]; trace := [] |} in
  exists w', @fetch Scenario.host request env w = (Normal cached, w') /\ clock w' = 0%nat.
Proof.
  intros request env cached w.
  destruct (@cache_hit Scenario.host request env w cached) as (w' & Hf & Hc & _);
    [right; reflexivity|reflexivity| |right; reflexivity|].
  - apply cache_lookup_put.
  - exists w'; split; [exact Hf|exact Hc].
Defined.

(** ** How many calls a request makes *)

Lemma calls_within_ret {A} (a : A) k : calls_within (ret a) k.
Proof. intros w c w' E; injection E as _ <-; lia. Qed.

Lemma calls_within_return {A} r k : calls_within (@return_ A r) k.
Proof. intros w c w' E; injection E as _ <-; lia. Qed.

Lemma calls_within_bind {A B} (m : M A) (f : A -> M B) a b k :
  calls_within m a -> (forall x, calls_within (f x) b) -> (a + b <= k)%nat ->
  calls_within (bind m f) k.
Proof.
  intros Hm Hf Hk w c w' E; unfold bind in E.
  destruct (m w) as [[x|r|e|] w1] eqn:Em; specialize (Hm _ _ _ Em).
  - specialize (Hf x _ _ _ E); lia.
  - injection E as _ <-; lia.
  - injection E as _ <-; lia.
  - injection E as _ <-; lia.
Qed.

Lemma calls_within_log b e k : calls_within (when b (emit e)) k.
Proof. intros w c w' E; destruct b; injection E as _ <-; cbn [clock]; lia. Qed.

Lemma calls_within_retry_loop {T} env (fn : M T) e n fuel :
  bucket_call fn e -> forall a, calls_within (retry_loop fuel env fn n a) fuel.
Proof.
  intros Hcall; induction fuel as [|fuel IH]; intros a w c w' E.
  - injection E as _ <-; lia.
  - rewrite retry_loop_S in E.
    destruct ((n =? -1) || (a <=? n)); [|injection E as _ <-; lia].
    destruct (Hcall w) as [Hw _].
    destruct (fn w) as [c1 w1]; cbn [snd] in Hw; subst w1.
    destruct c1 as [v|r|err|]; try (injection E as _ <-; unfold served; cbn [clock]; lia).
    destruct (a + 1 <=? n).
    + apply IH in E; unfold slept, sleep, emit in E; cbn [snd clock] in E.
      rewrite logged_clock in E; unfold served in E; cbn [clock] in E; lia.
    + injection E as _ <-; rewrite logged_clock; unfold served; cbn [clock]; lia.
Qed.

Section Calls.
Context `{Platform}.
Variables (request : Request) (env : Env).

Lemma calls_within_head name k :
  (retry_fuel (maxAttempts_of env) <= k)%nat ->
  calls_within (retryAsync env (r2_head env name)) k.
Proof.
  intros Hk w c w' E.
  pose proof (calls_within_retry_loop env _ _ _ _ (r2_head_call env name) 0 w c w' E); lia.
Qed.

Lemma calls_within_get name range k :
  (retry_fuel (maxAttempts_of env) <= k)%nat ->
  calls_within (retryAsync env (r2_get env name range)) k.
Proof.
  intros Hk w c w' E.
  pose proof (calls_within_retry_loop env _ _ _ _ (r2_get_call env name range) 0 w c w' E);
    lia.
Qed.

Lemma calls_within_get_onlyIf name onlyIf range k :
  (retry_fuel (maxAttempts_of env) <= k)%nat ->
  calls_within (retryAsync env (r2_get_onlyIf env name onlyIf range)) k.
Proof.
  intros Hk w c w' E.
  pose proof (calls_within_retry_loop env _ _ _ _
                (r2_get_onlyIf_call env name onlyIf range) 0 w c w' E); lia.
Qed.

(** Each stage is one operation on the bucket at most. *)
Ltac one_operation :=
  repeat first
    [ apply calls_within_ret
    | apply calls_within_return
    | apply calls_within_head; lia
    | apply calls_within_get; lia
    | apply calls_within_get_onlyIf; lia
    | apply (calls_within_bind _ _ (retry_fuel (maxAttempts_of env)) 0); [| intros | lia]
    | match goal with
      | |- calls_within (if ?b then _ else _) _ => destruct b
      | |- calls_within (match ?x with _ => _ end) _ => destruct x
      end ].

Lemma range_stage_calls key :
  calls_within (range_stage request env key) (retry_fuel (maxAttempts_of env)).
Proof. unfold range_stage; one_operation. Qed.

Lemma if_match_stage_calls key range file :
  calls_within (if_match_stage request env key range file)
    (retry_fuel (maxAttempts_of env)).
Proof. unfold if_match_stage; one_operation. Qed.

Lemma if_none_match_stage_calls key range file :
  calls_within (if_none_match_stage request env key range file)
    (retry_fuel (maxAttempts_of env)).
Proof. unfold if_none_match_stage; one_operation. Qed.

Lemma final_fetch_calls key range file :
  calls_within (final_fetch request env key range file)
    (retry_fuel (maxAttempts_of env)).
Proof. unfold final_fetch; one_operation. Qed.

Lemma not_found_stage_calls file :
  calls_within (not_found_stage request env file) (retry_fuel (maxAttempts_of env)).
Proof. unfold not_found_stage, fallback_fetch; one_operation. Qed.

Lemma resolve_calls key :
  calls_within (resolve request env key) (4 * retry_fuel (maxAttempts_of env)).
Proof.
  set (F := retry_fuel (maxAttempts_of env)); unfold resolve.
  apply (calls_within_bind _ _ F (3 * F)); [apply range_stage_calls|intros fr|lia].
  apply (calls_within_bind _ _ F (2 * F)); [apply if_match_stage_calls|intros f1|lia].
  apply (calls_within_bind _ _ F F); [apply if_none_match_stage_calls|intros f2|lia].
  apply (calls_within_bind _ _ F 0); [apply final_fetch_calls|intros f3|lia].
  apply calls_within_ret.
Qed.

Lemma assemble_calls key file range :
  calls_within (assemble request env key file range) (retry_fuel (maxAttempts_of env)).
Proof.
  set (F := retry_fuel (maxAttempts_of env)); unfold assemble.
  apply (calls_within_bind _ _ F 0); [apply not_found_stage_calls|intros fn|lia].
  apply (calls_within_bind _ _ 0 0); [|intros; apply calls_within_ret|lia].
  intros w c w' E; unfold when, cache_put, ret in E.
  destruct (cacheable request env range (snd fn)); injection E as _ <-; cbn [clock]; lia.
Qed.

Lemma pipeline_calls :
  calls_within (pipeline request env) (5 * retry_fuel (maxAttempts_of env)).
Proof.
  set (F := retry_fuel (maxAttempts_of env)); unfold pipeline, resolve_key.
  apply (calls_within_bind _ _ 0 (5 * F)); [|intros key|lia].
  - destruct (object_key env (url request));
      [apply calls_within_return|apply calls_within_ret].
  - apply (calls_within_bind _ _ (4 * F) F);
      [apply resolve_calls|intros; apply assemble_calls|lia].
Qed.

End Calls.

(** X19: a request makes the bucket serve at most five operations (the
    metadata for the range, two conditional gets, the last fetch and the
    fallback), each attempted at most once more than the retry budget: at
    most [5 * (n + 1)] calls under a budget [n >= 0], at most 5 otherwise. *)
Theorem bucket_calls_bound `{Platform} (request : Request) (env : Env)
  (w : World) (c : Completion Response) (w' : World) :
  fetch request env w = (c, w') ->
  (clock w <= clock w' <= clock w + 5 * (Z.to_nat (maxAttempts_of env) + 1))%nat.
Proof.
  intros E.
  assert (Hbody : calls_within (fetch_body request env)
                    (5 * retry_fuel (maxAttempts_of env))).
  { unfold fetch_body.
    destruct (negb _); [apply calls_within_return|].
    destruct (String.eqb _ _); [apply calls_within_return|].
    apply (calls_within_bind _ _ 0 (5 * retry_fuel (maxAttempts_of env))); [| |lia].
    - intros w0 c0 w0' E0; unfold cache_stage, cache_match, ret in E0.
      destruct (isCachingEnabled env); injection E0 as _ <-; cbn [clock]; lia.
    - intros [r|].
      + destruct (negb _).
        * apply (calls_within_bind _ _ 0 (5 * retry_fuel (maxAttempts_of env)));
            [apply calls_within_log|intros; apply pipeline_calls|lia].
        * apply (calls_within_bind _ _ 0 0);
            [apply calls_within_log|intros; apply calls_within_ret|lia].
      + apply (calls_within_bind _ _ 0 (5 * retry_fuel (maxAttempts_of env)));
          [apply calls_within_log|intros; apply pipeline_calls|lia].
  }
  unfold fetch, call in E.
  destruct (fetch_body request env w) as [cb wb] eqn:Eb.
  specialize (Hbody _ _ _ Eb); unfold retry_fuel in Hbody.
  destruct cb; injection E as _ <-; lia.
Qed.

(** The bound is reached: range, two conditions, an object that vanishes
    after the first call, and a fallback. *)
Lemma bucket_calls_bound_witness :
  let request :=
    Scenario.get_keyring
      [("range", "bytes=900-999"); ("if-match", "abc"); ("if-none-match", "xyz")] in
  let env := Scenario.with_fallback (Scenario.env_of Scenario.vanishing None) "404.html" in
  let run := @fetch Scenario.host request env Scenario.start in
  (0 <= clock (snd run) <= 0 + 5 * (Z.to_nat (maxAttempts_of env) + 1))%nat /\
  clock (snd run) = 5%nat /\
  bucket_calls (trace (snd run))
    = [R2Head keyringFilename;
       R2Get keyringFilename (Some (@if_match_condition Scenario.host request))
         (Some (Suffix 100));
       R2Get keyringFilename (Some (@if_none_match_condition Scenario.host request))
         (Some (Suffix 100));
       R2Get keyringFilename None (Some (Suffix 100));
       R2Get "404.html" None None].
Proof.
  intros request env run; split; [|split; reflexivity].
  exact (@bucket_calls_bound Scenario.host request env Scenario.start (fst run) (snd run)
           (surjective_pairing run)).
Defined.

(** ** Requests that are always answered *)

Lemma never_throws_bind {A B} (m : M A) (f : A -> M B) :
  never_throws m -> (forall a, never_throws (f a)) -> never_throws (bind m f).
Proof.
  intros Hm Hf w e; unfold bind.
  destruct (m w) as [[a|r|e0|] w1] eqn:Em; cbn [fst]; try discriminate.
  - apply Hf.
  - exfalso; apply (Hm w e0); rewrite Em; reflexivity.
Qed.

Lemma never_throws_ret {A} (a : A) : never_throws (ret a).
Proof. intros w e; discriminate. Qed.

Lemma never_throws_return {A} r : never_throws (@return_ A r).
Proof. intros w e; discriminate. Qed.

Lemma never_throws_log b ev : never_throws (when b (emit ev)).
Proof. intros w e; destruct b; discriminate. Qed.

Section Answers.
Context `{Platform}.
Variables (request : Request) (env : Env).
Hypothesis bucket_answers : never_rejects (R2_BUCKET env).
Hypothesis budget : -1 <= maxAttempts_of env.

Lemma never_throws_head name : never_throws (retryAsync env (r2_head env name)).
Proof.
  intros w e; destruct bucket_answers as (Hh & _ & _).
  destruct (Hh (clock w) name) as [o Ho].
  rewrite (retryAsync_success _ env _ w (option_map FileObject o) (served (R2Head name) w) budget);
    [discriminate|].
  unfold r2_head; rewrite Ho; reflexivity.
Qed.

Lemma never_throws_get name range : never_throws (retryAsync env (r2_get env name range)).
Proof.
  intros w e; destruct bucket_answers as (_ & Hg & _).
  destruct (Hg (clock w) name range) as [o Ho].
  rewrite (retryAsync_success _ env _ w
             (option_map (fun ob => FileObjectBody (fst ob) (snd ob)) o)
             (served (R2Get name None range) w) budget);
    [discriminate|].
  unfold r2_get; rewrite Ho; reflexivity.
Qed.

Lemma never_throws_get_onlyIf name onlyIf range :
  never_throws (retryAsync env (r2_get_onlyIf env name onlyIf range)).
Proof.
  intros w e; destruct bucket_answers as (_ & _ & Hc).
  destruct (Hc (clock w) name onlyIf range) as [o Ho].
  rewrite (retryAsync_success _ env _ w o (served (R2Get name (Some onlyIf) range) w) budget);
    [discriminate|].
  unfold r2_get_onlyIf; rewrite Ho; reflexivity.
Qed.

Ltac answers :=
  repeat first
    [ apply never_throws_ret
    | apply never_throws_return
    | apply never_throws_head
    | apply never_throws_get
    | apply never_throws_get_onlyIf
    | apply never_throws_log
    | apply never_throws_bind; [|intros]
    | match goal with
      | |- never_throws (if ?b then _ else _) => destruct b
      | |- never_throws (match ?x with _ => _ end) => destruct x
      end ].

Lemma fetch_body_never_throws : never_throws (fetch_body request env).
Proof.
  unfold fetch_body, cache_stage, log_miss, log_hit, pipeline, resolve_key,
    resolve, assemble, range_stage, if_match_stage, if_none_match_stage,
    final_fetch, not_found_stage, fallback_fetch, when.
  answers;
    intros w e; unfold cache_match, cache_put, emit; cbn [fst]; discriminate.
Qed.

End Answers.

(** X20: when the bucket never rejects a call, the budget is at least
    [-1] and the headers the handler assembles pass the check of the
    [Response] constructor, [fetch] does not throw: the request gets a
    response. *)
Theorem always_answers `{Platform} (request : Request) (env : Env) (w : World) :
  never_rejects (R2_BUCKET env) ->
  -1 <= maxAttempts_of env ->
  (forall response w', fetch request env w = (Normal response, w') ->
                       constructible (response_headers response) = true) ->
  exists response w',
    fetch request env w = (Normal response, w') /\
    constructible (response_headers response) = true.
Proof.
  intros Hb Hn Hvalid.
  destruct (fetch_terminates request env w) as [(response & w' & Hok)|(err & w' & Hthrow)].
  { exists response, w'; split; [exact Hok|exact (Hvalid _ _ Hok)]. }
  exfalso.
  pose proof (fetch_body_never_throws request env Hb Hn w err) as Hnt.
  unfold fetch, call in Hthrow.
  destruct (fetch_body request env w) as [[a|r|e|] wb]; try discriminate.
  injection Hthrow as -> _; apply Hnt; reflexivity.
Qed.

Lemma always_answers_witness :
  let request := Scenario.get_keyring [("if-match", "xyz"); ("range", "bytes=0-1,500-501")] in
  let env := Scenario.env_of (Scenario.bucket_of (Scenario.keyring_store 1000)) (Some (-1)) in
  exists response w',
    @fetch Scenario.host request env Scenario.start = (Normal response, w') /\
    constructible (response_headers response) = true.
Proof.
  intros request env.
  apply (@always_answers Scenario.host request env Scenario.start).
  - repeat split; intros; eexists; reflexivity.
  - subst env; cbn; lia.
  - intros response w' Hf.
    vm_compute in Hf; injection Hf as <- _; reflexivity.
Defined.

(** ** Ranges inside the object *)

(** X21: when the parser's range satisfies [0 <= start <= end < size], the
    effective range lies inside the object: a suffix is between 1 and the
    size, and an explicit window has a positive length and ends before the
    last byte (a window that reaches the last byte is always a suffix). *)
Theorem encoded_range_within_object (fileSize : Z) (r : Range) :
  0 <= start r <= range_end r -> range_end r < fileSize ->
  match encode_range fileSize r with
  | Suffix suffix =>
      0 < suffix <= fileSize /\ fileSize - suffix = start r /\ range_end r = fileSize - 1
  | OffsetLength offset length =>
      0 <= offset /\ 0 < length /\ offset + length < fileSize
  end.
Proof.
  intros Hse Hend; unfold encode_range.
  destruct (Z.eqb_spec fileSize (range_end r + 1)); lia.
Qed.

Lemma encoded_range_within_object_witness :
  match encode_range 1000 {| start := 900; range_end := 999 |} with
  | Suffix suffix => 0 < suffix <= 1000 /\ 1000 - suffix = 900 /\ 999 = 1000 - 1
  | OffsetLength offset length => 0 <= offset /\ 0 < length /\ offset + length < 1000
  end /\
  match encode_range 1000 {| start := 0; range_end := 9 |} with
  | Suffix suffix => 0 < suffix <= 1000 /\ 1000 - suffix = 0 /\ 9 = 1000 - 1
  | OffsetLength offset length => 0 <= offset /\ 0 < length /\ offset + length < 1000
  end.
Proof.
  split.
  - apply (encoded_range_within_object 1000 {| start := 900; range_end := 999 |});
      cbn; lia.
  - apply (encoded_range_within_object 1000 {| start := 0; range_end := 9 |}); cbn; lia.
Defined.

(** ** Logging *)

Lemma silent_app t1 t2 : silent (t1 ++ t2) = silent t1 ++ silent t2.
Proof. apply filter_app. Qed.

Lemma same_but_console_refl w : same_but_console w w.
Proof. repeat split. Qed.

Lemma simulates_ret {A} (a : A) : simulates (ret a) (ret a).
Proof. intros w w' R; split; [reflexivity|exact R]. Qed.

Lemma simulates_return {A} r : simulates (@return_ A r) (return_ r).
Proof. intros w w' R; split; [reflexivity|exact R]. Qed.

Lemma simulates_throw {A} e : simulates (@throw A e) (throw e).
Proof. intros w w' R; split; [reflexivity|exact R]. Qed.

Lemma simulates_bind {A B} (m m' : M A) (f f' : A -> M B) :
  simulates m m' -> (forall a, simulates (f a) (f' a)) ->
  simulates (bind m f) (bind m' f').
Proof.
  intros Hm Hf w w' R; unfold bind.
  destruct (Hm w w' R) as [Hc Hw].
  destruct (m w) as [c w1], (m' w') as [c' w1']; cbn [fst snd] in Hc, Hw; subst c'.
  destruct c as [a|r|e|]; cbn [fst snd]; try (split; [reflexivity|exact Hw]).
  apply Hf; exact Hw.
Qed.

(** An event that both runs add. *)
Lemma simulates_emit e : simulates (emit e) (emit e).
Proof.
  intros w w' (Hc & Hk & Ht); split; [reflexivity|].
  unfold emit; cbn [snd]; repeat split; cbn [clock cache trace]; try assumption.
  rewrite !silent_app, Ht; reflexivity.
Qed.

(** A console line that one run may add and the other not. *)
Lemma simulates_log b b' e e' :
  is_console e = true -> is_console e' = true ->
  simulates (when b (emit e)) (when b' (emit e')).
Proof.
  intros He He' w w' (Hc & Hk & Ht); split; [destruct b, b'; reflexivity|].
  destruct b, b'; cbn [when emit ret snd]; repeat split; cbn [clock cache trace];
    try assumption; rewrite ?silent_app; cbn [silent filter];
    rewrite ?He, ?He'; cbn [negb]; rewrite ?app_nil_r; exact Ht.
Qed.

Lemma simulates_call {A} (m m' : M A) g : simulates m m' -> simulates (call m g) (call m' g).
Proof.
  intros Hm w w' R; unfold call.
  destruct (Hm w w' R) as [Hc Hw].
  destruct (m w) as [c w1], (m' w') as [c' w1']; cbn [fst snd] in Hc, Hw; subst c'.
  destruct c; cbn [fst snd]; split; try reflexivity; exact Hw.
Qed.

Section Logging.
Context `{Platform}.
Variables (request : Request) (env : Env) (b : option bool).

Lemma served_same e w w' :
  same_but_console w w' -> same_but_console (served e w) (served e w').
Proof.
  intros (Hc & Hk & Ht); unfold served; repeat split; cbn [clock cache trace];
    try congruence.
  rewrite !silent_app, Ht; reflexivity.
Qed.

Lemma simulates_head name : simulates (r2_head env name) (r2_head (with_logging env b) name).
Proof.
  intros w w' R; unfold r2_head; cbn [R2_BUCKET with_logging].
  rewrite <- (proj1 R).
  destruct (head (R2_BUCKET env) (clock w) name); cbn [settle fst snd];
    (split; [reflexivity|apply served_same; exact R]).
Qed.

Lemma simulates_get name range : simulates (r2_get env name range) (r2_get (with_logging env b) name range).
Proof.
  intros w w' R; unfold r2_get; cbn [R2_BUCKET with_logging].
  rewrite <- (proj1 R).
  destruct (get (R2_BUCKET env) (clock w) name range); cbn [settle fst snd];
    (split; [reflexivity|apply served_same; exact R]).
Qed.

Lemma simulates_get_onlyIf name onlyIf range :
  simulates (r2_get_onlyIf env name onlyIf range) (r2_get_onlyIf (with_logging env b) name onlyIf range).
Proof.
  intros w w' R; unfold r2_get_onlyIf; cbn [R2_BUCKET with_logging].
  rewrite <- (proj1 R).
  destruct (get_onlyIf (R2_BUCKET env) (clock w) name onlyIf range); cbn [settle fst snd];
    (split; [reflexivity|apply served_same; exact R]).
Qed.

Lemma simulates_retry_loop {T} (fn fn' : M T) n fuel :
  simulates fn fn' ->
  forall a, simulates (retry_loop fuel env fn n a) (retry_loop fuel (with_logging env b) fn' n a).
Proof.
  intros Hfn; induction fuel as [|fuel IH]; intros a w w' R.
  - split; [reflexivity|exact R].
  - rewrite !retry_loop_S.
    destruct ((n =? -1) || (a <=? n)); [|split; [reflexivity|exact R]].
    destruct (Hfn w w' R) as [Hc Hw].
    destruct (fn w) as [c w1], (fn' w') as [c' w1']; cbn [fst snd] in Hc, Hw; subst c'.
    destruct c as [v|r|err|]; try (split; [reflexivity|exact Hw]).
    assert (Hlog : same_but_console (logged env (a + 1) err w1) (logged (with_logging env b) (a + 1) err w1')).
    { unfold logged. apply simulates_log; [reflexivity|reflexivity|exact Hw]. }
    destruct (a + 1 <=? n).
    + apply IH; unfold slept, sleep.
      apply simulates_emit; exact Hlog.
    + split; [reflexivity|exact Hlog].
Qed.

Lemma simulates_retryAsync {T} (fn fn' : M T) :
  simulates fn fn' -> simulates (retryAsync env fn) (retryAsync (with_logging env b) fn').
Proof. intros Hfn; apply simulates_retry_loop; exact Hfn. Qed.

Lemma simulates_cache_match : simulates (cache_match request) (cache_match request).
Proof.
  intros w w' (Hc & Hk & Ht); unfold cache_match; cbn [fst snd]; rewrite Hk.
  split; [reflexivity|].
  repeat split; cbn [clock cache trace]; try assumption.
  rewrite !silent_app, Ht; reflexivity.
Qed.

Lemma simulates_cache_put response :
  simulates (cache_put request response) (cache_put request response).
Proof.
  intros w w' (Hc & Hk & Ht); unfold cache_put; cbn [fst snd].
  split; [reflexivity|].
  repeat split; cbn [clock cache trace]; try congruence.
  rewrite !silent_app, Ht; reflexivity.
Qed.

Lemma simulates_when c (m m' : M unit) :
  simulates m m' -> simulates (when c m) (when c m').
Proof. intros Hm; destruct c; [exact Hm|apply simulates_ret]. Qed.

Ltac simulate :=
  repeat first
    [ apply simulates_ret
    | apply simulates_return
    | apply simulates_retryAsync
    | apply simulates_head
    | apply simulates_get
    | apply simulates_get_onlyIf
    | apply simulates_cache_match
    | apply simulates_cache_put
    | apply simulates_log; reflexivity
    | apply simulates_bind; [|intros]
    | match goal with
      | |- simulates (if ?c then _ else _) (if ?c then _ else _) => destruct c
      | |- simulates (match ?x with _ => _ end) (match ?x with _ => _ end) => destruct x
      end ].

Lemma simulates_fetch : simulates (fetch request env) (fetch request (with_logging env b)).
Proof.
  apply simulates_call.
  unfold fetch_body, cache_stage, log_miss, log_hit, pipeline, resolve_key,
    resolve, assemble, range_stage, if_match_stage, if_none_match_stage,
    final_fetch, not_found_stage, fallback_fetch, cacheable, isCachingEnabled,
    object_key, date_suffix_text.
  cbn [with_logging R2_BUCKET ALLOWED_ORIGINS CACHE_CONTROL NOTFOUND_FILE
       R2_RETRIES DATE_SUFFIX].
  simulate; apply simulates_when; exact (simulates_cache_put _).
Qed.

End Logging.

(** X22: logging is not a correctness dependency: with any other value of
    [LOGGING], from the same world, [fetch] ends the same way (the same
    response or the same thrown value) and leaves the same cache, the same
    number of calls served and the same trace but for the console lines. *)
Theorem logging_is_transparent `{Platform} (request : Request) (env : Env)
  (b : option bool) (w : World) :
  fst (fetch request (with_logging env b) w) = fst (fetch request env w) /\
  same_but_console (snd (fetch request env w))
                   (snd (fetch request (with_logging env b) w)).
Proof.
  destruct (simulates_fetch request env b w w (same_but_console_refl w)) as [Hc Hw].
  split; [symmetry; exact Hc|exact Hw].
Qed.
